(** * AP migration assistant: orchestration workflows and conversion monitor

    A shallow embedding of [aos8_aos10_tool.py]: the conversion monitoring
    engine ([track_conversion_progress], [monitor_ap_conversion]) and the
    SSH orchestration workflows ([select_cluster], [execute_ap_convert_init],
    [select_and_add_ap_group], [prep_migration_ssh], [cleanup_ap_convert]),
    followed by the properties established about them.

    Conventions.
    - A Python [str] is a [string] (its UTF-8 bytes); [a in b] on strings is
      [Py.contains].
    - A Python [dict] keyed by strings is a [gmap string _], a [set] of
      strings a [gset string].
    - A raised exception is a value: either the [inl] of a sum, or the
      [Exc] outcome of the orchestration monad, which keeps the state
      reached when the exception was raised.
    - The remote devices, the operator's keyboard and the clock are inputs:
      a script of connection results, command responses and typed lines, and
      one clock reading per monitoring cycle. *)

From stdpp Require Import gmap strings list fin_maps sorting.
From Stdlib Require Import ZArith Lia.

Open Scope string_scope.
Open Scope Z_scope.

(** ** Python helpers *)

Module Py.

(** [needle in hay] for two strings. *)
Fixpoint contains (needle hay : string) : bool :=
  String.prefix needle hay ||
  match hay with
  | EmptyString => false
  | String _ rest => contains needle rest
  end.

(** [any(x in output for x in markers)]. *)
Definition any_in (markers : list string) (output : string) : bool :=
  existsb (fun x => contains x output) markers.

(** [s.lower() == 'y']: the only strings whose lower-casing is ["y"]. *)
Definition lower_is_y (s : string) : bool :=
  String.eqb s "y" || String.eqb s "Y".

(** [', '.join(l)]. *)
Fixpoint join (sep : string) (l : list string) : string :=
  match l with
  | [] => ""
  | [x] => x
  | x :: rest => x ++ sep ++ join sep rest
  end.

(** [sorted(list(s))] for a set of strings: ascending code-point order,
    which on UTF-8 bytes is the byte-wise lexicographic order. *)
Definition sorted (s : gset string) : list string :=
  merge_sort String.le (elements s).

End Py.

(** ** Fleet directory: the rows of [aruba_migration.db] the workflows read *)

Module FleetDirectory.

(** A row of [controllers], as the dict built by [get_all_controllers] and
    [get_controllers_by_cluster]. *)
Record controller := mk_controller {
  id : Z;
  ip_address : string;
  name : string;
  nodepath : string
}.

(** A row of [lc_clusters]; [cluster_name] is a nullable TEXT column. *)
Record lc_cluster := mk_lc_cluster {
  controller_id : Z;
  cluster_name : option string
}.

(** A row of [ap_groups]. *)
Record ap_group := mk_ap_group {
  group_controller_id : Z;
  group_name : string
}.

Record database := mk_database {
  controllers : list controller;
  lc_clusters : list lc_cluster;
  ap_groups : list ap_group
}.

(** [WHERE cluster_name != 'Unknown' AND cluster_name IS NOT NULL]. *)
Definition known_cluster (c : option string) : option string :=
  match c with
  | Some n => if String.eqb n "Unknown" then None else Some n
  | None => None
  end.

(** [SELECT DISTINCT]: rows in order of first appearance. *)
Fixpoint distinct {A} `{EqDecision A} (l : list A) : list A :=
  match l with
  | [] => []
  | x :: rest => x :: filter (fun y => y <> x) (distinct rest)
  end.

(** [SELECT * FROM controllers]. *)
Definition get_all_controllers (db : database) : list controller :=
  controllers db.

(** [SELECT DISTINCT lc.cluster_name, c.nodepath FROM lc_clusters lc
    JOIN controllers c ON lc.controller_id = c.id
    WHERE lc.cluster_name != 'Unknown' AND lc.cluster_name IS NOT NULL]. *)
Definition get_all_clusters_with_nodepaths (db : database)
  : list (string * string) :=
  distinct
    (lc ← lc_clusters db;
     match known_cluster (cluster_name lc) with
     | Some n =>
         c ← controllers db;
         if decide (controller_id lc = id c) then [(n, nodepath c)] else []
     | None => []
     end).

(** [SELECT DISTINCT cluster_name FROM lc_clusters
    WHERE cluster_name != 'Unknown' AND cluster_name IS NOT NULL]. *)
Definition get_available_clusters (db : database) : list string :=
  distinct (omap (fun lc => known_cluster (cluster_name lc)) (lc_clusters db)).

(** [SELECT controller_id FROM lc_clusters WHERE cluster_name = ?], then
    [SELECT * FROM controllers WHERE id IN (...)]. *)
Definition get_controllers_by_cluster (db : database) (cluster : string)
  : list controller :=
  let controller_ids :=
    omap (fun lc => if decide (cluster_name lc = Some cluster)
                    then Some (controller_id lc) else None)
         (lc_clusters db) in
  filter (fun c => id c ∈ controller_ids) (controllers db).

(** [SELECT name FROM ap_groups WHERE controller_id = ?]. *)
Definition get_ap_groups_for_controller (db : database) (cid : Z)
  : list string :=
  omap (fun g => if decide (group_controller_id g = cid)
                 then Some (group_name g) else None)
       (ap_groups db).

(** The two-step lookup of [get_clusters_for_nodepath]: the ids of the
    controllers at the node path, then the distinct known cluster names of
    those controllers. *)
Definition get_clusters_for_nodepath (db : database) (np : string)
  : list string :=
  let controller_ids :=
    omap (fun c => if decide (nodepath c = np) then Some (id c) else None)
         (controllers db) in
  match controller_ids with
  | [] => []
  | _ =>
      distinct
        (omap (fun lc => if decide (controller_id lc ∈ controller_ids)
                         then known_cluster (cluster_name lc) else None)
              (lc_clusters db))
  end.

(** *** Writes of the discovery *)

(** The tables together with the counter that [AUTOINCREMENT] keeps for
    [controllers] in [sqlite_sequence]: the largest id given so far. The
    ids of the other two tables are read nowhere. *)
Record store := mk_store {
  tables : database;
  controllers_seq : Z
}.

(** [UPDATE controllers SET name = ?, nodepath = ? ... WHERE id = ?]. *)
Definition update_controller (cid : Z) (name nodepath : string)
    (c : controller) : controller :=
  if decide (id c = cid)
  then {| id := id c; ip_address := ip_address c;
          name := name; nodepath := nodepath |}
  else c.

(** [store_controller(controller_data)] for the row
    [[ip_address, name, nodepath, model, version]]: the id of the row that
    has the address when there is one, which is updated; the id of the row
    inserted otherwise, one more than the larger of the largest id in the
    table and the counter. *)
Definition store_controller (ip_address name nodepath : string) (s : store)
  : Z * store :=
  let db := tables s in
  match filter (fun c => FleetDirectory.ip_address c = ip_address)
               (controllers db) with
  | found :: _ =>
      let controller_id := id found in
      (controller_id,
       {| tables :=
            {| controllers :=
                 map (update_controller controller_id name nodepath)
                     (controllers db);
               lc_clusters := lc_clusters db;
               ap_groups := ap_groups db |};
          controllers_seq := controllers_seq s |})
  | [] =>
      let controller_id :=
        Z.max (foldr Z.max 0 (map id (controllers db))) (controllers_seq s) + 1 in
      (controller_id,
       {| tables :=
            {| controllers :=
                 controllers db
                 ++ [ {| id := controller_id; ip_address := ip_address;
                         name := name; nodepath := nodepath |} ];
               lc_clusters := lc_clusters db;
               ap_groups := ap_groups db |};
          controllers_seq := controller_id |})
  end.

(** [store_lc_cluster(controller_id, cluster_info)]: the rows of the
    controller are deleted and one row is inserted. *)
Definition store_lc_cluster (controller_id : Z) (cluster_name : string)
    (db : database) : database :=
  {| controllers := controllers db;
     lc_clusters :=
       filter (fun lc => FleetDirectory.controller_id lc <> controller_id)
              (lc_clusters db)
       ++ [ {| controller_id := controller_id;
               cluster_name := Some cluster_name |} ];
     ap_groups := ap_groups db |}.

(** [store_ap_groups(controller_id, ap_groups_data)]: the rows of the
    controller are deleted and one row is inserted per element of
    ["AP group List"], named ["Unknown"] when the element has no
    ["Name"]. [None] is a payload without the list. *)
Definition store_ap_groups (controller_id : Z)
    (ap_group_list : option (list (option string))) (db : database)
  : database :=
  {| controllers := controllers db;
     lc_clusters := lc_clusters db;
     ap_groups :=
       filter (fun g => group_controller_id g <> controller_id) (ap_groups db)
       ++ map (fun group =>
                 {| group_controller_id := controller_id;
                    group_name := default "Unknown" group |})
              (default [] ap_group_list) |}.

(** [clear_database()] on an existing file: every table is emptied; the
    counter stays. *)
Definition clear_database (s : store) : store :=
  {| tables := {| controllers := []; lc_clusters := []; ap_groups := [] |};
     controllers_seq := controllers_seq s |}.

(** *** AP inventory *)

(** [count_ap_types(ap_database_data)] for a payload that is a dict:
    [None] when it has no ["AP Database"] key, otherwise the elements of
    that array, each the value under ["AP Type"] or [None] for an element
    without one. *)
Definition count_ap_types (ap_database : option (list (option string)))
  : gmap string nat :=
  match ap_database with
  | None => ∅
  | Some ap_database =>
      foldl (fun type_counts ap =>
               match ap with
               | Some ap_type =>
                   match type_counts !! ap_type with
                   | Some n => <[ap_type := (n + 1)%nat]> type_counts
                   | None => <[ap_type := 1%nat]> type_counts
                   end
               | None => type_counts
               end)
            ∅ ap_database
  end.

(** [sum(type_counts.values())], the total that
    [display_ap_type_counts] prints. *)
Definition total_aps (type_counts : gmap string nat) : nat :=
  map_fold (fun _ n total => (n + total)%nat) 0%nat type_counts.

End FleetDirectory.

(** ** Conversion monitoring engine *)

Module Monitor.

Import FleetDirectory.

(** A reading of [datetime.now()]. *)
Definition time := Z.

(** The second component of [parse_ap_convert_status]'s result. *)
Record conversion_summary := mk_summary {
  status : string;
  mode : string;
  summary_current_converting : Z;
  max_converting : Z;
  summary_start_time : string;
  current_status : string;
  summary_ap_groups : list string
}.

(** One element of [converting_aps], the first component of
    [parse_ap_convert_status]'s result. *)
Record converting_ap := mk_converting_ap {
  ap_name : string;
  ap_mac : string;
  ap_status : string;
  ap_progress : string
}.

(** The per-controller dict created by [track_conversion_progress]. The
    last two fields are the keys ['last_seen'] and ['completed_time'] that
    the monitor loop writes into whatever dict sits under an AP's name. *)
Record controller_data := mk_controller_data {
  conversion_started : bool;
  start_time : option string;
  ap_groups : list string;
  peak_converting : Z;
  total_processed_estimate : Z;
  last_current_converting : Z;
  ctrl_last_seen : option time;
  ctrl_completed_time : option time
}.

(** The per-AP dict created by the monitor loop. *)
Record ap_data := mk_ap_data {
  first_seen : time;
  last_seen : time;
  controller_of : string;
  mac : string;
  status_history : list (time * string * string);
  completed_time : option time
}.

(** [all_time_aps] holds both kinds of dict in one name space: the monitor
    passes it to [track_conversion_progress] as [all_time_data], keyed by
    controller name, and keys it by AP name itself. *)
Inductive entry :=
| ControllerEntry (c : controller_data)
| ApEntry (a : ap_data).

Inductive exn := KeyError (key : string).

Definition new_controller_data : controller_data :=
  {| conversion_started := false; start_time := None; ap_groups := [];
     peak_converting := 0; total_processed_estimate := 0;
     last_current_converting := 0;
     ctrl_last_seen := None; ctrl_completed_time := None |}.

Definition set_started (s : conversion_summary) (c : controller_data) :=
  {| conversion_started := true;
     start_time := Some (summary_start_time s);
     ap_groups := summary_ap_groups s;
     peak_converting := peak_converting c;
     total_processed_estimate := total_processed_estimate c;
     last_current_converting := last_current_converting c;
     ctrl_last_seen := ctrl_last_seen c;
     ctrl_completed_time := ctrl_completed_time c |}.

Definition set_peak (p : Z) (c : controller_data) :=
  {| conversion_started := conversion_started c;
     start_time := start_time c;
     ap_groups := ap_groups c;
     peak_converting := p;
     total_processed_estimate := total_processed_estimate c;
     last_current_converting := last_current_converting c;
     ctrl_last_seen := ctrl_last_seen c;
     ctrl_completed_time := ctrl_completed_time c |}.

Definition add_processed (n : Z) (c : controller_data) :=
  {| conversion_started := conversion_started c;
     start_time := start_time c;
     ap_groups := ap_groups c;
     peak_converting := peak_converting c;
     total_processed_estimate := total_processed_estimate c + n;
     last_current_converting := last_current_converting c;
     ctrl_last_seen := ctrl_last_seen c;
     ctrl_completed_time := ctrl_completed_time c |}.

Definition set_last_current (n : Z) (c : controller_data) :=
  {| conversion_started := conversion_started c;
     start_time := start_time c;
     ap_groups := ap_groups c;
     peak_converting := peak_converting c;
     total_processed_estimate := total_processed_estimate c;
     last_current_converting := n;
     ctrl_last_seen := ctrl_last_seen c;
     ctrl_completed_time := ctrl_completed_time c |}.

Definition set_ctrl_last_seen (t : time) (c : controller_data) :=
  {| conversion_started := conversion_started c;
     start_time := start_time c;
     ap_groups := ap_groups c;
     peak_converting := peak_converting c;
     total_processed_estimate := total_processed_estimate c;
     last_current_converting := last_current_converting c;
     ctrl_last_seen := Some t;
     ctrl_completed_time := ctrl_completed_time c |}.

Definition set_ctrl_completed_time (t : time) (c : controller_data) :=
  {| conversion_started := conversion_started c;
     start_time := start_time c;
     ap_groups := ap_groups c;
     peak_converting := peak_converting c;
     total_processed_estimate := total_processed_estimate c;
     last_current_converting := last_current_converting c;
     ctrl_last_seen := ctrl_last_seen c;
     ctrl_completed_time := Some t |}.

(** [track_conversion_progress(controller_name, conversion_summary,
    all_time_data)]. The dict under [controller_name] is created when the
    key is absent; when the key holds an AP's dict, the first read of a
    controller key raises [KeyError] before anything is written. *)
Definition track_conversion_progress (controller_name : string)
    (summary : conversion_summary) (all_time_data : gmap string entry)
  : exn + (controller_data * gmap string entry) :=
  let all_time_data :=
    match all_time_data !! controller_name with
    | None => <[controller_name := ControllerEntry new_controller_data]> all_time_data
    | Some _ => all_time_data
    end in
  match all_time_data !! controller_name with
  | Some (ControllerEntry controller_data) =>
      let current_converting := summary_current_converting summary in
      let controller_data :=
        if String.eqb (status summary) "Active"
           && negb (conversion_started controller_data)
        then set_started summary controller_data
        else controller_data in
      let controller_data :=
        if peak_converting controller_data <? current_converting
        then set_peak current_converting controller_data
        else controller_data in
      let controller_data :=
        if current_converting <? last_current_converting controller_data
        then
          let newly_completed :=
            last_current_converting controller_data - current_converting in
          add_processed newly_completed controller_data
        else controller_data in
      let controller_data := set_last_current current_converting controller_data in
      inr (controller_data,
           <[controller_name := ControllerEntry controller_data]> all_time_data)
  | Some (ApEntry _) =>
      inl (KeyError (if String.eqb (status summary) "Active"
                     then "conversion_started" else "peak_converting"))
  | None => inl (KeyError controller_name)
  end.

(** The monitor's tracking variables. [current_converting] is rebound to a
    fresh set at the top of every cycle and read by the final summary;
    [check_count] counts the cycles started. *)
Record monitor_state := mk_monitor_state {
  all_time_aps : gmap string entry;
  completed_aps : gset string;
  previous_converting : gset string;
  current_converting : gset string;
  check_count : nat
}.

Definition initial_state : monitor_state :=
  {| all_time_aps := ∅; completed_aps := ∅; previous_converting := ∅;
     current_converting := ∅; check_count := 0 |}.

Definition with_all_time_aps (m : gmap string entry) (st : monitor_state) :=
  {| all_time_aps := m;
     completed_aps := completed_aps st;
     previous_converting := previous_converting st;
     current_converting := current_converting st;
     check_count := check_count st |}.

Definition add_current (n : string) (st : monitor_state) :=
  {| all_time_aps := all_time_aps st;
     completed_aps := completed_aps st;
     previous_converting := previous_converting st;
     current_converting := {[n]} ∪ current_converting st;
     check_count := check_count st |}.

(** The body of [for ap in converting_aps]: add the name to the cycle's
    set, create the AP's dict when the name is a new key, then write
    ['last_seen'] and append to ['status_history']. Under a key that holds
    a controller's dict the write of ['last_seen'] succeeds and the read of
    ['status_history'] raises. *)
Definition track_ap (current_time : time) (controller_name : string)
    (ap : converting_ap) (st : monitor_state) : option exn * monitor_state :=
  let ap_name := ap_name ap in
  let st := add_current ap_name st in
  let aps :=
    match all_time_aps st !! ap_name with
    | None =>
        <[ap_name := ApEntry {| first_seen := current_time;
                                last_seen := current_time;
                                controller_of := controller_name;
                                mac := ap_mac ap;
                                status_history := [];
                                completed_time := None |}]> (all_time_aps st)
    | Some _ => all_time_aps st
    end in
  match aps !! ap_name with
  | Some (ApEntry a) =>
      let a :=
        {| first_seen := first_seen a;
           last_seen := current_time;
           controller_of := controller_of a;
           mac := mac a;
           status_history :=
             status_history a ++ [(current_time, ap_status ap, ap_progress ap)];
           completed_time := completed_time a |} in
      (None, with_all_time_aps (<[ap_name := ApEntry a]> aps) st)
  | Some (ControllerEntry c) =>
      (Some (KeyError "status_history"),
       with_all_time_aps
         (<[ap_name := ControllerEntry (set_ctrl_last_seen current_time c)]> aps) st)
  | None => (Some (KeyError ap_name), with_all_time_aps aps st)
  end.

Fixpoint track_aps (current_time : time) (controller_name : string)
    (converting_aps : list converting_ap) (st : monitor_state)
  : option exn * monitor_state :=
  match converting_aps with
  | [] => (None, st)
  | ap :: rest =>
      match track_ap current_time controller_name ap st with
      | (None, st') => track_aps current_time controller_name rest st'
      | raised => raised
      end
  end.

(** What one controller yields in one cycle: [None] when
    [fetch_ap_convert_status] returns nothing (or a falsy payload),
    otherwise the pair returned by [parse_ap_convert_status]. *)
Definition snapshot : Type := list converting_ap * conversion_summary.

(** One poll cycle's inputs: the clock reading taken at the top of the
    cycle and, per controller in list order, the fetched snapshot (a
    missing position is a failed fetch). *)
Record cycle_input := mk_cycle {
  now : time;
  fetched : list (option snapshot)
}.

(** The body of [for controller in controllers], for what the fetch and
    the parse gave. The [controller_status] table it fills is display-only
    and rebuilt every cycle. *)
Definition query_controller (current_time : time) (controller : controller)
    (convert_data : option snapshot) (st : monitor_state)
  : option exn * monitor_state :=
  let controller_name := name controller in
  match convert_data with
  | Some (converting_aps, conversion_summary) =>
      match track_conversion_progress controller_name conversion_summary
              (all_time_aps st) with
      | inr (_, aps) =>
          track_aps current_time controller_name converting_aps
            (with_all_time_aps aps st)
      | inl e => (Some e, st)
      end
  | None => (None, st)
  end.

Fixpoint query_controllers (current_time : time)
    (controllers : list controller) (fetched : list (option snapshot))
    (st : monitor_state) : option exn * monitor_state :=
  match controllers with
  | [] => (None, st)
  | controller :: rest =>
      match query_controller current_time controller (mjoin (head fetched)) st with
      | (None, st') => query_controllers current_time rest (tail fetched) st'
      | raised => raised
      end
  end.

(** [all_time_aps[ap_name]['completed_time'] = current_time]. *)
Definition stamp_completed (t : time) (e : entry) : entry :=
  match e with
  | ApEntry a =>
      ApEntry {| first_seen := first_seen a;
                 last_seen := last_seen a;
                 controller_of := controller_of a;
                 mac := mac a;
                 status_history := status_history a;
                 completed_time := Some t |}
  | ControllerEntry c => ControllerEntry (set_ctrl_completed_time t c)
  end.

(** One iteration of [while monitoring_active]. The rendering of the
    dashboard and the sleep follow the state update and read it only. *)
Definition monitor_cycle (controllers : list controller) (c : cycle_input)
    (st : monitor_state) : option exn * monitor_state :=
  let current_time := now c in
  let st :=
    {| all_time_aps := all_time_aps st;
       completed_aps := completed_aps st;
       previous_converting := previous_converting st;
       current_converting := ∅;
       check_count := S (check_count st) |} in
  match query_controllers current_time controllers (fetched c) st with
  | (None, st) =>
      let newly_completed := previous_converting st ∖ current_converting st in
      (None,
       {| all_time_aps :=
            foldr (alter (stamp_completed current_time)) (all_time_aps st)
                  (elements newly_completed);
          completed_aps := completed_aps st ∪ newly_completed;
          previous_converting := current_converting st;
          current_converting := current_converting st;
          check_count := check_count st |})
  | raised => raised
  end.

(** The loop: cycles run until the operator stops the monitor (the list
    ends) or a cycle raises, which the [except Exception] around the loop
    turns into the end of monitoring. *)
Fixpoint monitor_loop (controllers : list controller)
    (cycles : list cycle_input) (st : monitor_state)
  : option exn * monitor_state :=
  match cycles with
  | [] => (None, st)
  | c :: rest =>
      match monitor_cycle controllers c st with
      | (None, st') => monitor_loop controllers rest st'
      | raised => raised
      end
  end.

(** [monitor_ap_conversion()] for the controllers of the selected cluster:
    nothing is tracked when there are none. *)
Definition monitor_ap_conversion (controllers : list controller)
    (cycles : list cycle_input) : option exn * monitor_state :=
  match controllers with
  | [] => (None, initial_state)
  | _ => monitor_loop controllers cycles initial_state
  end.

(** The ['total_processed_estimate'] and ['last_current_converting'] held
    for a controller; [0], the value a new dict starts with, while the
    controller has no dict. *)
Definition estimate_of (aps : gmap string entry) (controller_name : string) : Z :=
  match aps !! controller_name with
  | Some (ControllerEntry c) => total_processed_estimate c
  | _ => 0
  end.

Definition last_converting_of (aps : gmap string entry) (controller_name : string) : Z :=
  match aps !! controller_name with
  | Some (ControllerEntry c) => last_current_converting c
  | _ => 0
  end.

(** The test of the final summary that announces that all access points
    have completed conversion:
    [len(all_time_aps) > 0 and len(completed_aps) == len(all_time_aps)]. *)
Definition all_converted (st : monitor_state) : bool :=
  bool_decide (0 < size (all_time_aps st))%nat
  && bool_decide (size (completed_aps st) = size (all_time_aps st)).

(** *** Vocabulary of the monitor's properties *)

(** Entries that are an AP's dict stay an AP's dict with the same
    ['first_seen']. *)
Definition ap_stable (aps aps' : gmap string entry) : Prop :=
  forall k a, aps !! k = Some (ApEntry a) ->
    exists a', aps' !! k = Some (ApEntry a') /\ first_seen a' = first_seen a.

(** No controller's estimate changes. *)
Definition estimates_kept (aps aps' : gmap string entry) : Prop :=
  forall k, estimate_of aps' k = estimate_of aps k.

(** Every AP's dict has a ['first_seen'] that satisfies [P]. *)
Definition first_seen_within (P : time -> Prop) (aps : gmap string entry)
  : Prop :=
  forall k a, aps !! k = Some (ApEntry a) -> P (first_seen a).

(** Every name of the cycle's set has an AP's dict. *)
Definition tracked (st : monitor_state) : Prop :=
  forall n, n ∈ current_converting st ->
    exists a, all_time_aps st !! n = Some (ApEntry a).

(** The facts carried through one cycle's queries. *)
Record carried (P : time -> Prop) (t : time) (st st' : monitor_state)
  : Prop := {
  carried_completed : completed_aps st' = completed_aps st;
  carried_previous : previous_converting st' = previous_converting st;
  carried_count : check_count st' = check_count st;
  carried_stable : ap_stable (all_time_aps st) (all_time_aps st');
  carried_estimates :
    forall k, estimate_of (all_time_aps st) k <= estimate_of (all_time_aps st') k;
  carried_first_seen :
    first_seen_within P (all_time_aps st) ->
    first_seen_within (fun x => P x \/ x = t) (all_time_aps st')
}.

(** The state a cycle starts its queries from. *)
Definition cycle_start (st : monitor_state) : monitor_state :=
  {| all_time_aps := all_time_aps st;
     completed_aps := completed_aps st;
     previous_converting := previous_converting st;
     current_converting := ∅;
     check_count := S (check_count st) |}.


(** Neither the estimate nor the remembered count of [k] changes. *)
Definition progress_kept (k : string) (aps aps' : gmap string entry) : Prop :=
  estimate_of aps' k = estimate_of aps k
  /\ last_converting_of aps' k = last_converting_of aps k.

(** What the query of the controller named [k] does to its estimate and
    its remembered count, for what the fetch gave. *)
Definition advanced_by (data : option snapshot) (k : string)
    (aps aps' : gmap string entry) : Prop :=
  match data with
  | Some (_, summary) =>
      estimate_of aps' k
      = estimate_of aps k
        + Z.max 0 (last_converting_of aps k - summary_current_converting summary)
      /\ last_converting_of aps' k = summary_current_converting summary
  | None => progress_kept k aps aps'
  end.

(** The ['peak_converting'] held for a controller; [0] while it has no
    dict. *)
Definition peak_of (aps : gmap string entry) (controller_name : string) : Z :=
  match aps !! controller_name with
  | Some (ControllerEntry c) => peak_converting c
  | _ => 0
  end.

(** The dict the tracker works on: the one under the controller's key, or
    the new dict it stores there when the key is absent. *)
Definition dict_of (aps : gmap string entry) (controller_name : string)
  : controller_data :=
  match aps !! controller_name with
  | Some (ControllerEntry c) => c
  | _ => new_controller_data
  end.

(** Some key holds a controller's dict. *)
Definition has_controller (aps : gmap string entry) : Prop :=
  exists k c, aps !! k = Some (ControllerEntry c).

(** Keys that hold a controller's dict keep holding one. *)
Definition controller_stable (aps aps' : gmap string entry) : Prop :=
  forall k c, aps !! k = Some (ControllerEntry c) ->
    exists c', aps' !! k = Some (ControllerEntry c').

(** What the final summary can rely on: the dict is empty or has a
    controller's dict, and every name of the completed set and of the
    previous cycle's set has an AP's dict. *)
Record summary_inv (st : monitor_state) : Prop := {
  si_controller : all_time_aps st = ∅ \/ has_controller (all_time_aps st);
  si_completed :
    forall n, n ∈ completed_aps st ->
      exists a, all_time_aps st !! n = Some (ApEntry a);
  si_previous :
    forall n, n ∈ previous_converting st ->
      exists a, all_time_aps st !! n = Some (ApEntry a)
}.

End Monitor.

(** ** Orchestration workflows over SSH *)

Module Orchestration.

Import FleetDirectory.

Inductive exn :=
| Exception (msg : string)
| EOFError
| ChannelError.

(** The lines the workflows print that carry data or report an outcome;
    banners, rules and step headers are left out. [send_ssh_command]'s own
    two prints (the command and the captured output) are the [Command]
    event below. *)
Inductive message :=
| MsgNoClusterSelected
| MsgNoControllersForCluster (cluster : string)
| MsgNoClustersInDatabase
| MsgInvalidSelection
| MsgInvalidInput
| MsgGroupSelectionCleared
| MsgSelectedCluster (cluster : string) (n_controllers : nat)
| MsgConnecting (name ip : string)
| MsgConnectFailed (name : string)
| MsgExecuting (name : string)
| MsgPromptReceived
| MsgActivated
| MsgNoPrompt
| MsgSessionError (name : string) (e : exn)
| MsgClosed (name : string)
| MsgInitSummary (success_count total : nat)
| MsgNoApGroups
| MsgAllGroupsSelected (selected : list string)
| MsgAvailableGroups (available : list string)
| MsgOperationCancelled
| MsgCommandFailed (name output : string)
| MsgGroupAddedOn (name : string)
| MsgGroupAddedToList (group : string) (selected : list string)
| MsgAddSummary (group : string) (success_count total : nat)
| MsgNoMdControllers
| MsgNoClusterInfoForNodepath (nodepath : string)
| MsgPrepTarget (nodepath cluster : string)
| MsgEnteredProfileContext
| MsgFoundClusterName (cluster : string)
| MsgClusterNameNotFound
| MsgLbDisabled
| MsgRedundancyDisabled
| MsgConfigurationSaved
| MsgPrepTargetSaved (nodepath cluster : string)
| MsgPrepError (e : exn)
| MsgSshClosed
| MsgNoControllersInDatabase
| MsgRestorationTarget (nodepath cluster : string)
| MsgNoPrepTargetRestoreAll
| MsgWillClearGroups (selected : list string)
| MsgCleanupCancelled
| MsgClearAllPrompt
| MsgClearAllNoConfirmation
| MsgCancelPrompt
| MsgCancelNoConfirmation
| MsgCleanupCompleted (name : string)
| MsgRestoringSpecific (cluster nodepath : string)
| MsgRestoringAll (clusters_info : list (string * string))
| MsgNoClusterInfoSkipping
| MsgConductorConnectFailed
| MsgRestoring (cluster nodepath : string)
| MsgContextUnconfirmed
| MsgRedundancyEnabled
| MsgRedundancyOutput (output : string)
| MsgLbEnabled
| MsgLbOutput (output : string)
| MsgConfigError (e : exn)
| MsgSavedForNodepath (nodepath : string)
| MsgClusterProcessed (cluster : string) (restored : bool)
| MsgFinalSave
| MsgConductorError (e : exn)
| MsgConductorClosed
| MsgSelectionsCleared
| MsgSummaryTotal (total : nat)
| MsgSummarySuccessful (success_count : nat)
| MsgSummaryFailed (n_failed : nat)
| MsgRestoredTargeted (cluster : string)
| MsgProcessedFull (clusters : list string)
| MsgFailedControllers (names : list string)
| MsgCleanupSucceeded (success_count : nat) (restoration : option bool)
| MsgNoneProcessed.

(** What a workflow does to the outside, in order. [Command] is one call of
    [send_ssh_command]: the line sent on the shell of [ip], the settle time
    in seconds, and the captured text ([None] when the channel raised). *)
Inductive event :=
| Connect (ip : string) (ok : bool)
| Command (ip command : string) (wait_time : nat) (output : option string)
| Close (ip : string)
| Input (line : string)
| Print (m : message).

(** A row of [stored_md_switches]:
    [[ip, name, nodepath, model, version]]. *)
Record md_switch := mk_md_switch {
  md_ip : string;
  md_name : string;
  md_nodepath : string;
  md_model : string;
  md_version : string
}.

(** The script the outside follows ([connects]: whether each next SSH
    connection attempt succeeds; [responses]: what each next command
    captures; [inputs]: the lines the operator types), the module's global
    variables, and the trace so far. *)
Record state := mk_state {
  connects : list bool;
  responses : list (option string);
  inputs : list string;
  stored_md_switches : list md_switch;
  selected_cluster : option string;
  selected_ap_groups : list string;
  prep_migration_target : option (string * string);
  trace : list event
}.

Inductive outcome (A : Type) :=
| Ret (a : A)
| Exc (e : exn).
Arguments Ret {A} a.
Arguments Exc {A} e.

Definition M (A : Type) : Type := state -> outcome A * state.

Definition ret {A} (a : A) : M A := fun st => (Ret a, st).

Definition bind {A B} (m : M A) (k : A -> M B) : M B :=
  fun st =>
    match m st with
    | (Ret a, st') => k a st'
    | (Exc e, st') => (Exc e, st')
    end.

#[global] Instance M_ret : MRet M := @ret.
#[global] Instance M_bind : MBind M := fun A B k m => bind m k.

Definition raise {A} (e : exn) : M A := fun st => (Exc e, st).

(** [try: body / except Exception as e: handler e / finally: final]. *)
Definition try_except_finally {A} (body : M A) (handler : exn -> M A)
    (final : M unit) : M A :=
  fun st =>
    let '(o, st1) :=
      match body st with
      | (Exc e, st1) => handler e st1
      | returned => returned
      end in
    match final st1 with
    | (Ret _, st2) => (o, st2)
    | (Exc e, st2) => (Exc e, st2)
    end.

(** [try: body / except Exception as e: handler e]. *)
Definition try_except {A} (body : M A) (handler : exn -> M A) : M A :=
  fun st =>
    match body st with
    | (Exc e, st1) => handler e st1
    | returned => returned
    end.

Definition log (e : event) (st : state) : state :=
  {| connects := connects st; responses := responses st; inputs := inputs st;
     stored_md_switches := stored_md_switches st;
     selected_cluster := selected_cluster st;
     selected_ap_groups := selected_ap_groups st;
     prep_migration_target := prep_migration_target st;
     trace := trace st ++ [e] |}.

Definition with_connects (l : list bool) (st : state) : state :=
  {| connects := l; responses := responses st; inputs := inputs st;
     stored_md_switches := stored_md_switches st;
     selected_cluster := selected_cluster st;
     selected_ap_groups := selected_ap_groups st;
     prep_migration_target := prep_migration_target st;
     trace := trace st |}.

Definition with_responses (l : list (option string)) (st : state) : state :=
  {| connects := connects st; responses := l; inputs := inputs st;
     stored_md_switches := stored_md_switches st;
     selected_cluster := selected_cluster st;
     selected_ap_groups := selected_ap_groups st;
     prep_migration_target := prep_migration_target st;
     trace := trace st |}.

Definition with_inputs (l : list string) (st : state) : state :=
  {| connects := connects st; responses := responses st; inputs := l;
     stored_md_switches := stored_md_switches st;
     selected_cluster := selected_cluster st;
     selected_ap_groups := selected_ap_groups st;
     prep_migration_target := prep_migration_target st;
     trace := trace st |}.

Definition with_selected_cluster (c : option string) (st : state) : state :=
  {| connects := connects st; responses := responses st; inputs := inputs st;
     stored_md_switches := stored_md_switches st;
     selected_cluster := c;
     selected_ap_groups := selected_ap_groups st;
     prep_migration_target := prep_migration_target st;
     trace := trace st |}.

Definition with_selected_ap_groups (l : list string) (st : state) : state :=
  {| connects := connects st; responses := responses st; inputs := inputs st;
     stored_md_switches := stored_md_switches st;
     selected_cluster := selected_cluster st;
     selected_ap_groups := l;
     prep_migration_target := prep_migration_target st;
     trace := trace st |}.

Definition with_prep_migration_target (t : option (string * string))
    (st : state) : state :=
  {| connects := connects st; responses := responses st; inputs := inputs st;
     stored_md_switches := stored_md_switches st;
     selected_cluster := selected_cluster st;
     selected_ap_groups := selected_ap_groups st;
     prep_migration_target := t;
     trace := trace st |}.

Definition get {A} (f : state -> A) : M A := fun st => (Ret (f st), st).
Definition modify (f : state -> state) : M unit := fun st => (Ret tt, f st).

Definition print (m : message) : M unit := modify (log (Print m)).

(** [ssh_client.close()]. *)
Definition close (ip : string) : M unit := modify (log (Close ip)).

(** [ssh_to_mm(ip, username, password)]: [true] for a [(client, shell)]
    pair, [false] for [(None, None)]; every exception is caught inside. An
    exhausted script refuses the connection. *)
Definition ssh_to_mm (ip : string) : M bool :=
  fun st =>
    let ok := default false (head (connects st)) in
    (Ret ok, log (Connect ip ok) (with_connects (tail (connects st)) st)).

(** [send_ssh_command(shell, command, wait_time)] on the shell opened to
    [ip]. A silent remote (exhausted script) yields the empty text that
    [read_ssh_output] returns after its five seconds. *)
Definition send_ssh_command (ip command : string) (wait_time : nat) : M string :=
  fun st =>
    let r := default (Some "") (head (responses st)) in
    let st' := log (Command ip command wait_time r)
                   (with_responses (tail (responses st)) st) in
    match r with
    | Some output => (Ret output, st')
    | None => (Exc ChannelError, st')
    end.

(** [input(prompt)]. *)
Definition input : M string :=
  fun st =>
    match inputs st with
    | line :: rest => (Ret line, log (Input line) (with_inputs rest st))
    | [] => (Exc EOFError, st)
    end.

(** [for controller in controllers: acc = body(controller, acc)]. *)
Fixpoint for_each {A B} (body : A -> B -> M B) (l : list A) (acc : B) : M B :=
  match l with
  | [] => mret acc
  | x :: rest => acc' ← body x acc; for_each body rest acc'
  end.

(** Truthiness of a global that holds [None] or a string. *)
Definition truthy (s : option string) : option string :=
  match s with
  | Some "" => None
  | other => other
  end.

Definition confirmation_phrase : string :=
  "Do you want to proceed with the operation? [y/n]:".

Definition profile_context_markers : list string :=
  [ "Classic Controller Cluster Profile";
    "(lc-cluster-profile)";
    "(LC-CLUSTER-PROFILE)";
    "lc-cluster-profile" ].

Section Workflows.

(** [int(s)]: [None] stands for [ValueError]. *)
Variable py_int : string -> option Z.

(** [re.search(r"Profile Name = ([^\s,]+)", output)], giving
    [match.group(1)]. *)
Variable search_profile_name : string -> option string.

(** The contents of [aruba_migration.db]; the workflows only read it. *)
Variable db : database.

(** [select_cluster()]. *)
Definition select_cluster : M bool :=
  let clusters := get_available_clusters db in
  match clusters with
  | [] => print MsgNoClustersInDatabase;; mret false
  | _ =>
      selection ← input;
      match py_int selection with
      | None => print MsgInvalidInput;; mret false
      | Some selection =>
          if decide (selection = 0) then mret false
          else if decide (1 <= selection <= Z.of_nat (length clusters)) then
            match clusters !! Z.to_nat (selection - 1) with
            | Some chosen =>
                current ← get selected_cluster;
                (if decide (current = Some chosen) then mret tt
                 else modify (with_selected_ap_groups []);;
                      print MsgGroupSelectionCleared);;
                modify (with_selected_cluster (Some chosen));;
                print (MsgSelectedCluster chosen
                         (length (get_controllers_by_cluster db chosen)));;
                mret true
            | None => raise (Exception "IndexError")
            end
          else print MsgInvalidSelection;; mret false
      end
  end.

(** The body of the host loop of [execute_ap_convert_init]. *)
Definition init_on_controller (command : string) (controller : controller)
    (success_count : nat) : M nat :=
  print (MsgConnecting (name controller) (ip_address controller));;
  ok ← ssh_to_mm (ip_address controller);
  if negb ok then
    print (MsgConnectFailed (name controller));; mret success_count
  else
    try_except_finally
      (print (MsgExecuting (name controller));;
       output ← send_ssh_command (ip_address controller) command 1;
       if Py.contains "WARNING:" output
          && Py.contains confirmation_phrase output
       then
         print MsgPromptReceived;;
         _ ← send_ssh_command (ip_address controller) "y" 1;
         print MsgActivated;;
         mret (S success_count)
       else
         print MsgNoPrompt;; mret success_count)
      (fun e => print (MsgSessionError (name controller) e);;
                mret success_count)
      (close (ip_address controller);; print (MsgClosed (name controller))).

(** [execute_ap_convert_init(mc_username, mc_password)]. *)
Definition execute_ap_convert_init : M bool :=
  selected ← get selected_cluster;
  match truthy selected with
  | None => print MsgNoClusterSelected;; mret false
  | Some cluster =>
      let controllers := get_controllers_by_cluster db cluster in
      match controllers with
      | [] => print (MsgNoControllersForCluster cluster);; mret false
      | _ =>
          let command :=
            "ap convert active specific-aps activate max-downloads 20 no-pre-validation" in
          success_count ← for_each (init_on_controller command) controllers 0%nat;
          print (MsgInitSummary success_count (length controllers));;
          mret (bool_decide (0 < success_count)%nat)
      end
  end.

(** The body of the host loop of [select_and_add_ap_group]. *)
Definition add_on_controller (command : string) (controller : controller)
    (success_count : nat) : M nat :=
  print (MsgConnecting (name controller) (ip_address controller));;
  ok ← ssh_to_mm (ip_address controller);
  if negb ok then
    print (MsgConnectFailed (name controller));; mret success_count
  else
    try_except_finally
      (print (MsgExecuting (name controller));;
       output ← send_ssh_command (ip_address controller) command 1;
       if Py.contains "Error" output || Py.contains "Invalid" output then
         print (MsgCommandFailed (name controller) output);;
         mret success_count
       else
         print (MsgGroupAddedOn (name controller));;
         mret (S success_count))
      (fun e => print (MsgSessionError (name controller) e);;
                mret success_count)
      (close (ip_address controller);; print (MsgClosed (name controller))).

(** The groups of [select_and_add_ap_group]: the union over the cluster's
    controllers, and the sorted list of those not yet selected. *)
Definition all_ap_groups (controllers : list controller) : gset string :=
  foldl (fun acc controller =>
           acc ∪ list_to_set (get_ap_groups_for_controller db (id controller)))
        ∅ controllers.

Definition available_groups (controllers : list controller)
    (selected : list string) : list string :=
  filter (fun group => group ∉ selected)
         (Py.sorted (all_ap_groups controllers)).

(** [select_and_add_ap_group()]. *)
Definition select_and_add_ap_group : M bool :=
  selected ← get selected_cluster;
  match truthy selected with
  | None => print MsgNoClusterSelected;; mret false
  | Some cluster =>
      let controllers := get_controllers_by_cluster db cluster in
      match controllers with
      | [] => print (MsgNoControllersForCluster cluster);; mret false
      | _ =>
          selected_groups ← get selected_ap_groups;
          if decide (all_ap_groups controllers = ∅)
          then print MsgNoApGroups;; mret false
          else
            let available := available_groups controllers selected_groups in
            match available with
            | [] => print (MsgAllGroupsSelected selected_groups);; mret false
            | _ =>
                print (MsgAvailableGroups available);;
                selection ← input;
                match py_int selection with
                | None => print MsgInvalidInput;; mret false
                | Some selection =>
                    if decide (selection = 0) then mret false
                    else if decide (1 <= selection <= Z.of_nat (length available)) then
                      match available !! Z.to_nat (selection - 1) with
                      | Some selected_group =>
                          confirm ← input;
                          if negb (Py.lower_is_y confirm) then
                            print MsgOperationCancelled;; mret false
                          else
                            let command := "ap convert add ap-group " ++ selected_group in
                            success_count ←
                              for_each (add_on_controller command) controllers 0%nat;
                            (if bool_decide (0 < success_count)%nat then
                               modify (fun st =>
                                 with_selected_ap_groups
                                   (selected_ap_groups st ++ [selected_group]) st);;
                               groups ← get selected_ap_groups;
                               print (MsgGroupAddedToList selected_group groups)
                             else mret tt);;
                            print (MsgAddSummary selected_group success_count
                                     (length controllers));;
                            mret (bool_decide (0 < success_count)%nat)
                      | None => raise (Exception "IndexError")
                      end
                    else print MsgInvalidSelection;; mret false
                end
            end
      end
  end.

(** [prep_migration_ssh]: the choice of the node path among those of
    [stored_md_switches] (a Python set, listed here in order of first
    appearance). [None] is an early [return]. *)
Definition prep_select_nodepath (switches : list md_switch)
  : M (option string) :=
  let nodepaths := distinct (map md_nodepath switches) in
  match nodepaths with
  | [selected_nodepath] =>
      confirm ← input;
      if negb (Py.lower_is_y confirm) then
        print MsgOperationCancelled;; mret None
      else mret (Some selected_nodepath)
  | nodepath_list =>
      selection ← input;
      match py_int selection with
      | None => print MsgInvalidSelection;; mret None
      | Some n =>
          let index := n - 1 in
          if decide (0 <= index < Z.of_nat (length nodepath_list)) then
            match nodepath_list !! Z.to_nat index with
            | Some selected_nodepath => mret (Some selected_nodepath)
            | None => print MsgInvalidSelection;; mret None
            end
          else print MsgInvalidSelection;; mret None
      end
  end.

(** [prep_migration_ssh]: the choice of the cluster name for the node
    path. *)
Definition prep_select_cluster (selected_nodepath : string)
  : M (option string) :=
  let available_clusters := get_clusters_for_nodepath db selected_nodepath in
  match available_clusters with
  | [] =>
      print (MsgNoClusterInfoForNodepath selected_nodepath);;
      answer ← input;
      if Py.lower_is_y answer then
        cluster_name ← input; mret (Some cluster_name)
      else mret None
  | [cluster_name] =>
      confirm ← input;
      if negb (Py.lower_is_y confirm) then
        print MsgOperationCancelled;; mret None
      else mret (Some cluster_name)
  | _ =>
      selection ← input;
      match py_int selection with
      | None => print MsgInvalidSelection;; mret None
      | Some n =>
          let index := n - 1 in
          if decide (0 <= index < Z.of_nat (length available_clusters)) then
            match available_clusters !! Z.to_nat index with
            | Some cluster_name => mret (Some cluster_name)
            | None => print MsgInvalidSelection;; mret None
            end
          else print MsgInvalidSelection;; mret None
      end
  end.

(** [prep_migration_ssh]: step 3 of the [try] block, from the first
    attempt to enter the profile to the check of [in_cluster_context].
    Returns the value of [cluster_name] after the fallback. The flag
    [in_cluster_context] is assigned [True] where a marker is seen and
    is assigned nowhere else. *)
Definition prep_enter_profile (ip cluster_name : string) : M string :=
  output ← send_ssh_command ip ("lc-cluster group-profile " ++ cluster_name) 1;
  let in_cluster_context := Py.any_in profile_context_markers output in
  (if in_cluster_context then print MsgEnteredProfileContext else mret tt);;
  '(cluster_name, in_cluster_context) ←
    (if Py.contains "Error:" output || Py.contains "Invalid" output
        || negb in_cluster_context
     then
       choice ← input;
       if String.eqb choice "1" then
         _ ← send_ssh_command ip "exit" 1;
         output ← send_ssh_command ip "show lc-cluster group-membership" 1;
         match search_profile_name output with
         | Some found_cluster_name =>
             print (MsgFoundClusterName found_cluster_name);;
             use_found ← input;
             if Py.lower_is_y use_found then
               let cluster_name := found_cluster_name in
               _ ← send_ssh_command ip "configure terminal" 1;
               output ← send_ssh_command ip
                          ("lc-cluster group-profile " ++ cluster_name) 1;
               if Py.any_in profile_context_markers output then
                 print MsgEnteredProfileContext;; mret (cluster_name, true)
               else mret (cluster_name, in_cluster_context)
             else raise (Exception "User chose not to use found cluster name")
         | None =>
             print MsgClusterNameNotFound;;
             raise (Exception "Could not determine cluster name")
         end
       else if String.eqb choice "2" then
         cluster_name ← input;
         output ← send_ssh_command ip
                    ("lc-cluster group-profile " ++ cluster_name) 1;
         if Py.any_in profile_context_markers output then
           print MsgEnteredProfileContext;; mret (cluster_name, true)
         else mret (cluster_name, in_cluster_context)
       else raise (Exception "Operation aborted by user")
     else mret (cluster_name, in_cluster_context));
  if negb in_cluster_context then
    raise (Exception
      "Could not enter LC cluster configuration context after multiple attempts")
  else mret cluster_name.

(** [prep_migration_ssh]: steps 4 to 6 of the [try] block and the
    recording of the target. *)
Definition prep_disable_and_save (ip selected_nodepath cluster_name : string)
  : M unit :=
  _ ← send_ssh_command ip "no active-ap-lb" 1;
  print MsgLbDisabled;;
  _ ← send_ssh_command ip "no redundancy" 1;
  print MsgRedundancyDisabled;;
  _ ← send_ssh_command ip "exit" 1;
  _ ← send_ssh_command ip "exit" 1;
  _ ← send_ssh_command ip "write memory" 5;
  print MsgConfigurationSaved;;
  modify (with_prep_migration_target (Some (selected_nodepath, cluster_name)));;
  print (MsgPrepTargetSaved selected_nodepath cluster_name).

(** [prep_migration_ssh]: the [try] block. *)
Definition prep_steps (ip selected_nodepath cluster_name : string) : M unit :=
  print (MsgPrepTarget selected_nodepath cluster_name);;
  _ ← send_ssh_command ip ("change-config-node " ++ selected_nodepath) 1;
  _ ← send_ssh_command ip "configure terminal" 1;
  cluster_name ← prep_enter_profile ip cluster_name;
  prep_disable_and_save ip selected_nodepath cluster_name.

(** [prep_migration_ssh]: from the final confirmation on, for the chosen
    node path and cluster name. *)
Definition prep_session (ip selected_nodepath cluster_name : string) : M unit :=
  confirm ← input;
  if negb (Py.lower_is_y confirm) then print MsgOperationCancelled
  else
    ok ← ssh_to_mm ip;
    if negb ok then mret tt
    else
      try_except_finally
        (prep_steps ip selected_nodepath cluster_name)
        (fun e => print (MsgPrepError e))
        (close ip;; print MsgSshClosed).

(** [prep_migration_ssh(ip, username, password)]. *)
Definition prep_migration_ssh (ip : string) : M unit :=
  switches ← get stored_md_switches;
  match switches with
  | [] => print MsgNoMdControllers
  | _ =>
      selected_nodepath ← prep_select_nodepath switches;
      match selected_nodepath with
      | None => mret tt
      | Some selected_nodepath =>
          cluster_name ← prep_select_cluster selected_nodepath;
          match cluster_name with
          | None => mret tt
          | Some cluster_name => prep_session ip selected_nodepath cluster_name
          end
      end
  end.

(** [cleanup_ap_convert]: answer a confirmation prompt if the captured
    text has one. *)
Definition answer_prompt (ip output : string) (prompted quiet : message)
  : M unit :=
  if Py.contains confirmation_phrase output then
    print prompted;;
    _ ← send_ssh_command ip "y" 2;
    mret tt
  else print quiet.

(** [cleanup_ap_convert]: the body of the Phase 1 loop; the accumulator
    is [(success_count, failed_controllers)]. *)
Definition cleanup_on_controller (controller : controller)
    (acc : nat * list string) : M (nat * list string) :=
  let '(success_count, failed_controllers) := acc in
  ok ← ssh_to_mm (ip_address controller);
  if negb ok then
    print (MsgConnectFailed (name controller));;
    mret (success_count, (failed_controllers ++ [name controller])%list)
  else
    try_except_finally
      (output ← send_ssh_command (ip_address controller) "ap convert clear-all" 2;
       answer_prompt (ip_address controller) output
         MsgClearAllPrompt MsgClearAllNoConfirmation;;
       output ← send_ssh_command (ip_address controller) "ap convert cancel" 2;
       answer_prompt (ip_address controller) output
         MsgCancelPrompt MsgCancelNoConfirmation;;
       print (MsgCleanupCompleted (name controller));;
       mret (S success_count, failed_controllers))
      (fun e => print (MsgSessionError (name controller) e);;
                mret (success_count, (failed_controllers ++ [name controller])%list))
      (close (ip_address controller);; print (MsgClosed (name controller))).

(** [cleanup_ap_convert]: the restoration targets of Phase 2, with the
    lines that announce them. *)
Definition restoration_targets : M (list (string * string)) :=
  target ← get prep_migration_target;
  match target with
  | Some (target_nodepath, target_cluster) =>
      let clusters_info := [(target_cluster, target_nodepath)] in
      print (MsgRestoringSpecific target_cluster target_nodepath);;
      mret clusters_info
  | None =>
      let clusters_info := get_all_clusters_with_nodepaths db in
      (match clusters_info with
       | [] => mret tt
       | _ => print (MsgRestoringAll clusters_info)
       end);;
      mret clusters_info
  end.

(** [cleanup_ap_convert]: the body of the Phase 2 loop; the accumulator
    is [lc_restoration_success]. *)
Definition restore_cluster (mm_ip : string) (target : string * string)
    (lc_restoration_success : bool) : M bool :=
  let '(cluster_name, nodepath) := target in
  print (MsgRestoring cluster_name nodepath);;
  _ ← send_ssh_command mm_ip ("change-config-node " ++ nodepath) 1;
  _ ← send_ssh_command mm_ip "configure terminal" 1;
  output ← send_ssh_command mm_ip ("lc-cluster group-profile " ++ cluster_name) 1;
  (if Py.any_in profile_context_markers output
   then print MsgEnteredProfileContext
   else print MsgContextUnconfirmed);;
  lc_restoration_success ←
    try_except
      (redundancy_output ← send_ssh_command mm_ip "redundancy" 1;
       (if negb (Py.contains "Error" redundancy_output)
           && negb (Py.contains "Invalid" redundancy_output)
        then print MsgRedundancyEnabled
        else print (MsgRedundancyOutput redundancy_output));;
       aplb_output ← send_ssh_command mm_ip "active-ap-lb" 1;
       (if negb (Py.contains "Error" aplb_output)
           && negb (Py.contains "Invalid" aplb_output)
        then print MsgLbEnabled
        else print (MsgLbOutput aplb_output));;
       mret true)
      (fun config_error =>
         print (MsgConfigError config_error);; mret lc_restoration_success);
  _ ← send_ssh_command mm_ip "exit" 1;
  _ ← send_ssh_command mm_ip "exit" 1;
  _ ← send_ssh_command mm_ip "write memory" 5;
  print (MsgSavedForNodepath nodepath);;
  print (MsgClusterProcessed cluster_name lc_restoration_success);;
  mret lc_restoration_success.

(** [cleanup_ap_convert]: Phase 2 for the targets found. *)
Definition restore_lc_clusters (mm_ip : string)
    (clusters_info : list (string * string)) : M unit :=
  match clusters_info with
  | [] => print MsgNoClusterInfoSkipping
  | _ =>
      ok ← ssh_to_mm mm_ip;
      if negb ok then print MsgConductorConnectFailed
      else
        try_except_finally
          (_ ← for_each (restore_cluster mm_ip) clusters_info false;
           print MsgFinalSave;;
           _ ← send_ssh_command mm_ip "write memory" 5;
           mret tt)
          (fun e => print (MsgConductorError e))
          (close mm_ip;; print MsgConductorClosed)
  end.

(** [cleanup_ap_convert]: the summary printed after both phases. It
    reads [prep_migration_target] after the clearing step. *)
Definition cleanup_summary (total success_count : nat)
    (failed_controllers : list string)
    (clusters_info : list (string * string)) : M unit :=
  print (MsgSummaryTotal total);;
  print (MsgSummarySuccessful success_count);;
  print (MsgSummaryFailed (length failed_controllers));;
  target ← get prep_migration_target;
  (match clusters_info, target with
   | [], _ => mret tt
   | _, Some (_, target_cluster) => print (MsgRestoredTargeted target_cluster)
   | _, None => print (MsgProcessedFull (map fst clusters_info))
   end);;
  (match failed_controllers with
   | [] => mret tt
   | _ => print (MsgFailedControllers failed_controllers)
   end);;
  if bool_decide (0 < success_count)%nat then
    print (MsgCleanupSucceeded success_count
             (match clusters_info with
              | [] => None
              | _ => Some (bool_decide (is_Some target))
              end))
  else print MsgNoneProcessed.

(** [cleanup_ap_convert]: everything after the operator's confirmation:
    Phase 1, Phase 2, the clearing of the selections and the summary. *)
Definition cleanup_phases (mm_ip : string) (controllers : list controller)
  : M bool :=
  '(success_count, failed_controllers) ←
    for_each cleanup_on_controller controllers (0%nat, []);
  clusters_info ← restoration_targets;
  restore_lc_clusters mm_ip clusters_info;;
  (if bool_decide (0 < success_count)%nat then
     modify (with_selected_ap_groups []);;
     modify (with_prep_migration_target None);;
     print MsgSelectionsCleared
   else mret tt);;
  cleanup_summary (length controllers) success_count
    failed_controllers clusters_info;;
  mret (bool_decide (0 < success_count)%nat).

(** [cleanup_ap_convert(mc_username, mc_password, mm_ip, mm_username,
    mm_password)]. *)
Definition cleanup_ap_convert (mm_ip : string) : M bool :=
  let controllers := get_all_controllers db in
  match controllers with
  | [] => print MsgNoControllersInDatabase;; mret false
  | _ =>
      target ← get prep_migration_target;
      (match target with
       | Some (target_nodepath, target_cluster) =>
           print (MsgRestorationTarget target_nodepath target_cluster)
       | None => print MsgNoPrepTargetRestoreAll
       end);;
      selected_groups ← get selected_ap_groups;
      (match selected_groups with
       | [] => mret tt
       | _ => print (MsgWillClearGroups selected_groups)
       end);;
      confirm ← input;
      if negb (Py.lower_is_y confirm) then
        print MsgCleanupCancelled;; mret false
      else cleanup_phases mm_ip controllers
  end.

End Workflows.

(** *** Vocabulary of the workflows' properties *)

(** The events a run added to the trace. *)
Definition new_events (st st' : state) : list event :=
  drop (length (trace st)) (trace st').

(** The calls of [send_ssh_command] among some events: shell, line sent,
    captured text. *)
Definition commands (l : list event) : list (string * string * option string) :=
  omap (fun e => match e with
                 | Command ip command _ output => Some (ip, command, output)
                 | _ => None
                 end) l.
(** The lines printed among some events. *)
Definition printed (l : list event) : list message :=
  omap (fun e => match e with Print m => Some m | _ => None end) l.

(** The module's global variables that a workflow may assign. *)
Definition globals (st : state)
  : option string * list string * option (string * string) :=
  (selected_cluster st, selected_ap_groups st, prep_migration_target st).

Definition globals_type : Type :=
  option string * list string * option (string * string).

(** [st'] is [st] after more of the script was consumed, events [l] were
    added and the assignable globals went from [g] to [g'], with
    [P g g' l]. *)
Definition advances (P : globals_type -> globals_type -> list event -> Prop)
    (st st' : state) : Prop :=
  stored_md_switches st' = stored_md_switches st
  /\ exists l, trace st' = (trace st ++ l)%list
               /\ P (globals st) (globals st') l.

(** A property of steps kept by doing nothing and by sequencing. *)
Class Closed (P : globals_type -> globals_type -> list event -> Prop) : Prop := {
  closed_nil : forall g, P g g [];
  closed_app : forall g1 g2 g3 l1 l2,
    P g1 g2 l1 -> P g2 g3 l2 -> P g1 g3 (l1 ++ l2)%list
}.

(** Every run of [m] advances the state. *)
Definition keeps {A} (I : relation state) (m : M A) : Prop :=
  forall st, I st (m st).2.

(** The text captured for a command holds the confirmation prompt. *)
Definition is_prompt (output : option string) : bool :=
  match output with
  | Some text => Py.contains confirmation_phrase text
  | None => false
  end.

Definition is_cleanup_command (command : string) : bool :=
  String.eqb command "ap convert clear-all"
  || String.eqb command "ap convert cancel".

(** Over the commands in order: a ["y"] is sent exactly after each
    clear-all or cancel whose captured text holds the prompt, on the same
    shell, and nowhere else. [pending] is the shell that awaits its
    answer. *)
Fixpoint answered_once (pending : option string)
    (l : list (string * string * option string)) : bool :=
  match l with
  | [] => match pending with None => true | Some _ => false end
  | (ip, command, output) :: rest =>
      match pending with
      | Some asking =>
          String.eqb command "y" && String.eqb ip asking
          && answered_once None rest
      | None =>
          negb (String.eqb command "y")
          && answered_once
               (if is_cleanup_command command && is_prompt output
                then Some ip else None) rest
      end
  end.

(** The controllers whose Phase 1 cleanup was reported complete. *)
Definition completed_names (l : list event) : list string :=
  omap (fun e => match e with
                 | Print (MsgCleanupCompleted name) => Some name
                 | _ => None
                 end) l.

(** The globals are left as they were and the added events satisfy [P]. *)
Definition unchanged (P : list event -> Prop)
  : globals_type -> globals_type -> list event -> Prop :=
  fun g g' l => g' = g /\ P l.

(** A property of event lists kept by concatenation. *)
Class ClosedEvents (P : list event -> Prop) : Prop := {
  events_nil : P [];
  events_app : forall l1 l2, P l1 -> P l2 -> P (l1 ++ l2)%list
}.

(** Every prompt among the events is answered once. *)
Definition answered (l : list event) : Prop :=
  answered_once None (commands l) = true.

(** [Post] holds of the outcome and final state of [m] run from [st]. *)
Definition wp {A} (m : M A) (Post : outcome A -> state -> Prop) (st : state)
  : Prop :=
  Post (m st).1 (m st).2.

(** Nothing in [l] reports a Phase 1 cleanup as complete, and every prompt
    in it is answered once. *)
Definition quiet (l : list event) : Prop :=
  answered l /\ completed_names l = [].

(** The restoration targets of Phase 2 for a value of
    [prep_migration_target]. *)
Definition targets_for (db : database) (target : option (string * string))
  : list (string * string) :=
  match target with
  | Some (target_nodepath, target_cluster) => [(target_cluster, target_nodepath)]
  | None => get_all_clusters_with_nodepaths db
  end.

(** The line that announces the restoration targets. *)
Definition announcement (db : database) (target : option (string * string))
  : option message :=
  match target with
  | Some (target_nodepath, target_cluster) =>
      Some (MsgRestoringSpecific target_cluster target_nodepath)
  | None =>
      match get_all_clusters_with_nodepaths db with
      | [] => None
      | clusters_info => Some (MsgRestoringAll clusters_info)
      end
  end.

(** The (cluster, node path) pairs whose restoration Phase 2 started, in
    order. *)
Definition restoring (l : list event) : list (string * string) :=
  omap (fun e => match e with
                 | Print (MsgRestoring cluster nodepath) => Some (cluster, nodepath)
                 | _ => None
                 end) l.

(** The announcement of the final save of Phase 2. *)
Definition is_final_save (e : event) : bool :=
  match e with
  | Print MsgFinalSave => true
  | _ => false
  end.

(** An event that is neither the start of a restoration nor the final
    save of Phase 2. *)
Definition outside_phase2 (e : event) : bool :=
  match e with
  | Print (MsgRestoring _ _) | Print MsgFinalSave => false
  | _ => true
  end.

(** What a run of [cleanup_ap_convert] that went past the operator's
    confirmation did: [l] are the events it added, [failed] the names of
    the controllers whose Phase 1 cleanup failed. *)
Record cleanup_ran (db : database) (st : state) (o : outcome bool)
    (st' : state) (l : list event) (failed : list string) : Prop := {
  ran_outcome : o = Ret (bool_decide (0 < length (completed_names l))%nat);
  ran_partition :
    (length (completed_names l) + length failed)%nat
    = length (get_all_controllers db);
  ran_completed :
    completed_names l `sublist_of` map name (get_all_controllers db);
  ran_failed : failed `sublist_of` map name (get_all_controllers db);
  ran_restoring :
    restoring l `prefix_of` targets_for db (prep_migration_target st);
  ran_restored_all :
    MsgFinalSave ∈ printed l ->
    restoring l = targets_for db (prep_migration_target st);
  ran_announced :
    forall m, announcement db (prep_migration_target st) = Some m ->
              m ∈ printed l;
  ran_warned :
    prep_migration_target st = None -> MsgNoPrepTargetRestoreAll ∈ printed l;
  ran_total : MsgSummaryTotal (length (get_all_controllers db)) ∈ printed l;
  ran_successful :
    MsgSummarySuccessful (length (completed_names l)) ∈ printed l;
  ran_failed_count : MsgSummaryFailed (length failed) ∈ printed l;
  ran_failed_names :
    failed <> [] -> MsgFailedControllers failed ∈ printed l;
  ran_globals :
    if bool_decide (0 < length (completed_names l))%nat
    then selected_ap_groups st' = [] /\ prep_migration_target st' = None
    else selected_ap_groups st' = selected_ap_groups st
         /\ prep_migration_target st' = prep_migration_target st
}.

(** What a run of [cleanup_ap_convert] that stopped before Phase 1 did. *)
Record cleanup_declined (db : database) (st : state) (o : outcome bool) (st' : state)
    (l : list event) : Prop := {
  declined_outcome : o = Ret false \/ o = Exc EOFError;
  declined_reason :
    get_all_controllers db = []
    \/ inputs st = []
    \/ exists line rest,
         inputs st = line :: rest /\ Py.lower_is_y line = false;
  declined_commands : commands l = [];
  declined_completed : completed_names l = [];
  declined_groups : selected_ap_groups st' = selected_ap_groups st;
  declined_target : prep_migration_target st' = prep_migration_target st
}.

(** A command of Phase 1 on the shell of [ip]. *)
Definition phase1_command (ip : string) (c : string * string * option string) : Prop :=
  c.1.1 = ip /\ (c.1.2 = "ap convert clear-all" \/ c.1.2 = "ap convert cancel"
                 \/ c.1.2 = "y").

(** One entry per controller on which the convert command was activated. *)
Definition activated (l : list event) : list unit :=
  omap (fun e => match e with
                 | Print MsgActivated => Some tt
                 | _ => None
                 end) l.

(** The controllers on which an AP group was reported added. *)
Definition added_on (l : list event) : list string :=
  omap (fun e => match e with
                 | Print (MsgGroupAddedOn name) => Some name
                 | _ => None
                 end) l.

(** What a run of [execute_ap_convert_init] that reached its host loop
    did. *)
Record init_ran (db : database) (st : state) (o : outcome bool)
    (l : list event) : Prop := {
  init_cluster :
    exists cluster, truthy (selected_cluster st) = Some cluster
      /\ (length (activated l)
          <= length (get_controllers_by_cluster db cluster))%nat
      /\ last l = Some (Print (MsgInitSummary (length (activated l))
                         (length (get_controllers_by_cluster db cluster))));
  init_outcome : o = Ret (bool_decide (0 < length (activated l))%nat)
}.

(** What a run of [select_and_add_ap_group] that reached its host loop
    did, for the group chosen. *)
Record add_ran (db : database) (st : state) (o : outcome bool)
    (st' : state) (l : list event) (group : string) : Prop := {
  add_cluster :
    exists cluster, truthy (selected_cluster st) = Some cluster
      /\ group ∈ available_groups db (get_controllers_by_cluster db cluster)
                   (selected_ap_groups st)
      /\ added_on l `sublist_of`
           map name (get_controllers_by_cluster db cluster)
      /\ last l = Some (Print (MsgAddSummary group (length (added_on l))
                         (length (get_controllers_by_cluster db cluster))));
  add_outcome : o = Ret (bool_decide (0 < length (added_on l))%nat);
  add_groups :
    selected_ap_groups st'
    = if bool_decide (0 < length (added_on l))%nat
      then (selected_ap_groups st ++ [group])%list
      else selected_ap_groups st
}.

(** Over the commands in order: every ["no redundancy"] comes right after
    a ["no active-ap-lb"] that returned. [after_lb] tells whether the
    previous command was one. *)
Fixpoint redundancy_follows_lb (after_lb : bool)
    (l : list (string * string * option string)) : bool :=
  match l with
  | [] => true
  | (_, command, output) :: rest =>
      (if String.eqb command "no redundancy" then after_lb else true)
      && redundancy_follows_lb
           (String.eqb command "no active-ap-lb" && bool_decide (is_Some output))
           rest
  end.

(** The commands among the events keep that order. *)
Definition lb_first (l : list event) : Prop :=
  redundancy_follows_lb false (commands l) = true.

(** A step of [prep_migration_ssh]: the selected cluster and the AP-group
    list stay, and the commands keep the order above. *)
Definition prep_step : globals_type -> globals_type -> list event -> Prop :=
  fun g g' l => g'.1.1 = g.1.1 /\ g'.1.2 = g.1.2 /\ lb_first l.

(** An event that reaches no device: a line printed or typed. *)
Definition is_local (e : event) : bool :=
  match e with
  | Print _ | Input _ => true
  | _ => false
  end.

(** Among the events, a command that enters a cluster profile captured a
    text with a context marker. *)
Definition marker_seen (l : list event) : Prop :=
  exists shell cluster_name output,
    (shell, "lc-cluster group-profile " ++ cluster_name, Some output)
      ∈ commands l
    /\ Py.any_in profile_context_markers output = true.

(** Among the events, a save of the configuration that returned. *)
Definition saved (l : list event) : Prop :=
  exists shell output, (shell, "write memory", Some output) ∈ commands l.

(** Over the events in order: a connection that succeeds opens a session
    when none is open, every command goes to the host of the open
    session, a close ends the open session of that host, and no session
    is open at the end. [open] is the host of the open session. *)
Fixpoint sessions (open : option string) (l : list event) : bool :=
  match l with
  | [] => match open with None => true | Some _ => false end
  | Connect ip ok :: rest =>
      match open with
      | None => sessions (if ok then Some ip else None) rest
      | Some _ => false
      end
  | Command ip _ _ _ :: rest =>
      match open with
      | Some host => String.eqb ip host && sessions open rest
      | None => false
      end
  | Close ip :: rest =>
      match open with
      | Some host => String.eqb ip host && sessions None rest
      | None => false
      end
  | _ :: rest => sessions open rest
  end.

(** An event inside the session of [host]: a command to it, or a line
    printed or typed. *)
Definition in_session (host : string) (e : event) : bool :=
  match e with
  | Command ip _ _ _ => String.eqb ip host
  | Connect _ _ | Close _ => false
  | _ => true
  end.

(** The events added keep the sessions well formed. *)
Definition well_sessioned : globals_type -> globals_type -> list event -> Prop :=
  fun _ _ l => sessions None l = true.

(** The events added stay inside the session of [host]. *)
Definition within_session (host : string)
  : globals_type -> globals_type -> list event -> Prop :=
  fun _ _ l => forallb (in_session host) l = true.

(** A command that enters a cluster profile and captured a text with a
    context marker. *)
Definition confirms_profile (c : string * string * option string) : bool :=
  match c with
  | (_, command, Some text) =>
      String.prefix "lc-cluster group-profile " command
      && Py.any_in profile_context_markers text
  | _ => false
  end.

(** Over the commands in order: every ["no active-ap-lb"] comes after a
    command that confirmed the profile context. [confirmed] tells whether
    one was seen. *)
Fixpoint lb_follows_marker (confirmed : bool)
    (l : list (string * string * option string)) : bool :=
  match l with
  | [] => true
  | c :: rest =>
      (if String.eqb c.1.2 "no active-ap-lb" then confirmed else true)
      && lb_follows_marker (confirmed || confirms_profile c) rest
  end.

(** The commands among the events keep that order. *)
Definition lb_guarded (l : list event) : Prop :=
  lb_follows_marker false (commands l) = true.

(** A step in which load balancing is disabled only after the profile
    context was confirmed. *)
Definition guarded_step : globals_type -> globals_type -> list event -> Prop :=
  fun _ _ l => lb_guarded l.

(** An event that does not disable load balancing. *)
Definition not_lb (e : event) : bool :=
  match e with
  | Command _ command _ _ => negb (String.eqb command "no active-ap-lb")
  | _ => true
  end.

End Orchestration.

(** ** Example contents of the database *)

Module DirectoryExamples.

Import FleetDirectory.

(** Two controllers at one node path, the first in cluster DC-East, the
    second with an unparsed cluster name. *)
Definition two_controllers : database :=
  {| controllers :=
       [ mk_controller 1 "10.0.0.1" "mc-1" "/md/site-a";
         mk_controller 2 "10.0.0.2" "mc-2" "/md/site-a" ];
     lc_clusters := [ mk_lc_cluster 1 (Some "DC-East");
                      mk_lc_cluster 2 (Some "Unknown") ];
     ap_groups := [ mk_ap_group 1 "lobby"; mk_ap_group 2 "lobby" ] |}.

Definition two_controllers_store : store :=
  {| tables := two_controllers; controllers_seq := 2 |}.

End DirectoryExamples.

(** ** Example runs of the monitor *)

Module MonitorExamples.

Import FleetDirectory Monitor.

Definition mc1 := mk_controller 1 "10.0.0.1" "mc-1" "/md/site".
Definition ap1 := mk_converting_ap "ap-101" "aa:bb:cc:00:00:01" "Converting" "In Progress".
Definition active_summary (n : Z) := mk_summary "Active" "specific-aps" n 20 "Mon Nov 2" "Running" ["lobby"].
Definition cycle_1 := mk_cycle 100 [Some ([ap1], active_summary 1)].
Definition cycle_2 := mk_cycle 110 [Some ([], active_summary 0)].
Definition after_cycle_1 := (monitor_loop [mc1] [cycle_1] initial_state).2.
Definition after_cycle_2 := (monitor_cycle [mc1] cycle_2 after_cycle_1).2.

Definition tracked_once : gmap string entry :=
  match track_conversion_progress "mc-1" (active_summary 3) ∅ with
  | inr (_, aps) => aps
  | inl _ => ∅
  end.
Definition tracked_twice : controller_data * gmap string entry :=
  match track_conversion_progress "mc-1" (active_summary 1) tracked_once with
  | inr r => r
  | inl _ => (new_controller_data, ∅)
  end.

(** Two controllers that report the same host name, the first with five
    APs converting in every cycle and the second with none. *)
Definition twin_a := mk_controller 1 "10.0.0.1" "mc" "/md/site".
Definition twin_b := mk_controller 2 "10.0.0.2" "mc" "/md/site".
Definition twin_cycle (t : time) :=
  mk_cycle t [Some ([], active_summary 5); Some ([], active_summary 0)].


(** A controller that reports an AP under the controller's own name. *)
Definition ap_named_mc1 :=
  mk_converting_ap "mc-1" "aa:bb:cc:00:00:02" "Converting" "In Progress".

Definition cycle_with_clash :=
  mk_cycle 100 [Some ([ap_named_mc1], active_summary 1)].

(** The state after a controller named mc-9 reported that AP. *)
Definition mc9 := mk_controller 9 "10.0.0.9" "mc-9" "/md/site".
Definition after_clash_elsewhere :=
  (monitor_loop [mc9] [cycle_with_clash] initial_state).2.

(** The dict of mc-1 after [tracked_once]. *)
Definition started_mc1 : controller_data :=
  match tracked_once !! "mc-1" with
  | Some (ControllerEntry c) => c
  | _ => new_controller_data
  end.

End MonitorExamples.

(** ** Example runs of the workflows *)

Module OrchestrationExamples.

Import FleetDirectory Orchestration.

(** [int(s)] on a string of ASCII digits. [int] accepts more (a sign,
    surrounding blanks, underscores between digits); the runs below type
    digits only. *)
Fixpoint digits (s : string) (acc : Z) : option Z :=
  match s with
  | EmptyString => Some acc
  | String a rest =>
      let d := Z.of_N (Ascii.N_of_ascii a) - 48 in
      if ((0 <=? d)%Z && (d <=? 9)%Z)%bool then digits rest (10 * acc + d) else None
  end.

Definition int_of_digits (s : string) : option Z :=
  match s with
  | EmptyString => None
  | _ => digits s 0
  end.

(** [re.search] on outputs that hold no ["Profile Name = "] line. *)
Definition no_profile_name (output : string) : option string := None.

(** Two controllers of one cluster at one node path, with their AP
    groups. *)
Definition fleet : database :=
  {| controllers :=
       [ mk_controller 1 "10.0.0.1" "mc-1" "/md/site-a";
         mk_controller 2 "10.0.0.2" "mc-2" "/md/site-a" ];
     lc_clusters := [ mk_lc_cluster 1 (Some "DC-East");
                      mk_lc_cluster 2 (Some "DC-East") ];
     FleetDirectory.ap_groups :=
       [ mk_ap_group 1 "lobby"; mk_ap_group 2 "lobby";
         mk_ap_group 1 "warehouse" ] |}.

Definition conductor : string := "10.0.0.10".

Definition discovered : list md_switch :=
  [ mk_md_switch "10.0.0.1" "mc-1" "/md/site-a" "A7210" "8.10.0.0";
    mk_md_switch "10.0.0.2" "mc-2" "/md/site-a" "A7210" "8.10.0.0" ].

(** A session at its start: nothing selected, nothing printed. *)
Definition script (connects : list bool) (responses : list (option string))
    (inputs : list string) : state :=
  {| connects := connects; responses := responses; inputs := inputs;
     stored_md_switches := discovered;
     selected_cluster := None; selected_ap_groups := [];
     prep_migration_target := None; trace := [] |}.

(** Prepare for migration: the operator accepts the node path, the
    cluster and the final confirmation; the conductor enters the profile
    of DC-East and shows a marker. *)
Definition plain_prep : state :=
  script [true]
    [Some ""; Some ""; Some "(mm) [site-a] (Classic Controller Cluster Profile) #"]
    ["y"; "y"; "y"].

(** Prepare for migration: the conductor enters the profile of DC-East (a
    marker is shown) in a text that also holds the word Invalid; the
    operator then tries the name DC-West, which the conductor rejects. *)
Definition fallback_prep : state :=
  script [true]
    [Some ""; Some "";
     Some "Invalid license warning (mm) [site-a] (Classic Controller Cluster Profile) #";
     Some "% Invalid input detected"]
    ["y"; "y"; "y"; "2"; "DC-West"].

(** A session in which DC-East is selected, with the groups given. *)
Definition selected (groups : list string) (target : option (string * string))
    (connects : list bool) (responses : list (option string))
    (inputs : list string) : state :=
  {| connects := connects; responses := responses; inputs := inputs;
     stored_md_switches := discovered;
     selected_cluster := Some "DC-East"; selected_ap_groups := groups;
     prep_migration_target := target; trace := [] |}.

Definition prompt : string :=
  "WARNING: this converts the APs. Do you want to proceed with the operation? [y/n]:".



(** AP-group add: the operator picks the first group offered and
    confirms; mc-1 accepts the command, mc-2 refuses the connection. *)
Definition add_warehouse : state :=
  selected ["lobby"] None [true; false] [Some ""] ["1"; "y"].

(** Cleanup: the operator confirms; mc-1 prompts twice, mc-2 refuses the
    connection, and so does the conductor. *)
Definition cleanup_conductor_down : state :=
  selected ["lobby"] (Some ("/md/site-a", "DC-East")) [true; false; false]
    [Some prompt; Some ""; Some prompt; Some ""] ["y"].

(** Cleanup of a targeted preparation: everything answers. *)
Definition cleanup_targeted : state :=
  selected ["lobby"] (Some ("/md/site-a", "DC-East")) [true; true; true]
    [] ["y"].


(** A conductor that rejects the profile and both enabling commands. *)
Definition rejecting_conductor : state :=
  selected [] (Some ("/md/site-a", "DC-East")) []
    [Some ""; Some ""; Some "% Invalid input detected";
     Some "% Invalid input detected"; Some "% Invalid input detected";
     Some ""; Some ""; Some "Configuration Saved."] [].

(** The operator answers n to the cleanup. *)
Definition cleanup_refused : state :=
  selected ["lobby"] (Some ("/md/site-a", "DC-East")) [true; true; true]
    [] ["n"].

End OrchestrationExamples.

(** * Properties of the fleet directory *)

Module DirectoryProperties.

Import FleetDirectory DirectoryExamples.

Section Distinct.

Context {A : Type} `{EqDecision A}.

Lemma elem_of_distinct (l : list A) (x : A) : x ∈ distinct l <-> x ∈ l.
Proof.
  induction l as [|y l IH]; simpl; [done|].
  rewrite !elem_of_cons, list_elem_of_filter, IH.
  destruct (decide (x = y)); tauto.
Qed.

Lemma NoDup_distinct (l : list A) : NoDup (distinct l).
Proof.
  induction l as [|y l IH]; simpl; [apply NoDup_nil_2|].
  apply NoDup_cons. split.
  - rewrite list_elem_of_filter. tauto.
  - by apply NoDup_filter.
Qed.

End Distinct.

Lemma known_cluster_Some c n :
  known_cluster c = Some n <-> c = Some n /\ n <> "Unknown".
Proof.
  unfold known_cluster. destruct c as [m|]; [|split; [done|by intros []]].
  destruct (String.eqb_spec m "Unknown") as [->|Hne].
  - split; [done|]. intros [[= <-] ?]. done.
  - split; [by intros [= <-]|]. by intros [[= <-] _].
Qed.

Lemma elem_of_get_available_clusters db n :
  n ∈ get_available_clusters db
  <-> n <> "Unknown"
      /\ exists lc, lc ∈ lc_clusters db /\ cluster_name lc = Some n.
Proof.
  unfold get_available_clusters.
  rewrite elem_of_distinct, list_elem_of_omap. split.
  - intros (lc & Hin & [Hc Hne]%known_cluster_Some). eauto.
  - intros (Hne & lc & Hin & Hc). exists lc. split; [done|].
    by apply known_cluster_Some.
Qed.

Lemma elem_of_get_clusters_for_nodepath db np n :
  n ∈ get_clusters_for_nodepath db np
  <-> n <> "Unknown"
      /\ exists lc c,
           lc ∈ lc_clusters db /\ c ∈ controllers db
           /\ controller_id lc = id c /\ nodepath c = np
           /\ cluster_name lc = Some n.
Proof.
  unfold get_clusters_for_nodepath.
  set (ids := omap _ (controllers db)).
  assert (Hids : forall i, i ∈ ids
                 <-> exists c, c ∈ controllers db /\ nodepath c = np /\ id c = i).
  { intros i. unfold ids. rewrite list_elem_of_omap. split.
    - intros (c & Hin & Hc). destruct (decide (nodepath c = np)); [|done].
      injection Hc as <-. eauto.
    - intros (c & Hin & Hnp & <-). exists c. split; [done|].
      by rewrite decide_True. }
  assert (Hmain : n ∈ distinct
                    (omap (fun lc => if decide (controller_id lc ∈ ids)
                                     then known_cluster (cluster_name lc)
                                     else None) (lc_clusters db))
                  <-> n <> "Unknown"
                      /\ exists lc c,
                           lc ∈ lc_clusters db /\ c ∈ controllers db
                           /\ controller_id lc = id c /\ nodepath c = np
                           /\ cluster_name lc = Some n).
  { rewrite elem_of_distinct, list_elem_of_omap. split.
    - intros (lc & Hin & Hc).
      destruct (decide (controller_id lc ∈ ids)) as [Hid|]; [|done].
      apply known_cluster_Some in Hc as [Hc Hne].
      apply Hids in Hid as (c & Hcin & Hnp & Hid). split; [done|].
      exists lc, c. done.
    - intros (Hne & lc & c & Hin & Hcin & Hid & Hnp & Hc). exists lc.
      split; [done|]. rewrite decide_True.
      + by apply known_cluster_Some.
      + apply Hids. eauto. }
  destruct ids as [|i ids'] eqn:E; [|exact Hmain].
  split; [by intros ?%elem_of_nil|].
  intros (_ & lc & c & _ & Hcin & Hid & Hnp & _).
  assert (Hi : id c ∈ @nil Z) by (apply Hids; eauto).
  by apply elem_of_nil in Hi.
Qed.

Lemma elem_of_get_all_clusters_with_nodepaths db n np :
  (n, np) ∈ get_all_clusters_with_nodepaths db
  <-> n <> "Unknown"
      /\ exists lc c,
           lc ∈ lc_clusters db /\ c ∈ controllers db
           /\ controller_id lc = id c /\ nodepath c = np
           /\ cluster_name lc = Some n.
Proof.
  unfold get_all_clusters_with_nodepaths.
  rewrite elem_of_distinct, list_elem_of_bind. split.
  - intros (lc & Hx & Hin).
    destruct (known_cluster (cluster_name lc)) as [m|] eqn:Hk;
      [|by apply elem_of_nil in Hx].
    apply list_elem_of_bind in Hx as (c & Hx & Hcin).
    destruct (decide (controller_id lc = id c)); [|by apply elem_of_nil in Hx].
    apply list_elem_of_singleton in Hx. injection Hx as -> ->.
    apply known_cluster_Some in Hk as [Hc Hne]. split; [done|].
    exists lc, c. done.
  - intros (Hne & lc & c & Hin & Hcin & Hid & Hnp & Hc). exists lc.
    split; [|done].
    assert (Hk : known_cluster (cluster_name lc) = Some n)
      by by apply known_cluster_Some.
    rewrite Hk. apply list_elem_of_bind. exists c. split; [|done].
    rewrite decide_True by done. subst np. apply list_elem_of_here.
Qed.

(** The pairs that [get_all_clusters_with_nodepaths] returns are those of a
    node path and a cluster that [get_clusters_for_nodepath] returns for
    that node path: restoring every pair restores, for each node path, the
    clusters that prepare-for-migration offers for it. Neither query
    returns a pair or a name twice. *)
Theorem all_clusters_are_the_clusters_of_each_nodepath db :
  (forall cluster nodepath,
      (cluster, nodepath) ∈ get_all_clusters_with_nodepaths db
      <-> cluster ∈ get_clusters_for_nodepath db nodepath)
  /\ NoDup (get_all_clusters_with_nodepaths db)
  /\ forall nodepath, NoDup (get_clusters_for_nodepath db nodepath).
Proof.
  split; [|split].
  - intros n np.
    by rewrite elem_of_get_all_clusters_with_nodepaths,
      elem_of_get_clusters_for_nodepath.
  - apply NoDup_distinct.
  - intros np. unfold get_clusters_for_nodepath.
    destruct (omap _ (controllers db)); [apply NoDup_nil_2|apply NoDup_distinct].
Qed.

(** The clusters offered for selection have no repeated name and never the
    name Unknown, which the discovery stores for a controller whose cluster
    it could not read; every cluster of a node path, and every cluster of
    a restoration pair, is among them. *)
Theorem available_clusters_are_known_and_distinct db :
  NoDup (get_available_clusters db)
  /\ ("Unknown" ∉ get_available_clusters db)
  /\ (forall nodepath cluster,
        cluster ∈ get_clusters_for_nodepath db nodepath ->
        cluster ∈ get_available_clusters db)
  /\ (forall cluster nodepath,
        (cluster, nodepath) ∈ get_all_clusters_with_nodepaths db ->
        cluster ∈ get_available_clusters db).
Proof.
  split; [apply NoDup_distinct|]. split; [|split].
  - rewrite elem_of_get_available_clusters. by intros [? _].
  - intros np n. rewrite elem_of_get_clusters_for_nodepath,
      elem_of_get_available_clusters.
    intros (Hne & lc & c & Hin & _ & _ & _ & Hc). eauto.
  - intros n np. rewrite elem_of_get_all_clusters_with_nodepaths,
      elem_of_get_available_clusters.
    intros (Hne & lc & c & Hin & _ & _ & _ & Hc). eauto.
Qed.

Lemma elem_of_get_controllers_by_cluster db cluster c :
  c ∈ get_controllers_by_cluster db cluster
  <-> c ∈ controllers db
      /\ exists lc, lc ∈ lc_clusters db /\ cluster_name lc = Some cluster
                    /\ controller_id lc = id c.
Proof.
  unfold get_controllers_by_cluster. rewrite list_elem_of_filter.
  rewrite list_elem_of_omap. split.
  - intros [(lc & Hin & Hc) Hcin]. split; [done|]. exists lc.
    destruct (decide (cluster_name lc = Some cluster)); [|done].
    injection Hc as Hc. done.
  - intros [Hcin (lc & Hin & Hc & Hid)]. split; [|done]. exists lc.
    split; [done|]. rewrite decide_True by done. by rewrite Hid.
Qed.

(** The controllers of a cluster are rows of the controllers table, in the
    table's order, each with a cluster row of that name; a cluster offered
    for selection has a controller unless its cluster rows point at no
    controller. *)
Theorem controllers_of_cluster_are_controllers db cluster :
  get_controllers_by_cluster db cluster `sublist_of` get_all_controllers db
  /\ (forall c,
        c ∈ get_controllers_by_cluster db cluster
        <-> c ∈ get_all_controllers db
            /\ exists lc, lc ∈ lc_clusters db
                          /\ cluster_name lc = Some cluster
                          /\ controller_id lc = id c)
  /\ (get_controllers_by_cluster db cluster = [] ->
      forall lc c, lc ∈ lc_clusters db -> cluster_name lc = Some cluster ->
                   c ∈ get_all_controllers db -> controller_id lc <> id c).
Proof.
  split; [apply sublist_filter|]. split.
  - intros c. apply elem_of_get_controllers_by_cluster.
  - intros Hnil lc c Hin Hc Hcin Hid.
    assert (Hmem : c ∈ get_controllers_by_cluster db cluster).
    { apply elem_of_get_controllers_by_cluster. eauto. }
    rewrite Hnil in Hmem. by apply elem_of_nil in Hmem.
Qed.

Lemma omap_filter_none {A B} (f : A -> option B) (P : A -> Prop)
    `{forall x, Decision (P x)} (l : list A) :
  (forall x, P x -> f x = None) -> omap f (filter P l) = [].
Proof.
  intros Hf. induction l as [|x l IH]; [done|].
  rewrite filter_cons. destruct (decide (P x)) as [HP|]; [|done].
  simpl. by rewrite (Hf x HP).
Qed.

Lemma omap_filter_keep {A B} (f : A -> option B) (P : A -> Prop)
    `{forall x, Decision (P x)} (l : list A) :
  (forall x, ~ P x -> f x = None) -> omap f (filter P l) = omap f l.
Proof.
  intros Hf. induction l as [|x l IH]; [done|].
  rewrite filter_cons. destruct (decide (P x)) as [HP|HP]; simpl.
  - destruct (f x); [f_equal|]; apply IH.
  - rewrite (Hf x HP). apply IH.
Qed.

Lemma read_back_stored_groups cid other (l : list (option string)) :
  omap (fun g => if decide (group_controller_id g = other)
                 then Some (group_name g) else None)
       (map (fun group => {| group_controller_id := cid;
                             group_name := default "Unknown" group |}) l)
  = if decide (cid = other) then map (default "Unknown") l else [].
Proof.
  induction l as [|g l IH]; simpl.
  - by destruct (decide _).
  - destruct (decide (cid = other)) as [Heq|Hne]; simpl.
    + f_equal. exact IH.
    + exact IH.
Qed.

(** What [store_ap_groups] stores for a controller is what
    [get_ap_groups_for_controller] reads back for it, in order, with
    Unknown for an element without a name; the groups read for any other
    controller are as before. *)
Theorem stored_ap_groups_are_read_back controller_id ap_group_list db :
  get_ap_groups_for_controller
    (store_ap_groups controller_id ap_group_list db) controller_id
  = map (default "Unknown") (default [] ap_group_list)
  /\ forall other,
       other <> controller_id ->
       get_ap_groups_for_controller
         (store_ap_groups controller_id ap_group_list db) other
       = get_ap_groups_for_controller db other.
Proof.
  unfold get_ap_groups_for_controller, store_ap_groups. simpl. split.
  - rewrite omap_app, read_back_stored_groups, decide_True by done.
    rewrite omap_filter_none; [done|].
    intros g Hg. by rewrite decide_False.
  - intros other Hne.
    rewrite omap_app, read_back_stored_groups, decide_False, app_nil_r by done.
    apply omap_filter_keep.
    intros g Hg. destruct (decide (group_controller_id g = controller_id)) as [Heq|];
      [|done].
    rewrite decide_False; [done|]. congruence.
Qed.

(** After [store_lc_cluster] a controller with the id stored is in the
    cluster stored and in no other; membership of the other controllers is
    as before. *)
Theorem stored_cluster_is_the_controllers_cluster controller_id cluster_name db c :
  c ∈ get_all_controllers db ->
  (id c = controller_id ->
   forall cluster,
     c ∈ get_controllers_by_cluster
           (store_lc_cluster controller_id cluster_name db) cluster
     <-> cluster = cluster_name)
  /\ (id c <> controller_id ->
      forall cluster,
        c ∈ get_controllers_by_cluster
              (store_lc_cluster controller_id cluster_name db) cluster
        <-> c ∈ get_controllers_by_cluster db cluster).
Proof.
  intros Hc. split; intros Hid cluster;
    rewrite !elem_of_get_controllers_by_cluster; simpl.
  - split.
    + intros (_ & lc & Hin & Hn & Hlc).
      apply elem_of_app in Hin as [Hin|Hin].
      * apply list_elem_of_filter in Hin as [Hne _]. congruence.
      * apply list_elem_of_singleton in Hin as ->. simpl in Hn. congruence.
    + intros ->. split; [done|]. eexists. split.
      * apply elem_of_app. right. apply list_elem_of_here.
      * done.
  - split.
    + intros (_ & lc & Hin & Hn & Hlc). split; [done|].
      apply elem_of_app in Hin as [Hin|Hin].
      * apply list_elem_of_filter in Hin as [_ Hin]. eauto.
      * apply list_elem_of_singleton in Hin as ->. simpl in Hlc. congruence.
    + intros (_ & lc & Hin & Hn & Hlc). split; [done|]. exists lc.
      split; [|done]. apply elem_of_app. left.
      apply list_elem_of_filter. split; [congruence|done].
Qed.

Lemma le_foldr_max (l : list Z) (x : Z) : x ∈ l -> x <= foldr Z.max 0 l.
Proof.
  induction l as [|y l IH]; simpl; [by intros ?%elem_of_nil|].
  intros [->|Hin]%elem_of_cons; [lia|]. specialize (IH Hin). lia.
Qed.

(** [store_controller] returns the id of the row that holds the address
    after the call, with the name and node path stored; it keeps the
    addresses of the table distinct and the ids distinct; and storing the
    same address again returns the same id. *)
Theorem stored_controller_keeps_its_id ip_address name nodepath s :
  NoDup (map FleetDirectory.ip_address (controllers (tables s))) ->
  NoDup (map id (controllers (tables s))) ->
  let r := store_controller ip_address name nodepath s in
  mk_controller r.1 ip_address name nodepath ∈ get_all_controllers (tables r.2)
  /\ NoDup (map FleetDirectory.ip_address (controllers (tables r.2)))
  /\ NoDup (map id (controllers (tables r.2)))
  /\ forall name' nodepath',
       (store_controller ip_address name' nodepath' r.2).1 = r.1.
Proof.
  intros Hips Hids. unfold store_controller, get_all_controllers.
  destruct (filter _ (controllers (tables s))) as [|found rest] eqn:Ef; simpl.
  - set (cid := Z.max (foldr Z.max 0 (map id (controllers (tables s))))
                  (controllers_seq s) + 1).
    assert (Hfresh : cid ∉ map id (controllers (tables s))).
    { intros Hin%le_foldr_max. unfold cid in Hin. lia. }
    assert (Hnew : ip_address ∉ map FleetDirectory.ip_address
                                  (controllers (tables s))).
    { intros (c & Hc & Hin)%list_elem_of_fmap.
      assert (Hf : c ∈ filter (fun c => FleetDirectory.ip_address c = ip_address)
                         (controllers (tables s))).
      { apply list_elem_of_filter. done. }
      rewrite Ef in Hf. by apply elem_of_nil in Hf. }
    repeat split.
    + apply elem_of_app. right. apply list_elem_of_here.
    + rewrite map_app. apply NoDup_app. split; [done|]. split.
      * intros x Hx ->%list_elem_of_singleton. done.
      * apply NoDup_singleton.
    + rewrite map_app. apply NoDup_app. split; [done|]. split.
      * intros x Hx ->%list_elem_of_singleton. done.
      * apply NoDup_singleton.
    + intros name' nodepath'. rewrite filter_app.
      assert (Hnone : filter (fun c => FleetDirectory.ip_address c = ip_address)
                        (controllers (tables s)) = []) by exact Ef.
      rewrite Hnone. simpl. rewrite filter_cons. simpl.
      by rewrite decide_True.
  - assert (Hfound : found ∈ controllers (tables s)
                     /\ FleetDirectory.ip_address found = ip_address).
    { assert (Hf : found ∈ filter (fun c => FleetDirectory.ip_address c = ip_address)
                             (controllers (tables s))).
      { rewrite Ef. apply list_elem_of_here. }
      apply list_elem_of_filter in Hf. tauto. }
    destruct Hfound as [Hin Hip].
    assert (Hmap_ip : map FleetDirectory.ip_address
                        (map (update_controller (id found) name nodepath)
                           (controllers (tables s)))
                      = map FleetDirectory.ip_address (controllers (tables s))).
    { rewrite map_map. apply map_ext. intros c. unfold update_controller.
      by destruct (decide _). }
    assert (Hmap_id : map id
                        (map (update_controller (id found) name nodepath)
                           (controllers (tables s)))
                      = map id (controllers (tables s))).
    { rewrite map_map. apply map_ext. intros c. unfold update_controller.
      by destruct (decide _). }
    repeat split.
    + apply list_elem_of_fmap. exists found. split; [|done].
      unfold update_controller. rewrite decide_True by done. by rewrite Hip.
    + by rewrite Hmap_ip.
    + by rewrite Hmap_id.
    + intros name' nodepath'.
      assert (Hfilter : forall l, filter
                (fun c => FleetDirectory.ip_address c = ip_address)
                (map (update_controller (id found) name nodepath) l)
              = map (update_controller (id found) name nodepath)
                  (filter (fun c => FleetDirectory.ip_address c = ip_address) l)).
      { induction l as [|c l IHl]; [done|]. simpl. rewrite !filter_cons.
        assert (Hsame : FleetDirectory.ip_address
                          (update_controller (id found) name nodepath c)
                        = FleetDirectory.ip_address c).
        { unfold update_controller. by destruct (decide _). }
        rewrite Hsame. destruct (decide _); simpl; by rewrite IHl. }
      rewrite Hfilter, Ef. simpl. unfold update_controller.
      by rewrite decide_True.
Qed.

Lemma stored_cluster_is_the_controllers_cluster_witness :
  mk_controller 2 "10.0.0.2" "mc-2" "/md/site-a" ∈ get_all_controllers two_controllers
  /\ forall cluster,
       mk_controller 2 "10.0.0.2" "mc-2" "/md/site-a"
       ∈ get_controllers_by_cluster (store_lc_cluster 2 "DC-East" two_controllers)
           cluster
       <-> cluster = "DC-East".
Proof.
  assert (H : mk_controller 2 "10.0.0.2" "mc-2" "/md/site-a"
              ∈ get_all_controllers two_controllers).
  { apply list_elem_of_further, list_elem_of_here. }
  exact (conj H
           (proj1 (stored_cluster_is_the_controllers_cluster 2 "DC-East"
                     two_controllers _ H) eq_refl)).
Defined.

Lemma stored_controller_keeps_its_id_witness :
  (NoDup (map ip_address (controllers (tables two_controllers_store)))
   /\ NoDup (map id (controllers (tables two_controllers_store))))
  /\ mk_controller
       (store_controller "10.0.0.3" "mc-3" "/md/site-b" two_controllers_store).1
       "10.0.0.3" "mc-3" "/md/site-b"
     ∈ get_all_controllers
         (tables (store_controller "10.0.0.3" "mc-3" "/md/site-b"
                    two_controllers_store).2).
Proof.
  assert (H1 : NoDup (map ip_address (controllers (tables two_controllers_store)))).
  { apply (bool_decide_unpack _). vm_compute. exact I. }
  assert (H2 : NoDup (map id (controllers (tables two_controllers_store)))).
  { apply (bool_decide_unpack _). vm_compute. exact I. }
  exact (conj (conj H1 H2)
           (proj1 (stored_controller_keeps_its_id "10.0.0.3" "mc-3" "/md/site-b"
                     two_controllers_store H1 H2))).
Defined.

(** What the discovery stores for a controller is what the selection
    offers: after [store_controller] and [store_lc_cluster] with the id it
    returned, the controller is among the controllers of the cluster, and
    a cluster whose name was read (not Unknown) is offered for selection,
    for the controller's node path, and as a restoration pair. *)
Theorem discovered_cluster_is_offered ip_address name nodepath cluster_name s :
  let stored := store_controller ip_address name nodepath s in
  let db := store_lc_cluster stored.1 cluster_name (tables stored.2) in
  mk_controller stored.1 ip_address name nodepath
  ∈ get_controllers_by_cluster db cluster_name
  /\ (cluster_name <> "Unknown" ->
      cluster_name ∈ get_available_clusters db
      /\ cluster_name ∈ get_clusters_for_nodepath db nodepath
      /\ (cluster_name, nodepath) ∈ get_all_clusters_with_nodepaths db)
  /\ (cluster_name = "Unknown" -> cluster_name ∉ get_available_clusters db).
Proof.
  intros stored db.
  assert (Hrow : mk_controller stored.1 ip_address name nodepath
                 ∈ controllers db).
  { unfold db, stored, store_controller. simpl.
    destruct (filter _ (controllers (tables s))) as [|found rest] eqn:Ef; simpl.
    - apply elem_of_app. right. apply list_elem_of_here.
    - assert (Hf : found ∈ filter (fun c => FleetDirectory.ip_address c = ip_address)
                             (controllers (tables s))).
      { rewrite Ef. apply list_elem_of_here. }
      apply list_elem_of_filter in Hf as [Hip Hin].
      apply list_elem_of_fmap. exists found. split; [|done].
      unfold update_controller. rewrite decide_True by done. by rewrite Hip. }
  assert (Hlc : mk_lc_cluster stored.1 (Some cluster_name) ∈ lc_clusters db).
  { unfold db, store_lc_cluster. simpl. apply elem_of_app. right.
    apply list_elem_of_here. }
  split; [|split].
  - apply elem_of_get_controllers_by_cluster. split; [done|]. eauto.
  - intros Hne. split; [|split].
    + apply elem_of_get_available_clusters. eauto.
    + apply elem_of_get_clusters_for_nodepath. split; [done|].
      eexists _, _. repeat split; eauto.
    + apply elem_of_get_all_clusters_with_nodepaths. split; [done|].
      eexists _, _. repeat split; eauto.
  - intros ->. rewrite elem_of_get_available_clusters. by intros [? _].
Qed.

Lemma total_aps_insert (m : gmap string nat) k n :
  m !! k = None -> total_aps (<[k := n]> m) = (n + total_aps m)%nat.
Proof.
  intros Hk. unfold total_aps.
  apply (map_fold_insert_L (fun _ n total => (n + total)%nat)); [|done].
  intros. lia.
Qed.

Lemma total_aps_update (m : gmap string nat) k n n' :
  m !! k = Some n ->
  (total_aps (<[k := n']> m) + n = total_aps m + n')%nat.
Proof.
  intros Hk.
  rewrite <- (insert_delete_eq m k n').
  rewrite <- (insert_id m k n Hk) at 2.
  rewrite <- (insert_delete_eq m k n).
  rewrite !total_aps_insert by apply lookup_delete_eq. lia.
Qed.

Lemma count_ap_types_lookup (aps : list (option string)) (m : gmap string nat) t :
  foldl (fun type_counts ap =>
           match ap with
           | Some ap_type =>
               match type_counts !! ap_type with
               | Some n => <[ap_type := (n + 1)%nat]> type_counts
               | None => <[ap_type := 1%nat]> type_counts
               end
           | None => type_counts
           end) m aps !! t
  = if decide (length (filter (fun ap => ap = Some t) aps) = 0%nat)
    then m !! t
    else Some (default 0%nat (m !! t)
               + length (filter (fun ap => ap = Some t) aps))%nat.
Proof.
  revert m. induction aps as [|ap aps IH]; intros m; [done|].
  simpl foldl. rewrite IH, filter_cons.
  destruct (decide (ap = Some t)) as [->|Hne].
  - simpl length. rewrite (decide_False (P := S _ = 0%nat)) by lia.
    assert (Hnew : match m !! t with
                   | Some n => <[t := (n + 1)%nat]> m
                   | None => <[t := 1%nat]> m
                   end !! t = Some (default 0%nat (m !! t) + 1)%nat).
    { destruct (m !! t); by rewrite lookup_insert_eq. }
    rewrite Hnew. simpl. destruct (decide _) as [->|]; f_equal; lia.
  - assert (Hsame : match ap with
                    | Some ap_type =>
                        match m !! ap_type with
                        | Some n => <[ap_type := (n + 1)%nat]> m
                        | None => <[ap_type := 1%nat]> m
                        end
                    | None => m
                    end !! t = m !! t).
    { destruct ap as [t'|]; [|done].
      destruct (m !! t'); rewrite lookup_insert_ne; congruence. }
    by rewrite Hsame.
Qed.

Lemma count_ap_types_total (aps : list (option string)) (m : gmap string nat) :
  total_aps
    (foldl (fun type_counts ap =>
              match ap with
              | Some ap_type =>
                  match type_counts !! ap_type with
                  | Some n => <[ap_type := (n + 1)%nat]> type_counts
                  | None => <[ap_type := 1%nat]> type_counts
                  end
              | None => type_counts
              end) m aps)
  = (total_aps m + length (filter is_Some aps))%nat.
Proof.
  revert m. induction aps as [|ap aps IH]; intros m; [simpl; lia|].
  simpl foldl. rewrite IH, filter_cons. destruct ap as [t|].
  - rewrite decide_True by eauto. simpl length.
    destruct (m !! t) as [n|] eqn:E.
    + pose proof (total_aps_update m t n (n + 1) E). lia.
    + rewrite total_aps_insert by done. lia.
  - rewrite decide_False by (by intros [? ?]). done.
Qed.

(** The count that [count_ap_types] keeps for a type is the number of
    elements of the AP database array that carry that type, and a type
    carried by none has no count; the total that the display prints is the
    number of elements that carry a type, which is less than the number of
    APs when some element has none. *)
Theorem ap_type_counts_are_exact ap_database ap_type :
  count_ap_types (Some ap_database) !! ap_type
  = (if decide (length (filter (fun ap => ap = Some ap_type) ap_database) = 0%nat)
     then None
     else Some (length (filter (fun ap => ap = Some ap_type) ap_database)))
  /\ total_aps (count_ap_types (Some ap_database))
     = length (filter is_Some ap_database)
  /\ (total_aps (count_ap_types (Some ap_database)) <= length ap_database)%nat.
Proof.
  unfold count_ap_types. split; [|split].
  - rewrite count_ap_types_lookup, lookup_empty. done.
  - rewrite count_ap_types_total. unfold total_aps. by rewrite map_fold_empty.
  - rewrite count_ap_types_total. unfold total_aps. rewrite map_fold_empty.
    simpl. apply length_filter.
Qed.

End DirectoryProperties.

(** * Properties of the conversion monitor *)

Module MonitorProperties.

Import FleetDirectory Monitor MonitorExamples.

Section MonitorFacts.

Implicit Types (aps : gmap string entry) (st : monitor_state).

Lemma ap_stable_refl aps : ap_stable aps aps.
Proof. intros k a H. eauto. Qed.

Lemma ap_stable_trans aps1 aps2 aps3 :
  ap_stable aps1 aps2 -> ap_stable aps2 aps3 -> ap_stable aps1 aps3.
Proof.
  intros H12 H23 k a H.
  destruct (H12 k a H) as (a2 & H2 & E2).
  destruct (H23 k a2 H2) as (a3 & H3 & E3).
  exists a3. split; [done | congruence].
Qed.

Lemma track_inv controller_name summary aps cd aps' :
  track_conversion_progress controller_name summary aps = inr (cd, aps') ->
  exists cd0,
    (aps !! controller_name = None /\ cd0 = new_controller_data
     \/ aps !! controller_name = Some (ControllerEntry cd0))
    /\ aps' = <[controller_name := ControllerEntry cd]> aps
    /\ total_processed_estimate cd =
         total_processed_estimate cd0
         + Z.max 0 (last_current_converting cd0 - summary_current_converting summary)
    /\ last_current_converting cd = summary_current_converting summary.
Proof.
  unfold track_conversion_progress.
  destruct (aps !! controller_name) as [[cd0|a]|] eqn:E.
  - rewrite E. intros [= <- <-]. exists cd0. split; [by right|].
    split; [done|].
    destruct (_ && _), (peak_converting _ <? _); simpl;
      destruct (Z.ltb_spec (summary_current_converting summary)
                           (last_current_converting cd0)); simpl; lia.
  - rewrite E. discriminate.
  - rewrite lookup_insert_eq. intros [= <- <-]. exists new_controller_data.
    split; [by left|]. rewrite insert_insert_eq. split; [done|].
    destruct (_ && _), (peak_converting _ <? _); simpl;
      destruct (Z.ltb_spec (summary_current_converting summary) 0); simpl; lia.
Qed.

Lemma estimate_of_insert_ap aps k a k' :
  (forall c, aps !! k <> Some (ControllerEntry c)) ->
  estimate_of (<[k := ApEntry a]> aps) k' = estimate_of aps k'.
Proof.
  intros H. unfold estimate_of. destruct (decide (k = k')) as [<-|Hne].
  - rewrite lookup_insert_eq. destruct (aps !! k) as [[c|?]|] eqn:E; try done.
    by destruct (H c).
  - by rewrite lookup_insert_ne.
Qed.

(** What [track_ap] does to the dict: one key is written, and the new
    entry is determined by what the key held. *)
Lemma track_ap_inv t cn ap st o st' :
  track_ap t cn ap st = (o, st') ->
  completed_aps st' = completed_aps st
  /\ previous_converting st' = previous_converting st
  /\ current_converting st' = {[ap_name ap]} ∪ current_converting st
  /\ check_count st' = check_count st
  /\ exists e',
       all_time_aps st' = <[ap_name ap := e']> (all_time_aps st)
       /\ match all_time_aps st !! ap_name ap with
          | None => o = None /\ exists a, e' = ApEntry a /\ first_seen a = t
          | Some (ApEntry a0) =>
              o = None /\ exists a, e' = ApEntry a /\ first_seen a = first_seen a0
          | Some (ControllerEntry c) =>
              o = Some (KeyError "status_history")
              /\ e' = ControllerEntry (set_ctrl_last_seen t c)
          end.
Proof.
  unfold track_ap. simpl.
  destruct (all_time_aps st !! ap_name ap) as [[c|a0]|] eqn:E.
  - rewrite E. intros [= <- <-]. simpl. do 4 (split; [done|]).
    eexists. split; [done|]. done.
  - rewrite E. intros [= <- <-]. simpl. do 4 (split; [done|]).
    eexists. split; [done|]. eauto.
  - rewrite lookup_insert_eq. intros [= <- <-]. simpl. do 4 (split; [done|]).
    eexists. rewrite insert_insert_eq. split; [done|]. eauto.
Qed.

Lemma track_ap_stable t cn ap st o st' :
  track_ap t cn ap st = (o, st') ->
  ap_stable (all_time_aps st) (all_time_aps st').
Proof.
  intros H. apply track_ap_inv in H as (_ & _ & _ & _ & e' & -> & He).
  intros k a Hk. destruct (decide (ap_name ap = k)) as [<-|Hne].
  - rewrite Hk in He. destruct He as (_ & a' & -> & Hf).
    exists a'. by rewrite lookup_insert_eq.
  - exists a. by rewrite lookup_insert_ne.
Qed.

Lemma track_ap_estimates t cn ap st o st' :
  track_ap t cn ap st = (o, st') ->
  estimates_kept (all_time_aps st) (all_time_aps st').
Proof.
  intros H. apply track_ap_inv in H as (_ & _ & _ & _ & e' & -> & He).
  intros k. unfold estimate_of.
  destruct (decide (ap_name ap = k)) as [<-|Hne]; [|by rewrite lookup_insert_ne].
  rewrite lookup_insert_eq.
  destruct (all_time_aps st !! ap_name ap) as [[c|a0]|].
  - by destruct He as (_ & ->).
  - by destruct He as (_ & a & -> & _).
  - by destruct He as (_ & a & -> & _).
Qed.

Lemma track_ap_tracked t cn ap st st' :
  track_ap t cn ap st = (None, st') -> tracked st -> tracked st'.
Proof.
  intros H Htr. pose proof (track_ap_stable _ _ _ _ _ _ H) as Hst.
  apply track_ap_inv in H as (_ & _ & Hc & _ & e' & Hm & He).
  intros n. rewrite Hc, elem_of_union, elem_of_singleton. intros [->|Hn].
  - rewrite Hm, lookup_insert_eq.
    destruct (all_time_aps st !! ap_name ap) as [[c|a0]|].
    + by destruct He.
    + destruct He as (_ & a & -> & _). eauto.
    + destruct He as (_ & a & -> & _). eauto.
  - destruct (Htr n Hn) as (a & Ha). destruct (Hst n a Ha) as (a' & Ha' & _). eauto.
Qed.

Lemma track_ap_first_seen (P : time -> Prop) t cn ap st o st' :
  track_ap t cn ap st = (o, st') ->
  first_seen_within P (all_time_aps st) ->
  first_seen_within (fun x => P x \/ x = t) (all_time_aps st').
Proof.
  intros H HP. apply track_ap_inv in H as (_ & _ & _ & _ & e' & -> & He).
  intros k a. destruct (decide (ap_name ap = k)) as [<-|Hne].
  - rewrite lookup_insert_eq. intros [= ->].
    destruct (all_time_aps st !! ap_name ap) as [[c|a0]|] eqn:E.
    + by destruct He.
    + destruct He as (_ & a' & [= <-] & ->). left. eapply HP, E.
    + destruct He as (_ & a' & [= <-] & ->). by right.
  - rewrite lookup_insert_ne by done. intros Hk. left. eapply HP, Hk.
Qed.

Lemma carried_refl P t st : carried P t st st.
Proof.
  split; try done.
  - apply ap_stable_refl.
  - intros H k a Hk. left. eapply H, Hk.
Qed.

Lemma carried_trans P t st1 st2 st3 :
  carried P t st1 st2 -> carried (fun x => P x \/ x = t) t st2 st3 ->
  carried P t st1 st3.
Proof.
  intros [] []. split; try congruence.
  - eauto using ap_stable_trans.
  - intros k. etrans; eauto.
  - intros H k a Hk.
    destruct (carried_first_seen1 (carried_first_seen0 H) k a Hk) as [[?|?]|?]; auto.
Qed.


Lemma track_ap_carried P t cn ap st o st' :
  track_ap t cn ap st = (o, st') -> carried P t st st'.
Proof.
  intros H. pose proof (track_ap_inv _ _ _ _ _ _ H) as (? & ? & ? & ? & _).
  split; try done.
  - eapply track_ap_stable, H.
  - intros k. by rewrite (track_ap_estimates _ _ _ _ _ _ H k).
  - eapply track_ap_first_seen, H.
Qed.

Lemma track_aps_carried P t cn (l : list converting_ap) st o st' :
  track_aps t cn l st = (o, st') -> carried P t st st'.
Proof.
  revert P st. induction l as [|ap l IH]; intros P st; simpl.
  - intros [= <- <-]. apply carried_refl.
  - destruct (track_ap t cn ap st) as [[e|] st1] eqn:E.
    + intros [= <- <-]. eapply track_ap_carried, E.
    + intros H. eapply carried_trans; [eapply track_ap_carried, E|].
      eapply IH, H.
Qed.

Lemma track_aps_tracked t cn (l : list converting_ap) st st' :
  track_aps t cn l st = (None, st') -> tracked st -> tracked st'.
Proof.
  revert st. induction l as [|ap l IH]; intros st; simpl.
  - by intros [= <-].
  - destruct (track_ap t cn ap st) as [[e|] st1] eqn:E; [done|].
    intros H Htr. eapply IH; [done|]. eapply track_ap_tracked; eauto.
Qed.

Lemma track_carried P t controller_name summary st cd aps' :
  track_conversion_progress controller_name summary (all_time_aps st)
    = inr (cd, aps') ->
  carried P t st (with_all_time_aps aps' st).
Proof.
  intros H. apply track_inv in H as (cd0 & Hold & -> & Hest & _).
  assert (Hnot : forall a, all_time_aps st !! controller_name <> Some (ApEntry a)).
  { intros a. destruct Hold as [[-> _]| ->]; done. }
  split; simpl; try done.
  - intros k a Hk. exists a. rewrite lookup_insert_ne; [done|].
    intros <-. by destruct (Hnot a).
  - intros k. unfold estimate_of.
    destruct (decide (controller_name = k)) as [<-|Hne];
      [|by rewrite lookup_insert_ne].
    rewrite lookup_insert_eq, Hest.
    destruct Hold as [[-> ->]| ->]; simpl; lia.
  - intros HP k a. destruct (decide (controller_name = k)) as [<-|Hne].
    + by rewrite lookup_insert_eq.
    + rewrite lookup_insert_ne by done. intros Hk. left. eapply HP, Hk.
Qed.

Lemma track_tracked controller_name summary st cd aps' :
  track_conversion_progress controller_name summary (all_time_aps st)
    = inr (cd, aps') ->
  tracked st -> tracked (with_all_time_aps aps' st).
Proof.
  intros H Htr n Hn. simpl in Hn. destruct (Htr n Hn) as (a & Ha).
  destruct (carried_stable _ 0 _ _ (track_carried (fun _ => True) 0 _ _ _ _ _ H) n a Ha)
    as (a' & Ha' & _).
  eauto.
Qed.

Lemma query_controller_carried P t c data st o st' :
  query_controller t c data st = (o, st') -> carried P t st st'.
Proof.
  unfold query_controller. destruct data as [[converting_aps summary]|].
  - destruct (track_conversion_progress (name c) summary (all_time_aps st))
      as [e|[cd aps']] eqn:Et.
    + intros [= <- <-]. apply carried_refl.
    + intros Ha. eapply carried_trans; [eapply track_carried, Et|].
      eapply track_aps_carried, Ha.
  - intros [= <- <-]. apply carried_refl.
Qed.

Lemma query_controller_tracked t c data st st' :
  query_controller t c data st = (None, st') -> tracked st -> tracked st'.
Proof.
  unfold query_controller. destruct data as [[converting_aps summary]|].
  - destruct (track_conversion_progress (name c) summary (all_time_aps st))
      as [e|[cd aps']] eqn:Et; [done|].
    intros Ha Htr. eapply track_aps_tracked; [done|]. eapply track_tracked; eauto.
  - by intros [= <-].
Qed.

Lemma carried_step P t st1 st2 st3 :
  carried P t st1 st2 -> (forall Q, carried Q t st2 st3) -> carried P t st1 st3.
Proof. intros H12 H23. eapply carried_trans; [done|]. apply H23. Qed.

Lemma query_controllers_carried P t controllers fetched st o st' :
  query_controllers t controllers fetched st = (o, st') -> carried P t st st'.
Proof.
  revert P fetched st.
  induction controllers as [|c cs IH]; intros P fetched st; simpl.
  - intros [= <- <-]. apply carried_refl.
  - destruct (query_controller t c (mjoin (head fetched)) st) as [[e|] st1] eqn:E.
    + intros [= <- <-]. eapply query_controller_carried, E.
    + intros H. eapply carried_trans; [eapply query_controller_carried, E|].
      eapply IH, H.
Qed.

Lemma query_controllers_tracked t controllers fetched st st' :
  query_controllers t controllers fetched st = (None, st') ->
  tracked st -> tracked st'.
Proof.
  revert fetched st. induction controllers as [|c cs IH]; intros fetched st; simpl.
  - by intros [= <-].
  - destruct (query_controller t c (mjoin (head fetched)) st) as [[e|] st1] eqn:E;
      [done|].
    intros H Htr. eapply IH; [done|]. eapply query_controller_tracked; eauto.
Qed.

Lemma lookup_stamped t (l : list string) aps k :
  foldr (alter (stamp_completed t)) aps l !! k
  = if decide (k ∈ l) then stamp_completed t <$> aps !! k else aps !! k.
Proof.
  induction l as [|x l IH]; simpl.
  - destruct (decide (k ∈ [])) as [H|]; [by apply elem_of_nil in H|done].
  - destruct (decide (x = k)) as [->|Hne].
    + rewrite lookup_alter_eq, IH.
      destruct (decide (k ∈ k :: l)) as [_|H];
        [|by destruct H; apply list_elem_of_here].
      destruct (decide (k ∈ l)); [|done].
      destruct (aps !! k) as [[?|?]|]; done.
    + rewrite lookup_alter_ne by done. rewrite IH.
      destruct (decide (k ∈ l)) as [Hin|Hnin];
        destruct (decide (k ∈ x :: l)) as [Hin'|Hnin']; try done.
      * destruct Hnin'. by apply list_elem_of_further.
      * apply elem_of_cons in Hin' as [?|?]; congruence.
Qed.

Lemma estimate_of_stamped t (l : list string) aps k :
  estimate_of (foldr (alter (stamp_completed t)) aps l) k = estimate_of aps k.
Proof.
  unfold estimate_of. rewrite lookup_stamped.
  destruct (decide (k ∈ l)); [|done].
  by destruct (aps !! k) as [[?|?]|].
Qed.

Lemma monitor_cycle_inv controllers c st o st' :
  monitor_cycle controllers c st = (o, st') ->
  exists st1,
    query_controllers (now c) controllers (fetched c) (cycle_start st) = (o, st1)
    /\ match o with
       | Some _ => st' = st1
       | None =>
           st' = {| all_time_aps :=
                      foldr (alter (stamp_completed (now c))) (all_time_aps st1)
                        (elements (previous_converting st1 ∖ current_converting st1));
                    completed_aps :=
                      completed_aps st1
                      ∪ (previous_converting st1 ∖ current_converting st1);
                    previous_converting := current_converting st1;
                    current_converting := current_converting st1;
                    check_count := check_count st1 |}
       end.
Proof.
  unfold monitor_cycle. fold (cycle_start st).
  destruct (query_controllers (now c) controllers (fetched c) (cycle_start st))
    as [[e|] st1] eqn:E; intros [= <- <-]; eauto.
Qed.

Lemma monitor_cycle_completed controllers c st :
  completed_aps st ⊆ completed_aps (monitor_cycle controllers c st).2.
Proof.
  destruct (monitor_cycle controllers c st) as [o st'] eqn:E. simpl.
  apply monitor_cycle_inv in E as (st1 & Hq & Hst').
  destruct (query_controllers_carried (fun _ => True) _ _ _ _ _ _ Hq)
    as [Hc _ _ _ _ _].
  simpl in Hc.
  destruct o; rewrite Hst'; simpl;
    [by rewrite Hc | rewrite Hc; apply union_subseteq_l].
Qed.

Lemma monitor_loop_completed controllers cycles st :
  completed_aps st ⊆ completed_aps (monitor_loop controllers cycles st).2.
Proof.
  revert st. induction cycles as [|c cycles IH]; intros st; simpl; [done|].
  pose proof (monitor_cycle_completed controllers c st) as Hc.
  destruct (monitor_cycle controllers c st) as [[e|] st1]; simpl in *; [done|].
  etrans; [exact Hc | apply IH].
Qed.

Lemma monitor_cycle_estimates controllers c st k :
  estimate_of (all_time_aps st) k
  <= estimate_of (all_time_aps (monitor_cycle controllers c st).2) k.
Proof.
  destruct (monitor_cycle controllers c st) as [o st'] eqn:E. simpl.
  apply monitor_cycle_inv in E as (st1 & Hq & Hst').
  destruct (query_controllers_carried (fun _ => True) _ _ _ _ _ _ Hq)
    as [_ _ _ _ He _].
  specialize (He k). simpl in He.
  destruct o; subst st'; simpl; [done|]. by rewrite estimate_of_stamped.
Qed.

Lemma monitor_loop_estimates controllers cycles st k :
  estimate_of (all_time_aps st) k
  <= estimate_of (all_time_aps (monitor_loop controllers cycles st).2) k.
Proof.
  revert st. induction cycles as [|c cycles IH]; intros st; simpl; [done|].
  pose proof (monitor_cycle_estimates controllers c st k) as Hc.
  destruct (monitor_cycle controllers c st) as [[e|] st1]; simpl in *; [done|].
  etrans; [exact Hc | apply IH].
Qed.






Lemma progress_kept_refl k aps : progress_kept k aps aps.
Proof. by split. Qed.

Lemma progress_kept_trans k aps1 aps2 aps3 :
  progress_kept k aps1 aps2 -> progress_kept k aps2 aps3 ->
  progress_kept k aps1 aps3.
Proof. intros [] []. split; congruence. Qed.

Lemma advanced_by_kept_l data k aps1 aps2 aps3 :
  progress_kept k aps1 aps2 -> advanced_by data k aps2 aps3 ->
  advanced_by data k aps1 aps3.
Proof.
  intros [He Hl]. destruct data as [[l summary]|]; simpl.
  - rewrite He, Hl. tauto.
  - intros [] . split; congruence.
Qed.

Lemma advanced_by_kept_r data k aps1 aps2 aps3 :
  advanced_by data k aps1 aps2 -> progress_kept k aps2 aps3 ->
  advanced_by data k aps1 aps3.
Proof.
  intros H [He Hl]. destruct data as [[l summary]|]; simpl in *.
  - rewrite He, Hl. tauto.
  - destruct H. split; congruence.
Qed.

(** The tracker's effect on the controller's own key and on every other
    key. *)
Lemma track_progress controller_name summary aps cd aps' :
  track_conversion_progress controller_name summary aps = inr (cd, aps') ->
  estimate_of aps' controller_name
  = estimate_of aps controller_name
    + Z.max 0 (last_converting_of aps controller_name
               - summary_current_converting summary)
  /\ last_converting_of aps' controller_name = summary_current_converting summary
  /\ forall other, other <> controller_name -> progress_kept other aps aps'.
Proof.
  intros H. apply track_inv in H as (cd0 & Hold & -> & Hest & Hlast).
  unfold progress_kept, estimate_of, last_converting_of. rewrite lookup_insert_eq.
  assert (Hsame :
    match aps !! controller_name with
    | Some (ControllerEntry c) => total_processed_estimate c
    | _ => 0
    end = total_processed_estimate cd0
    /\ match aps !! controller_name with
       | Some (ControllerEntry c) => last_current_converting c
       | _ => 0
       end = last_current_converting cd0).
  { destruct Hold as [[-> ->]| ->]; done. }
  destruct Hsame as [-> ->].
  repeat split; try lia.
  all: by rewrite lookup_insert_ne.
Qed.

Lemma track_ap_progress t cn ap st o st' k :
  track_ap t cn ap st = (o, st') ->
  progress_kept k (all_time_aps st) (all_time_aps st').
Proof.
  intros H. apply track_ap_inv in H as (_ & _ & _ & _ & e' & -> & He).
  unfold progress_kept, estimate_of, last_converting_of.
  destruct (decide (ap_name ap = k)) as [<-|Hne];
    [|by rewrite lookup_insert_ne].
  rewrite lookup_insert_eq.
  destruct (all_time_aps st !! ap_name ap) as [[c|a0]|].
  - by destruct He as (_ & ->).
  - by destruct He as (_ & a & -> & _).
  - by destruct He as (_ & a & -> & _).
Qed.

Lemma track_aps_progress t cn (l : list converting_ap) st o st' k :
  track_aps t cn l st = (o, st') ->
  progress_kept k (all_time_aps st) (all_time_aps st').
Proof.
  revert st. induction l as [|ap l IH]; intros st; simpl.
  - intros [= <- <-]. apply progress_kept_refl.
  - destruct (track_ap t cn ap st) as [[e|] st1] eqn:E.
    + intros [= <- <-]. eapply track_ap_progress, E.
    + intros H. eapply progress_kept_trans; [eapply track_ap_progress, E|].
      eapply IH, H.
Qed.

(** The query of another controller leaves the progress of [k] alone. *)
Lemma query_controller_progress t c data st o st' k :
  name c <> k ->
  query_controller t c data st = (o, st') ->
  progress_kept k (all_time_aps st) (all_time_aps st').
Proof.
  intros Hne. unfold query_controller. destruct data as [[converting_aps summary]|].
  - destruct (track_conversion_progress (name c) summary (all_time_aps st))
      as [e|[cd aps']] eqn:Et.
    + intros [= <- <-]. apply progress_kept_refl.
    + intros Ha. apply track_progress in Et as (_ & _ & Hother).
      eapply progress_kept_trans; [apply Hother; congruence|].
      eapply (track_aps_progress _ _ _ (with_all_time_aps aps' st)), Ha.
  - intros [= <- <-]. apply progress_kept_refl.
Qed.

Lemma query_controllers_progress t controllers fetched st o st' k :
  k ∉ map name controllers ->
  query_controllers t controllers fetched st = (o, st') ->
  progress_kept k (all_time_aps st) (all_time_aps st').
Proof.
  revert fetched st.
  induction controllers as [|c cs IH]; intros fetched st Hk; simpl.
  - intros [= <- <-]. apply progress_kept_refl.
  - simpl in Hk. apply not_elem_of_cons in Hk as [Hne Hk].
    destruct (query_controller t c (mjoin (head fetched)) st) as [[e|] st1] eqn:E.
    + intros [= <- <-]. eapply query_controller_progress; [|exact E]. congruence.
    + intros H. eapply progress_kept_trans.
      * eapply query_controller_progress; [|exact E]. congruence.
      * eapply IH; eauto.
Qed.

(** The query of the controller itself, when it completes. *)
Lemma query_controller_advanced t c data st st' :
  query_controller t c data st = (None, st') ->
  advanced_by data (name c) (all_time_aps st) (all_time_aps st').
Proof.
  unfold query_controller. destruct data as [[converting_aps summary]|].
  - destruct (track_conversion_progress (name c) summary (all_time_aps st))
      as [e|[cd aps']] eqn:Et; [done|].
    intros Ha. apply track_progress in Et as (Hest & Hlast & _).
    eapply (advanced_by_kept_r (Some (converting_aps, summary)));
      [exact (conj Hest Hlast)|].
    eapply (track_aps_progress _ _ _ (with_all_time_aps aps' st)), Ha.
  - intros [= <-]. apply progress_kept_refl.
Qed.

Lemma query_controllers_advanced t controllers fetched st st' i controller :
  NoDup (map name controllers) ->
  query_controllers t controllers fetched st = (None, st') ->
  controllers !! i = Some controller ->
  advanced_by (mjoin (fetched !! i)) (name controller)
    (all_time_aps st) (all_time_aps st').
Proof.
  revert fetched st i.
  induction controllers as [|c cs IH]; intros fetched st i Hnd; simpl; [done|].
  simpl in Hnd. apply NoDup_cons in Hnd as [Hc Hnd].
  destruct (query_controller t c (mjoin (head fetched)) st) as [[e|] st1] eqn:E;
    [done|].
  intros H Hi. destruct i as [|i]; simpl in Hi.
  - injection Hi as <-. rewrite <- head_lookup.
    eapply advanced_by_kept_r; [eapply query_controller_advanced, E|].
    eapply query_controllers_progress; eauto.
  - assert (Hne : name c <> name controller).
    { intros Heq. apply Hc. rewrite Heq.
      apply list_elem_of_fmap. exists controller.
      split; [done|]. eapply list_elem_of_lookup_2, Hi. }
    eapply advanced_by_kept_l; [eapply query_controller_progress; eauto|].
    rewrite <- lookup_tail. eapply IH; eauto.
Qed.

Lemma progress_kept_stamped t (l : list string) aps k :
  progress_kept k aps (foldr (alter (stamp_completed t)) aps l).
Proof.
  unfold progress_kept, estimate_of, last_converting_of. rewrite lookup_stamped.
  destruct (decide (k ∈ l)); [|done].
  by destruct (aps !! k) as [[?|?]|].
Qed.

Lemma monitor_cycle_advanced controllers c st st' i controller :
  NoDup (map name controllers) ->
  monitor_cycle controllers c st = (None, st') ->
  controllers !! i = Some controller ->
  advanced_by (mjoin (fetched c !! i)) (name controller)
    (all_time_aps st) (all_time_aps st').
Proof.
  intros Hnd E Hi. apply monitor_cycle_inv in E as (st1 & Hq & ->). simpl.
  eapply advanced_by_kept_r; [|apply progress_kept_stamped].
  eapply (query_controllers_advanced _ _ _ (cycle_start st)); eauto.
Qed.

End MonitorFacts.

(** C4. In a completed monitoring cycle over controllers with distinct
    names, the total-processed estimate of a controller whose fetch gave
    data grows by exactly the non-negative drop from the count remembered
    for it (the count of its last cycle with data, [0] before the first) to
    the count of this cycle, which is remembered in turn; the estimate and
    the remembered count of a controller whose fetch gave nothing are
    unchanged. Over any sequence of monitoring cycles, completed or not and
    whatever the names, the estimate of every controller never decreases. *)
Theorem total_processed_estimate_tracks_drop :
  (forall controllers c st st' i controller,
      NoDup (map name controllers) ->
      monitor_cycle controllers c st = (None, st') ->
      controllers !! i = Some controller ->
      match mjoin (fetched c !! i) with
      | Some (_, summary) =>
          estimate_of (all_time_aps st') (name controller)
          = estimate_of (all_time_aps st) (name controller)
            + Z.max 0 (last_converting_of (all_time_aps st) (name controller)
                       - summary_current_converting summary)
          /\ last_converting_of (all_time_aps st') (name controller)
             = summary_current_converting summary
      | None =>
          estimate_of (all_time_aps st') (name controller)
          = estimate_of (all_time_aps st) (name controller)
          /\ last_converting_of (all_time_aps st') (name controller)
             = last_converting_of (all_time_aps st) (name controller)
      end)
  /\ (forall controllers cycles st controller_name,
        estimate_of (all_time_aps st) controller_name
        <= estimate_of (all_time_aps (monitor_loop controllers cycles st).2)
             controller_name).
Proof.
  split.
  - intros controllers c st st' i controller Hnd E Hi.
    exact (monitor_cycle_advanced controllers c st st' i controller Hnd E Hi).
  - intros. apply monitor_loop_estimates.
Qed.


(** C10. Within a monitoring run the completed set only grows: every name in
    it before a cycle is in it after the cycle, whether the cycle completes
    or raises, and so over any number of cycles; a completed name that is in
    a later cycle's currently-converting set is then in both sets. *)
Theorem completed_set_only_grows :
  (forall controllers c st,
      completed_aps st ⊆ completed_aps (monitor_cycle controllers c st).2)
  /\ (forall controllers cycles st,
        completed_aps st ⊆ completed_aps (monitor_loop controllers cycles st).2)
  /\ (forall controllers c st,
        completed_aps st ∩ current_converting (monitor_cycle controllers c st).2
        ⊆ completed_aps (monitor_cycle controllers c st).2
          ∩ current_converting (monitor_cycle controllers c st).2).
Proof.
  split; [|split].
  - apply monitor_cycle_completed.
  - apply monitor_loop_completed.
  - intros controllers c st n [Hdone Hcur]%elem_of_intersection.
    apply elem_of_intersection. split; [|done].
    by apply monitor_cycle_completed.
Qed.

Lemma total_processed_estimate_tracks_drop_witness :
  (NoDup (map name [mc1])
   /\ monitor_cycle [mc1] cycle_2 after_cycle_1 = (None, after_cycle_2)
   /\ [mc1] !! 0%nat = Some mc1)
  /\ (estimate_of (all_time_aps after_cycle_2) (name mc1)
      = estimate_of (all_time_aps after_cycle_1) (name mc1)
        + Z.max 0 (last_converting_of (all_time_aps after_cycle_1) (name mc1)
                   - summary_current_converting (active_summary 0))
      /\ last_converting_of (all_time_aps after_cycle_2) (name mc1)
         = summary_current_converting (active_summary 0))
  /\ estimate_of (all_time_aps after_cycle_1) (name mc1) = 0
  /\ estimate_of (all_time_aps after_cycle_2) (name mc1) = 1.
Proof.
  assert (H1 : NoDup (map name [mc1])).
  { exact (NoDup_singleton (name mc1)). }
  assert (H2 : monitor_cycle [mc1] cycle_2 after_cycle_1 = (None, after_cycle_2)).
  { vm_compute. reflexivity. }
  assert (H3 : [mc1] !! 0%nat = Some mc1).
  { reflexivity. }
  assert (H4 : estimate_of (all_time_aps after_cycle_1) (name mc1) = 0).
  { vm_compute. reflexivity. }
  assert (H5 : estimate_of (all_time_aps after_cycle_2) (name mc1) = 1).
  { vm_compute. reflexivity. }
  exact (conj (conj H1 (conj H2 H3))
           (conj (proj1 total_processed_estimate_tracks_drop [mc1] cycle_2
                    after_cycle_1 after_cycle_2 0%nat mc1 H1 H2 H3)
                 (conj H4 H5))).
Defined.


(** C4 as stated does not hold for controllers that share a name. Two
    controllers named mc report five and no converting APs in every cycle:
    neither count ever drops, yet both are tracked by the one dict under
    the key mc, whose remembered count alternates between five and zero,
    so the estimate under that name grows by five in every cycle. *)
Lemma shared_name_estimate_grows_without_drop :
  monitor_loop [twin_a; twin_b] [twin_cycle 100; twin_cycle 110; twin_cycle 120]
    initial_state
  = (None, (monitor_loop [twin_a; twin_b]
              [twin_cycle 100; twin_cycle 110; twin_cycle 120] initial_state).2)
  /\ name twin_a = name twin_b
  /\ estimate_of
       (all_time_aps (monitor_loop [twin_a; twin_b] [twin_cycle 100] initial_state).2)
       (name twin_a) = 5
  /\ estimate_of
       (all_time_aps
          (monitor_loop [twin_a; twin_b] [twin_cycle 100; twin_cycle 110]
             initial_state).2)
       (name twin_a) = 10
  /\ estimate_of
       (all_time_aps
          (monitor_loop [twin_a; twin_b]
             [twin_cycle 100; twin_cycle 110; twin_cycle 120] initial_state).2)
       (name twin_a) = 15
  /\ Z.max 0 (summary_current_converting (active_summary 5)
              - summary_current_converting (active_summary 5)) = 0
  /\ Z.max 0 (summary_current_converting (active_summary 0)
              - summary_current_converting (active_summary 0)) = 0.
Proof.
  split; [vm_compute; reflexivity|].
  split; [vm_compute; reflexivity|].
  split; [vm_compute; reflexivity|].
  split; [vm_compute; reflexivity|].
  split; [vm_compute; reflexivity|].
  split; vm_compute; reflexivity.
Qed.


(** The peak kept for a controller is the running maximum of the counts
    reported for it: after a call it is the larger of the previous peak and
    the count of this call, so it is never below the count just recorded
    and never decreases. *)
Theorem peak_converting_is_running_maximum controller_name summary aps cd aps' :
  track_conversion_progress controller_name summary aps = inr (cd, aps') ->
  peak_converting cd
  = Z.max (peak_of aps controller_name) (summary_current_converting summary)
  /\ peak_of aps' controller_name = peak_converting cd
  /\ last_current_converting cd <= peak_converting cd
  /\ peak_of aps controller_name <= peak_of aps' controller_name.
Proof.
  unfold track_conversion_progress, peak_of.
  destruct (aps !! controller_name) as [[cd0|a]|] eqn:E.
  - rewrite E. intros [= <- <-]. rewrite lookup_insert_eq.
    destruct (_ && _); simpl;
      destruct (Z.ltb_spec (peak_converting cd0) (summary_current_converting summary));
      simpl; destruct (_ <? _); simpl; lia.
  - rewrite E. discriminate.
  - rewrite lookup_insert_eq. intros [= <- <-]. rewrite lookup_insert_eq.
    destruct (_ && _); simpl;
      destruct (Z.ltb_spec 0 (summary_current_converting summary));
      simpl; destruct (_ <? _); simpl; lia.
Qed.

(** The start of a conversion is recorded once: a controller's dict is
    marked started by the first call whose summary is Active, taking the
    start time and the AP groups of that summary, and a dict that is marked
    started keeps its mark, start time and AP groups through every later
    call, whatever the summary says. The call that creates the dict is
    included: it works on the new dict, which is not marked started. *)
Theorem conversion_start_is_recorded_once controller_name summary aps cd aps' :
  track_conversion_progress controller_name summary aps = inr (cd, aps') ->
  (conversion_started (dict_of aps controller_name) = true ->
   conversion_started cd = true
   /\ start_time cd = start_time (dict_of aps controller_name)
   /\ ap_groups cd = ap_groups (dict_of aps controller_name))
  /\ (conversion_started (dict_of aps controller_name) = false ->
      if String.eqb (status summary) "Active"
      then conversion_started cd = true
           /\ start_time cd = Some (summary_start_time summary)
           /\ ap_groups cd = summary_ap_groups summary
      else conversion_started cd = false
           /\ start_time cd = start_time (dict_of aps controller_name)
           /\ ap_groups cd = ap_groups (dict_of aps controller_name))
  /\ (aps !! controller_name = None ->
      dict_of aps controller_name = new_controller_data
      /\ conversion_started (dict_of aps controller_name) = false).
Proof.
  unfold track_conversion_progress, dict_of.
  destruct (aps !! controller_name) as [[cd0|a]|] eqn:E.
  - rewrite E. intros [= <- _]. split; [|split]; [| |done]; intros Hs; rewrite Hs.
    + rewrite andb_false_r.
      destruct (_ <? _); simpl; destruct (_ <? _); simpl; done.
    + rewrite andb_true_r.
      destruct (String.eqb (status summary) "Active"); simpl;
        destruct (_ <? _); simpl; destruct (_ <? _); simpl; done.
  - rewrite E. discriminate.
  - rewrite lookup_insert_eq. intros [= <- _].
    split; [|split]; [done| |done]. intros _. simpl.
    destruct (String.eqb (status summary) "Active"); simpl;
      destruct (_ <? _); simpl; destruct (_ <? _); simpl; done.
Qed.

(** A controller whose name is already the key of an AP's dict makes the
    tracker raise [KeyError] before anything is written, and the query of
    that controller leaves the monitor's state as it was. *)
Theorem controller_under_ap_key_raises t c converting_aps summary st a :
  all_time_aps st !! name c = Some (ApEntry a) ->
  (exists key,
      track_conversion_progress (name c) summary (all_time_aps st)
      = inl (KeyError key))
  /\ exists key,
       query_controller t c (Some (converting_aps, summary)) st
       = (Some (KeyError key), st).
Proof.
  intros E. unfold query_controller, track_conversion_progress.
  rewrite E, E. eauto.
Qed.

(** [check_count] counts the cycles started: after a run of completed
    cycles it has grown by their number. *)
Theorem check_count_counts_cycles controllers cycles st st' :
  monitor_loop controllers cycles st = (None, st') ->
  check_count st' = (check_count st + length cycles)%nat.
Proof.
  revert st. induction cycles as [|c cycles IH]; intros st; simpl.
  - intros [= <-]. lia.
  - destruct (monitor_cycle controllers c st) as [[e|] st1] eqn:E; [done|].
    intros H. rewrite (IH _ H).
    apply monitor_cycle_inv in E as (st0 & Hq & ->).
    destruct (query_controllers_carried (fun _ => True) _ _ _ _ _ _ Hq)
      as [_ _ Hc _ _ _].
    simpl in *. lia.
Qed.

(** A completed cycle adds to the completed set exactly the names of the
    previous cycle's set that are not in this cycle's set, and hands this
    cycle's set to the next cycle; so the first cycle of a run completes
    nothing. *)
Theorem completed_set_gains_the_disappeared controllers c st st' :
  monitor_cycle controllers c st = (None, st') ->
  completed_aps st'
  = completed_aps st ∪ (previous_converting st ∖ current_converting st')
  /\ previous_converting st' = current_converting st'
  /\ (previous_converting st = ∅ -> completed_aps st' = completed_aps st).
Proof.
  intros E. apply monitor_cycle_inv in E as (st1 & Hq & ->).
  destruct (query_controllers_carried (fun _ => True) _ _ _ _ _ _ Hq)
    as [Hc Hp _ _ _ _].
  simpl in *. rewrite Hc, Hp. repeat split. intros ->.
  apply set_eq. intros x.
  rewrite elem_of_union, elem_of_difference, elem_of_empty. tauto.
Qed.

Lemma peak_converting_is_running_maximum_witness :
  track_conversion_progress "mc-1" (active_summary 1) tracked_once
  = inr (tracked_twice.1, tracked_twice.2)
  /\ peak_converting tracked_twice.1
     = Z.max (peak_of tracked_once "mc-1")
         (summary_current_converting (active_summary 1)).
Proof.
  assert (H : track_conversion_progress "mc-1" (active_summary 1) tracked_once
              = inr (tracked_twice.1, tracked_twice.2)).
  { vm_compute. reflexivity. }
  exact (conj H
           (proj1 (peak_converting_is_running_maximum "mc-1" (active_summary 1)
                     tracked_once tracked_twice.1 tracked_twice.2 H))).
Defined.

Lemma conversion_start_is_recorded_once_witness :
  (track_conversion_progress "mc-1" (active_summary 3) ∅
   = inr (started_mc1, tracked_once)
   /\ conversion_started (dict_of ∅ "mc-1") = false)
  /\ conversion_started started_mc1 = true
  /\ start_time started_mc1 = Some (summary_start_time (active_summary 3))
  /\ ap_groups started_mc1 = summary_ap_groups (active_summary 3).
Proof.
  assert (H1 : track_conversion_progress "mc-1" (active_summary 3) ∅
               = inr (started_mc1, tracked_once)).
  { vm_compute. reflexivity. }
  assert (H2 : conversion_started (dict_of ∅ "mc-1") = false).
  { vm_compute. reflexivity. }
  exact (conj (conj H1 H2)
           (proj1 (proj2 (conversion_start_is_recorded_once "mc-1"
                            (active_summary 3) ∅ started_mc1 tracked_once H1))
              H2)).
Defined.

Lemma controller_under_ap_key_raises_witness :
  (exists a, all_time_aps after_clash_elsewhere !! name mc1 = Some (ApEntry a))
  /\ exists key,
       query_controller 110 mc1 (Some ([], active_summary 0)) after_clash_elsewhere
       = (Some (KeyError key), after_clash_elsewhere).
Proof.
  assert (H : all_time_aps after_clash_elsewhere !! name mc1
              = Some (ApEntry
                        {| first_seen := 100; last_seen := 100;
                           controller_of := "mc-9"; mac := "aa:bb:cc:00:00:02";
                           status_history := [(100, "Converting", "In Progress")];
                           completed_time := None |})).
  { vm_compute. reflexivity. }
  exact (conj (ex_intro _ _ H)
           (proj2 (controller_under_ap_key_raises 110 mc1 [] (active_summary 0)
                     after_clash_elsewhere _ H))).
Defined.

Lemma check_count_counts_cycles_witness :
  monitor_loop [mc1] [cycle_1] initial_state = (None, after_cycle_1)
  /\ check_count after_cycle_1 = (check_count initial_state + length [cycle_1])%nat.
Proof.
  assert (H : monitor_loop [mc1] [cycle_1] initial_state = (None, after_cycle_1)).
  { vm_compute. reflexivity. }
  exact (conj H
           (check_count_counts_cycles [mc1] [cycle_1] initial_state
              after_cycle_1 H)).
Defined.

Lemma completed_set_gains_the_disappeared_witness :
  monitor_cycle [mc1] cycle_2 after_cycle_1 = (None, after_cycle_2)
  /\ completed_aps after_cycle_2
     = completed_aps after_cycle_1
       ∪ (previous_converting after_cycle_1 ∖ current_converting after_cycle_2).
Proof.
  assert (H : monitor_cycle [mc1] cycle_2 after_cycle_1 = (None, after_cycle_2)).
  { vm_compute. reflexivity. }
  exact (conj H
           (proj1 (completed_set_gains_the_disappeared [mc1] cycle_2
                     after_cycle_1 after_cycle_2 H))).
Defined.

Section FinalSummary.

Implicit Types (aps : gmap string entry) (st : monitor_state).

Lemma has_controller_stable aps aps' :
  controller_stable aps aps' -> has_controller aps -> has_controller aps'.
Proof. intros Hst (k & c & Hk). destruct (Hst k c Hk) as (c' & Hk'). by exists k, c'. Qed.

Lemma track_ap_controller_stable t cn ap st o st' :
  track_ap t cn ap st = (o, st') ->
  controller_stable (all_time_aps st) (all_time_aps st').
Proof.
  intros H. apply track_ap_inv in H as (_ & _ & _ & _ & e' & -> & He).
  intros k c Hk. destruct (decide (ap_name ap = k)) as [<-|Hne].
  - rewrite Hk in He. destruct He as (_ & ->).
    rewrite lookup_insert_eq. eauto.
  - rewrite lookup_insert_ne by done. eauto.
Qed.

Lemma track_aps_controller_stable t cn (l : list converting_ap) st o st' :
  track_aps t cn l st = (o, st') ->
  controller_stable (all_time_aps st) (all_time_aps st').
Proof.
  revert st. induction l as [|ap l IH]; intros st; simpl.
  - intros [= <- <-] k c Hk. eauto.
  - destruct (track_ap t cn ap st) as [[e|] st1] eqn:E.
    + intros [= <- <-]. eapply track_ap_controller_stable, E.
    + intros H k c Hk.
      destruct (track_ap_controller_stable _ _ _ _ _ _ E k c Hk) as (c1 & Hk1).
      eapply IH; eauto.
Qed.

(** The part of [summary_inv] that a query keeps, with the facts carried
    by [carried]. *)
Lemma query_controller_has_controller t c data st o st' :
  query_controller t c data st = (o, st') ->
  all_time_aps st = ∅ \/ has_controller (all_time_aps st) ->
  all_time_aps st' = ∅ \/ has_controller (all_time_aps st').
Proof.
  unfold query_controller. destruct data as [[converting_aps summary]|].
  - destruct (track_conversion_progress (name c) summary (all_time_aps st))
      as [e|[cd aps']] eqn:Et.
    + by intros [= <- <-].
    + intros Ha _. right.
      apply track_inv in Et as (cd0 & _ & -> & _).
      eapply has_controller_stable.
      * eapply track_aps_controller_stable, Ha.
      * exists (name c), cd. simpl. by rewrite lookup_insert_eq.
  - by intros [= <- <-].
Qed.

Lemma query_controllers_has_controller t controllers fetched st o st' :
  query_controllers t controllers fetched st = (o, st') ->
  all_time_aps st = ∅ \/ has_controller (all_time_aps st) ->
  all_time_aps st' = ∅ \/ has_controller (all_time_aps st').
Proof.
  revert fetched st. induction controllers as [|c cs IH]; intros fetched st; simpl.
  - by intros [= <- <-].
  - destruct (query_controller t c (mjoin (head fetched)) st) as [[e|] st1] eqn:E.
    + intros [= <- <-]. eapply query_controller_has_controller, E.
    + intros H Hc. eapply IH; [exact H|].
      eapply query_controller_has_controller; eauto.
Qed.

Lemma stamped_controller aps t (l : list string) :
  aps = ∅ \/ has_controller aps ->
  foldr (alter (stamp_completed t)) aps l = ∅
  \/ has_controller (foldr (alter (stamp_completed t)) aps l).
Proof.
  intros [->|(k & c & Hk)].
  - left. induction l as [|x l IH]; simpl; [done|].
    rewrite IH. apply map_eq. intros i.
    destruct (decide (x = i)) as [->|Hne].
    + by rewrite lookup_alter_eq, lookup_empty.
    + by rewrite lookup_alter_ne.
  - right. exists k. rewrite lookup_stamped, Hk.
    destruct (decide _); simpl; eauto.
Qed.

Lemma monitor_cycle_summary_inv controllers c st o st' :
  monitor_cycle controllers c st = (o, st') ->
  summary_inv st -> summary_inv st'.
Proof.
  intros E [Hc Hdone Hprev].
  apply monitor_cycle_inv in E as (st1 & Hq & Hst').
  pose proof (query_controllers_carried (fun _ => True) _ _ _ _ _ _ Hq)
    as [Hcomp Hp _ Hstable _ _].
  pose proof (query_controllers_has_controller _ _ _ _ _ _ Hq Hc) as Hc1.
  simpl in Hcomp, Hp, Hstable.
  assert (Hdone1 : forall n, n ∈ completed_aps st1 ->
                     exists a, all_time_aps st1 !! n = Some (ApEntry a)).
  { intros n Hn. rewrite Hcomp in Hn. destruct (Hdone n Hn) as (a & Ha).
    destruct (Hstable n a Ha) as (a' & Ha' & _). eauto. }
  assert (Hprev1 : forall n, n ∈ previous_converting st1 ->
                     exists a, all_time_aps st1 !! n = Some (ApEntry a)).
  { intros n Hn. rewrite Hp in Hn. destruct (Hprev n Hn) as (a & Ha).
    destruct (Hstable n a Ha) as (a' & Ha' & _). eauto. }
  destruct o as [e|]; subst st'.
  - by split.
  - assert (Htr : tracked st1).
    { eapply query_controllers_tracked; [exact Hq|].
      intros n Hn. simpl in Hn. by apply not_elem_of_empty in Hn. }
    assert (Hkeep : forall n a, all_time_aps st1 !! n = Some (ApEntry a) ->
              exists a',
                foldr (alter (stamp_completed (now c))) (all_time_aps st1)
                  (elements (previous_converting st1 ∖ current_converting st1))
                !! n = Some (ApEntry a')).
    { intros n a Ha. rewrite lookup_stamped, Ha.
      destruct (decide _); simpl; eauto. }
    split; simpl.
    + by apply stamped_controller.
    + intros n [Hn|Hn]%elem_of_union.
      * destruct (Hdone1 n Hn) as (a & Ha). eauto.
      * apply elem_of_difference in Hn as [Hn _].
        destruct (Hprev1 n Hn) as (a & Ha). eauto.
    + intros n Hn. destruct (Htr n Hn) as (a & Ha). eauto.
Qed.

Lemma monitor_loop_summary_inv controllers cycles st :
  summary_inv st -> summary_inv (monitor_loop controllers cycles st).2.
Proof.
  revert st. induction cycles as [|c cycles IH]; intros st Hinv; simpl; [done|].
  destruct (monitor_cycle controllers c st) as [[e|] st1] eqn:E; simpl.
  - eapply monitor_cycle_summary_inv; eauto.
  - apply IH. eapply monitor_cycle_summary_inv; eauto.
Qed.

Lemma initial_summary_inv : summary_inv initial_state.
Proof.
  split; simpl.
  - by left.
  - intros n []%not_elem_of_empty.
  - intros n []%not_elem_of_empty.
Qed.

Lemma summary_inv_not_all_converted st :
  summary_inv st -> all_converted st = false.
Proof.
  intros [Hc Hdone _]. unfold all_converted.
  destruct Hc as [->|(k & c & Hk)].
  - rewrite map_size_empty. by rewrite bool_decide_eq_false_2 by lia.
  - apply andb_false_iff. right. apply bool_decide_eq_false_2.
    assert (Hsub : completed_aps st ⊂ dom (all_time_aps st)).
    { split.
      - intros n Hn. destruct (Hdone n Hn) as (a & Ha).
        apply elem_of_dom. eauto.
      - intros Hall.
        assert (Hk' : k ∈ completed_aps st).
        { apply Hall, elem_of_dom. eauto. }
        destruct (Hdone k Hk') as (a & Ha). congruence. }
    apply subset_size in Hsub. rewrite size_dom in Hsub. lia.
Qed.

(** The AP loop raises when one of its APs is named like a key that holds
    a controller's dict. *)
Lemma track_aps_clash t cn (l : list converting_ap) ap st c :
  ap ∈ l ->
  all_time_aps st !! ap_name ap = Some (ControllerEntry c) ->
  exists key st', track_aps t cn l st = (Some (KeyError key), st').
Proof.
  revert st c. induction l as [|x l IH]; intros st c Hin Hk.
  - by apply elem_of_nil in Hin.
  - simpl. destruct (track_ap t cn x st) as [[[key]|] st1] eqn:E; [eauto|].
    apply elem_of_cons in Hin as [<-|Hin].
    + apply track_ap_inv in E as (_ & _ & _ & _ & e' & _ & He).
      rewrite Hk in He. by destruct He.
    + destruct (track_ap_controller_stable _ _ _ _ _ _ E _ _ Hk) as (c1 & Hk1).
      eapply IH; eauto.
Qed.

End FinalSummary.

(** An AP reported under the name of the controller that reports it always
    makes the query raise [KeyError], wherever the AP stands in the list:
    the tracker has just put the controller's dict under that name, the APs
    before it leave a controller's dict there, and the AP loop reads
    ['status_history'] from it. *)
Theorem ap_named_like_its_controller_raises t c ap converting_aps summary st :
  ap ∈ converting_aps ->
  ap_name ap = name c ->
  exists key st',
    query_controller t c (Some (converting_aps, summary)) st
    = (Some (KeyError key), st').
Proof.
  intros Hin Hname. unfold query_controller.
  destruct (track_conversion_progress (name c) summary (all_time_aps st))
    as [[key]|[cd aps']] eqn:Et; [eauto|].
  apply track_inv in Et as (cd0 & _ & -> & _).
  eapply track_aps_clash; [exact Hin|].
  simpl. rewrite Hname. apply lookup_insert_eq.
Qed.

Lemma ap_named_like_its_controller_raises_witness :
  (ap_named_mc1 ∈ [ap1; ap_named_mc1] /\ ap_name ap_named_mc1 = name mc1)
  /\ exists key st',
       query_controller 100 mc1 (Some ([ap1; ap_named_mc1], active_summary 2))
         initial_state
       = (Some (KeyError key), st').
Proof.
  assert (H1 : ap_named_mc1 ∈ [ap1; ap_named_mc1]).
  { apply list_elem_of_further, list_elem_of_here. }
  assert (H2 : ap_name ap_named_mc1 = name mc1).
  { vm_compute. reflexivity. }
  exact (conj (conj H1 H2)
           (ap_named_like_its_controller_raises 100 mc1 ap_named_mc1
              [ap1; ap_named_mc1] (active_summary 2) initial_state H1 H2)).
Defined.

(** The final summary never announces that all access points have
    completed conversion. The dict whose size the test compares with the
    number of completed APs also holds one dict per controller tracked, and
    no controller's key is ever in the completed set; so after every
    monitoring run, stopped by the operator or by an error, the two sizes
    differ or the dict is empty. *)
Theorem all_converted_is_never_announced controllers cycles :
  all_converted (monitor_ap_conversion controllers cycles).2 = false
  /\ forall st,
       summary_inv st ->
       all_converted (monitor_loop controllers cycles st).2 = false.
Proof.
  split.
  - apply summary_inv_not_all_converted. unfold monitor_ap_conversion.
    destruct controllers; [apply initial_summary_inv|].
    apply monitor_loop_summary_inv, initial_summary_inv.
  - intros st Hinv.
    by apply summary_inv_not_all_converted, monitor_loop_summary_inv.
Qed.

End MonitorProperties.

(** * Properties of the orchestration workflows *)

Module OrchestrationProperties.

Import FleetDirectory Orchestration OrchestrationExamples
  DirectoryProperties.

Section Combinators.

Context (P : globals_type -> globals_type -> list event -> Prop) `{!Closed P}.

Local Abbreviation I := (advances P).

Lemma advances_refl st : I st st.
Proof.
  split; [done|]. exists []. rewrite app_nil_r. split; [done | apply closed_nil].
Qed.

Lemma advances_trans st1 st2 st3 : I st1 st2 -> I st2 st3 -> I st1 st3.
Proof.
  intros (Hs1 & l1 & Ht1 & Hq1) (Hs2 & l2 & Ht2 & Hq2).
  split; [congruence|].
  exists (l1 ++ l2)%list. rewrite Ht2, Ht1, app_assoc. split; [done|].
  by eapply closed_app.
Qed.

Lemma advances_log e st :
  (forall g, P g g [e]) -> I st (log e st).
Proof. intros He. split; [done|]. exists [e]. split; [done | apply He]. Qed.

Lemma advances_script st st' :
  stored_md_switches st' = stored_md_switches st ->
  globals st' = globals st -> trace st' = trace st -> I st st'.
Proof.
  intros Hs Hg Ht. split; [done|]. exists []. rewrite app_nil_r, Hg.
  split; [done | apply closed_nil].
Qed.

Lemma keeps_ret {A} (a : A) : keeps I (mret a).
Proof. intros st. apply advances_refl. Qed.

Lemma keeps_raise {A} e : keeps I (@raise A e).
Proof. intros st. apply advances_refl. Qed.

Lemma keeps_get {A} (f : state -> A) : keeps I (get f).
Proof. intros st. apply advances_refl. Qed.

Lemma keeps_bind {A B} (m : M A) (k : A -> M B) :
  keeps I m -> (forall a, keeps I (k a)) -> keeps I (m ≫= k).
Proof.
  intros Hm Hk st. unfold mbind, M_bind, bind. specialize (Hm st).
  destruct (m st) as [[a|e] st1]; simpl in *; [|done].
  eapply advances_trans; [exact Hm | apply Hk].
Qed.

Lemma keeps_print m : (forall g, P g g [Print m]) -> keeps I (print m).
Proof. intros H st. by apply advances_log. Qed.

Lemma keeps_close ip : (forall g, P g g [Close ip]) -> keeps I (close ip).
Proof. intros H st. by apply advances_log. Qed.

Lemma keeps_ssh_to_mm ip :
  (forall ok g, P g g [Connect ip ok]) -> keeps I (ssh_to_mm ip).
Proof.
  intros H st. unfold ssh_to_mm. simpl.
  eapply advances_trans; [|apply advances_log, H]. by apply advances_script.
Qed.

Lemma keeps_send ip command wait_time :
  (forall output g, P g g [Command ip command wait_time output]) ->
  keeps I (send_ssh_command ip command wait_time).
Proof.
  intros H st. unfold send_ssh_command.
  assert (I st (log (Command ip command wait_time
                       (default (Some "") (head (responses st))))
                    (with_responses (tail (responses st)) st))).
  { eapply advances_trans; [|apply advances_log, H]. by apply advances_script. }
  by destruct (default (Some "") (head (responses st))).
Qed.

Lemma keeps_input : (forall line g, P g g [Input line]) -> keeps I input.
Proof.
  intros H st. unfold input. destruct (inputs st) as [|line rest] eqn:E; simpl.
  - apply advances_refl.
  - eapply advances_trans; [|apply advances_log, H]. by apply advances_script.
Qed.

Lemma keeps_modify (f : state -> state) :
  (forall st, stored_md_switches (f st) = stored_md_switches st
              /\ trace (f st) = trace st
              /\ P (globals st) (globals (f st)) []) ->
  keeps I (modify f).
Proof.
  intros H st. destruct (H st) as (Hs & Ht & Hp). split; [done|].
  exists []. by rewrite app_nil_r.
Qed.

Lemma keeps_try_except_finally {A} (body : M A) handler final :
  keeps I body -> (forall e, keeps I (handler e)) -> keeps I final ->
  keeps I (try_except_finally body handler final).
Proof.
  intros Hb Hh Hf st. unfold try_except_finally. specialize (Hb st).
  destruct (body st) as [[a|e] st1]; simpl in *.
  - specialize (Hf st1). destruct (final st1) as [[[]|e] st2]; simpl in *;
      eapply advances_trans; eauto.
  - specialize (Hh e st1). destruct (handler e st1) as [o st2]. simpl in *.
    specialize (Hf st2). destruct (final st2) as [[[]|e'] st3]; simpl in *;
      eapply advances_trans; eauto using advances_trans.
Qed.

Lemma keeps_try_except {A} (body : M A) handler :
  keeps I body -> (forall e, keeps I (handler e)) ->
  keeps I (try_except body handler).
Proof.
  intros Hb Hh st. unfold try_except. specialize (Hb st).
  destruct (body st) as [[a|e] st1]; simpl in *; [done|].
  eapply advances_trans; [exact Hb | apply Hh].
Qed.

Lemma keeps_for_each {A B} (body : A -> B -> M B) l acc :
  (forall x b, keeps I (body x b)) -> keeps I (for_each body l acc).
Proof.
  intros Hb. revert acc. induction l as [|x l IH]; intros acc; simpl.
  - apply keeps_ret.
  - apply keeps_bind; [apply Hb | intros b; apply IH].
Qed.

End Combinators.

(** One step of a proof that a program keeps a relation: peel the outermost
    construct. *)
Ltac closed := try (solve [apply _]).

Ltac keeps_step :=
  lazymatch goal with
  | |- keeps _ (mret _) => apply keeps_ret; closed
  | |- keeps _ (raise _) => apply keeps_raise; closed
  | |- keeps _ (get _) => apply keeps_get; closed
  | |- keeps _ (print _) => apply keeps_print; closed; intros ?
  | |- keeps _ (close _) => apply keeps_close; closed; intros ?
  | |- keeps _ (ssh_to_mm _) => apply keeps_ssh_to_mm; closed; intros ? ?
  | |- keeps _ (send_ssh_command _ _ _) => apply keeps_send; closed; intros ? ?
  | |- keeps _ input => apply keeps_input; closed; intros ? ?
  | |- keeps _ (modify _) => apply keeps_modify; intros ?
  | |- keeps _ (for_each _ _ _) => apply keeps_for_each; closed; intros ? ?
  | |- keeps _ (try_except_finally _ _ _) =>
      apply keeps_try_except_finally; closed; [|intros ?|]
  | |- keeps _ (try_except _ _) => apply keeps_try_except; closed; [|intros ?]
  | |- keeps _ (_ ≫= _) => apply keeps_bind; closed; [|intros ?]
  | |- keeps _ (if ?b then _ else _) => destruct b
  | |- keeps _ (match ?x with _ => _ end) => destruct x
  end.

Lemma commands_app l1 l2 : commands (l1 ++ l2) = (commands l1 ++ commands l2)%list.
Proof. apply omap_app. Qed.

Lemma printed_app l1 l2 : printed (l1 ++ l2) = (printed l1 ++ printed l2)%list.
Proof. apply omap_app. Qed.

Lemma globals_inv st st' :
  globals st' = globals st ->
  selected_cluster st' = selected_cluster st
  /\ selected_ap_groups st' = selected_ap_groups st
  /\ prep_migration_target st' = prep_migration_target st.
Proof. unfold globals. by intros [= -> -> ->]. Qed.

Lemma completed_names_app l1 l2 :
  completed_names (l1 ++ l2) = (completed_names l1 ++ completed_names l2)%list.
Proof. apply omap_app. Qed.

Lemma answered_once_app pending l1 l2 :
  answered_once pending l1 = true -> answered_once None l2 = true ->
  answered_once pending (l1 ++ l2) = true.
Proof.
  revert pending. induction l1 as [|[[ip command] output] l1 IH]; intros pending; simpl.
  - by destruct pending.
  - destruct pending as [asking|].
    + intros [[-> ->]%andb_prop H1]%andb_prop H2. simpl. auto.
    + intros [-> H1]%andb_prop H2. simpl. auto.
Qed.

#[global] Instance unchanged_closed P : ClosedEvents P -> Closed (unchanged P).
Proof.
  intros []. split.
  - by split.
  - intros g1 g2 g3 l1 l2 [-> ?] [-> ?]. split; auto.
Qed.

#[global] Instance answered_closed : ClosedEvents answered.
Proof.
  split; [done|]. intros l1 l2 H1 H2. unfold answered. rewrite commands_app.
  by apply answered_once_app.
Qed.

#[global] Instance forallb_closed (Q : event -> bool) :
  ClosedEvents (fun l => forallb Q l = true).
Proof.
  split; [done|]. intros l1 l2 H1 H2. by rewrite forallb_app, H1, H2.
Qed.

#[global] Instance and_closed P1 P2 :
  ClosedEvents P1 -> ClosedEvents P2 -> ClosedEvents (fun l => P1 l /\ P2 l).
Proof.
  intros [] []. split; [done|]. intros l1 l2 [] []. split; auto.
Qed.

Section WeakestPre.

Lemma wp_ret {A} (a : A) Post st : Post (Ret a) st -> wp (mret a) Post st.
Proof. done. Qed.

Lemma wp_raise {A} e (Post : outcome A -> state -> Prop) st :
  Post (Exc e) st -> wp (raise e) Post st.
Proof. done. Qed.

Lemma wp_get {A} (f : state -> A) Post st :
  Post (Ret (f st)) st -> wp (get f) Post st.
Proof. done. Qed.

Lemma wp_modify f Post st : Post (Ret tt) (f st) -> wp (modify f) Post st.
Proof. done. Qed.

Lemma wp_print m Post st :
  Post (Ret tt) (log (Print m) st) -> wp (print m) Post st.
Proof. done. Qed.

Lemma wp_close ip Post st :
  Post (Ret tt) (log (Close ip) st) -> wp (close ip) Post st.
Proof. done. Qed.

Lemma wp_bind {A B} (m : M A) (k : A -> M B) Post st :
  wp m (fun o st1 =>
          match o with
          | Ret a => wp (k a) Post st1
          | Exc e => Post (Exc e) st1
          end) st ->
  wp (m ≫= k) Post st.
Proof.
  unfold wp, mbind, M_bind, bind. by destruct (m st) as [[a|e] st1].
Qed.

Lemma wp_ssh_to_mm ip Post st :
  (forall ok rest, Post (Ret ok) (log (Connect ip ok) (with_connects rest st))) ->
  wp (ssh_to_mm ip) Post st.
Proof. intros H. apply H. Qed.

Lemma wp_send ip command wait_time Post st :
  (forall output rest,
      Post (Ret output)
        (log (Command ip command wait_time (Some output))
             (with_responses rest st))) ->
  (forall rest,
      Post (Exc ChannelError)
        (log (Command ip command wait_time None) (with_responses rest st))) ->
  wp (send_ssh_command ip command wait_time) Post st.
Proof.
  intros Hret Hexc. unfold wp, send_ssh_command.
  destruct (default (Some "") (head (responses st))); [apply Hret | apply Hexc].
Qed.

Lemma wp_input Post st :
  (forall line rest,
      inputs st = line :: rest ->
      Post (Ret line) (log (Input line) (with_inputs rest st))) ->
  (inputs st = [] -> Post (Exc EOFError) st) ->
  wp input Post st.
Proof.
  intros Hret Hexc. unfold wp, input.
  destruct (inputs st) as [|line rest]; [by apply Hexc | by apply Hret].
Qed.

Lemma wp_try_except_finally {A} (body : M A) handler final Post st :
  wp body (fun o st1 =>
    match o with
    | Ret a =>
        wp final (fun o2 st2 =>
          match o2 with
          | Ret _ => Post (Ret a) st2
          | Exc e => Post (Exc e) st2
          end) st1
    | Exc e =>
        wp (handler e) (fun o1 st2 =>
          wp final (fun o2 st3 =>
            match o2 with
            | Ret _ => Post o1 st3
            | Exc e => Post (Exc e) st3
            end) st2) st1
    end) st ->
  wp (try_except_finally body handler final) Post st.
Proof.
  unfold wp, try_except_finally.
  destruct (body st) as [[a|e] st1]; simpl.
  - by destruct (final st1) as [[[]|e] st2].
  - destruct (handler e st1) as [o1 st2]. simpl.
    by destruct (final st2) as [[[]|e'] st3].
Qed.

Lemma wp_try_except {A} (body : M A) handler Post st :
  wp body (fun o st1 =>
    match o with
    | Ret a => Post (Ret a) st1
    | Exc e => wp (handler e) Post st1
    end) st ->
  wp (try_except body handler) Post st.
Proof.
  unfold wp, try_except. by destruct (body st) as [[a|e] st1].
Qed.

Lemma wp_mono {A} (m : M A) (Post Post' : outcome A -> state -> Prop) st :
  wp m Post st -> (forall o st', Post o st' -> Post' o st') -> wp m Post' st.
Proof. unfold wp. auto. Qed.

Lemma wp_keeps {A} (m : M A) (I : relation state) st :
  keeps I m -> wp m (fun _ st' => I st st') st.
Proof. intros H. apply H. Qed.

End WeakestPre.

(** One step of symbolic execution. *)
Ltac wp_step :=
  lazymatch goal with
  | |- wp (mret _) _ _ => apply wp_ret
  | |- wp (raise _) _ _ => apply wp_raise
  | |- wp (get _) _ _ => apply wp_get
  | |- wp (modify _) _ _ => apply wp_modify
  | |- wp (print _) _ _ => apply wp_print
  | |- wp (close _) _ _ => apply wp_close
  | |- wp (ssh_to_mm _) _ _ => apply wp_ssh_to_mm; intros ? ?
  | |- wp (send_ssh_command _ _ _) _ _ => apply wp_send; [intros ? ?|intros ?]
  | |- wp input _ _ => apply wp_input; [intros ? ? ?|intros ?]
  | |- wp (try_except_finally _ _ _) _ _ => apply wp_try_except_finally
  | |- wp (try_except _ _) _ _ => apply wp_try_except
  | |- wp (_ ≫= _) _ _ => apply wp_bind
  | |- wp (if ?b then _ else _) _ _ => destruct b eqn:?
  | |- wp (match ?x with _ => _ end) _ _ => destruct x eqn:?
  | |- wp (match ?x with _ => _ end _) _ _ => destruct x eqn:?
  end.

Lemma wp_of_keeps {A} (m : M A) P (Post : outcome A -> state -> Prop) st :
  keeps (advances P) m ->
  (forall o st' l,
      stored_md_switches st' = stored_md_switches st ->
      trace st' = (trace st ++ l)%list ->
      P (globals st) (globals st') l ->
      Post o st') ->
  wp m Post st.
Proof.
  intros Hk HPost. unfold wp. destruct (Hk st) as (Hs & l & Ht & Hp). eauto.
Qed.

(** Close the side condition of a [keeps] step for one event. *)
Ltac one_event :=
  first [ by repeat split
        | repeat split; reflexivity ].

Ltac keeps_auto := repeat (keeps_step; try one_event).

#[global] Instance quiet_closed : ClosedEvents quiet.
Proof.
  split; [done|]. intros l1 l2 [A1 C1] [A2 C2]. split.
  - by apply answered_closed.
  - by rewrite completed_names_app, C1, C2.
Qed.

Section Cleanup.

Variable db : database.

Lemma cleanup_on_controller_spec c s f st :
  exists s' f' l,
    ((cleanup_on_controller c (s, f) st).1, (cleanup_on_controller c (s, f) st).2)
    = (Ret (s', f'), (cleanup_on_controller c (s, f) st).2)
    /\ stored_md_switches (cleanup_on_controller c (s, f) st).2 = stored_md_switches st
    /\ globals (cleanup_on_controller c (s, f) st).2 = globals st
    /\ trace (cleanup_on_controller c (s, f) st).2 = (trace st ++ l)%list
    /\ answered_once None (commands l) = true
    /\ Forall (phase1_command (ip_address c)) (commands l)
    /\ forallb outside_phase2 l = true
    /\ (s' = S s /\ f' = f /\ completed_names l = [name c]
        \/ s' = s /\ f' = (f ++ [name c])%list /\ completed_names l = []).
Proof.
  change (wp (cleanup_on_controller c (s, f))
            (fun o st' => exists s' f' l,
               (o, st') = (Ret (s', f'), st')
               /\ stored_md_switches st' = stored_md_switches st
               /\ globals st' = globals st
               /\ trace st' = (trace st ++ l)%list
               /\ answered_once None (commands l) = true
               /\ Forall (phase1_command (ip_address c)) (commands l)
               /\ forallb outside_phase2 l = true
               /\ (s' = S s /\ f' = f /\ completed_names l = [name c]
                   \/ s' = s /\ f' = (f ++ [name c])%list
                      /\ completed_names l = [])) st).
  unfold cleanup_on_controller, answer_prompt.
  repeat wp_step.
  all: do 3 eexists; split; [reflexivity|]; split; [reflexivity|];
    split; [reflexivity|];
    split; [simpl; rewrite <- ?app_assoc; reflexivity|]; simpl;
    rewrite ?String.eqb_refl;
    repeat match goal with
           | H : Py.contains _ _ = _ |- _ => rewrite H; clear H
           end;
    simpl; rewrite ?String.eqb_refl.
  all: split; [reflexivity|].
  all: split;
    [repeat (apply Forall_cons; split;
             [split;
              [reflexivity
              |simpl; first [left; reflexivity
                            |right; left; reflexivity
                            |right; right; reflexivity]]|]);
     apply Forall_nil|].
  all: try (split; [reflexivity|]).
  all: auto.
Qed.

Lemma phase1_wp controllers acc st (Post : outcome (nat * list string) -> state -> Prop) :
  (forall s' f' l bad st',
      stored_md_switches st' = stored_md_switches st ->
      globals st' = globals st ->
      trace st' = (trace st ++ l)%list ->
      answered l ->
      forallb outside_phase2 l = true ->
      s' = (acc.1 + length (completed_names l))%nat ->
      f' = (acc.2 ++ bad)%list ->
      (length (completed_names l) + length bad)%nat = length controllers ->
      completed_names l `sublist_of` map name controllers ->
      bad `sublist_of` map name controllers ->
      Post (Ret (s', f')) st') ->
  wp (for_each cleanup_on_controller controllers acc) Post st.
Proof.
  revert acc st Post.
  induction controllers as [|c controllers IH]; intros [s f] st Post HPost.
  - simpl. apply wp_ret. apply (HPost s f [] []); simpl; try done.
    all: rewrite ?app_nil_r; try done; lia.
  - simpl. apply wp_bind.
    destruct (cleanup_on_controller_spec c s f st)
      as (s1 & f1 & l1 & Hrun & Hs1 & Hg1 & Ht1 & Ha1 & _ & Ho1 & Hcase).
    unfold wp at 1. injection Hrun as ->.
    apply IH. intros s' f' l bad st' Hs Hg Ht Ha Ho -> -> Hlen Hsub Hbad.
    simpl in *.
    destruct Hcase as [(-> & -> & Hc1)|(-> & -> & Hc1)].
    + apply (HPost _ _ (l1 ++ l)%list bad); simpl.
      * congruence.
      * congruence.
      * by rewrite Ht, Ht1, app_assoc.
      * by apply answered_closed.
      * by rewrite forallb_app, Ho1, Ho.
      * rewrite completed_names_app, Hc1. simpl. lia.
      * done.
      * rewrite completed_names_app, Hc1. simpl. lia.
      * rewrite completed_names_app, Hc1. simpl. by apply sublist_skip.
      * by apply sublist_cons.
    + apply (HPost _ _ (l1 ++ l)%list (name c :: bad)); simpl.
      * congruence.
      * congruence.
      * by rewrite Ht, Ht1, app_assoc.
      * by apply answered_closed.
      * by rewrite forallb_app, Ho1, Ho.
      * rewrite completed_names_app, Hc1. simpl. lia.
      * by rewrite <- app_assoc.
      * rewrite completed_names_app, Hc1. simpl. lia.
      * rewrite completed_names_app, Hc1. simpl. by apply sublist_cons.
      * by apply sublist_skip.
Qed.

Lemma restore_cluster_quiet mm_ip target flag :
  keeps (advances (unchanged quiet)) (restore_cluster mm_ip target flag).
Proof. unfold restore_cluster. keeps_auto. Qed.

Lemma no_final_save l :
  forallb (fun e => negb (is_final_save e)) l = true ->
  MsgFinalSave ∉ printed l.
Proof.
  induction l as [|e l IH]; simpl; [intros _; apply not_elem_of_nil|].
  intros [He Hl]%andb_prop. specialize (IH Hl).
  destruct e as [| | | |[]]; simpl in *; try done.
  all: rewrite not_elem_of_cons; done.
Qed.

Lemma restore_cluster_wp mm_ip target flag st
    (Post : outcome bool -> state -> Prop) :
  (forall o l st',
      stored_md_switches st' = stored_md_switches st ->
      globals st' = globals st ->
      trace st' = (trace st ++ l)%list ->
      quiet l ->
      restoring l = [target] ->
      MsgFinalSave ∉ printed l ->
      Post o st') ->
  wp (restore_cluster mm_ip target flag) Post st.
Proof.
  intros HPost. destruct target as [cluster_name nodepath].
  assert (H2 : wp (restore_cluster mm_ip (cluster_name, nodepath) flag)
                 (fun o st' => exists l,
                    trace st' = (trace st ++ l)%list
                    /\ restoring l = [(cluster_name, nodepath)]
                    /\ forallb (fun e => negb (is_final_save e)) l = true) st).
  { unfold restore_cluster. repeat wp_step.
    all: simpl; eexists;
      (split; [rewrite <- ?app_assoc; reflexivity|]);
      split; reflexivity. }
  destruct (restore_cluster_quiet mm_ip (cluster_name, nodepath) flag st)
    as (Hs & l & Ht & Hg & Hq).
  unfold wp in *. destruct H2 as (l' & Ht' & Hr & Hf).
  rewrite Ht in Ht'. apply app_inv_head in Ht' as <-.
  apply (HPost _ l); try done. by apply no_final_save.
Qed.

Lemma restore_loop_wp mm_ip targets flag st
    (Post : outcome bool -> state -> Prop) :
  (forall o l st',
      stored_md_switches st' = stored_md_switches st ->
      globals st' = globals st ->
      trace st' = (trace st ++ l)%list ->
      quiet l ->
      restoring l `prefix_of` targets ->
      (forall b, o = Ret b -> restoring l = targets) ->
      MsgFinalSave ∉ printed l ->
      Post o st') ->
  wp (for_each (restore_cluster mm_ip) targets flag) Post st.
Proof.
  revert flag st Post.
  induction targets as [|target targets IH]; intros flag st Post HPost; simpl.
  - apply wp_ret. apply (HPost _ []); simpl; rewrite ?app_nil_r; try done.
    apply not_elem_of_nil.
  - apply wp_bind. apply restore_cluster_wp.
    intros o1 l1 st1 Hs1 Hg1 Ht1 Hq1 Hr1 Hf1. destruct o1 as [b1|e1].
    + apply IH. intros o2 l2 st2 Hs2 Hg2 Ht2 Hq2 Hr2 Hall2 Hf2.
      apply (HPost _ (l1 ++ l2)%list).
      * congruence.
      * congruence.
      * by rewrite Ht2, Ht1, app_assoc.
      * by apply (events_app (P := quiet)).
      * unfold restoring in *. rewrite omap_app, Hr1. simpl.
        by apply prefix_cons.
      * intros b ->. unfold restoring in *. rewrite omap_app, Hr1. simpl.
        f_equal. eauto.
      * rewrite printed_app, elem_of_app. tauto.
    + apply (HPost _ l1); try done.
      rewrite Hr1. apply prefix_cons, prefix_nil.
Qed.

Lemma restoration_targets_wp st (Post : outcome (list (string * string)) -> state -> Prop) :
  (forall l st',
      stored_md_switches st' = stored_md_switches st ->
      globals st' = globals st ->
      trace st' = (trace st ++ l)%list ->
      quiet l -> commands l = [] ->
      forallb outside_phase2 l = true ->
      (forall m, announcement db (prep_migration_target st) = Some m ->
                 m ∈ printed l) ->
      Post (Ret (targets_for db (prep_migration_target st))) st') ->
  wp (restoration_targets db) Post st.
Proof.
  intros HPost. unfold restoration_targets.
  wp_step. wp_step.
  destruct (prep_migration_target st) as [[np cl]|] eqn:Et.
  - repeat wp_step. eapply HPost; simpl; try done.
    intros m [= <-]. apply list_elem_of_here.
  - wp_step.
    destruct (get_all_clusters_with_nodepaths db) as [|x rest] eqn:Ec.
    + repeat wp_step. unfold targets_for, announcement in HPost.
      rewrite Ec in HPost. apply (HPost []); simpl; try done.
      by rewrite app_nil_r.
    + repeat wp_step. unfold targets_for, announcement in HPost.
      rewrite Ec in HPost. eapply HPost; simpl; try done.
      intros m [= <-]. apply list_elem_of_here.
Qed.

Lemma cleanup_summary_wp total success_count failed clusters_info st
    (Post : outcome unit -> state -> Prop) :
  (forall l st',
      stored_md_switches st' = stored_md_switches st ->
      globals st' = globals st ->
      trace st' = (trace st ++ l)%list ->
      quiet l -> commands l = [] ->
      forallb outside_phase2 l = true ->
      MsgSummaryTotal total ∈ printed l ->
      MsgSummarySuccessful success_count ∈ printed l ->
      MsgSummaryFailed (length failed) ∈ printed l ->
      (failed <> [] -> MsgFailedControllers failed ∈ printed l) ->
      Post (Ret tt) st') ->
  wp (cleanup_summary total success_count failed clusters_info) Post st.
Proof.
  intros HPost. unfold cleanup_summary.
  repeat wp_step.
  all: eapply HPost; simpl; rewrite <- ?app_assoc; try done;
    try (intros _); simpl; rewrite ?elem_of_cons; tauto.
Qed.

Lemma restore_lc_clusters_wp mm_ip clusters_info st
    (Post : outcome unit -> state -> Prop) :
  (forall l st',
      stored_md_switches st' = stored_md_switches st ->
      globals st' = globals st ->
      trace st' = (trace st ++ l)%list ->
      quiet l ->
      restoring l `prefix_of` clusters_info ->
      (MsgFinalSave ∈ printed l -> restoring l = clusters_info) ->
      Post (Ret tt) st') ->
  wp (restore_lc_clusters mm_ip clusters_info) Post st.
Proof.
  intros HPost. unfold restore_lc_clusters.
  destruct clusters_info as [|target rest].
  { wp_step. eapply HPost; simpl; try done.
    all: try (intros Hin%list_elem_of_singleton; discriminate). }
  do 3 wp_step.
  { wp_step. eapply HPost; simpl; rewrite <- ?app_assoc; try done.
    all: try apply prefix_nil.
    all: try (intros Hin%list_elem_of_singleton; discriminate). }
  wp_step. wp_step.
  apply restore_loop_wp.
  intros o l1 st1 Hs1 Hg1 Ht1 Hq1 Hr1 Hall1 Hf1. simpl in Hs1, Hg1, Ht1.
  destruct o as [b|e]; repeat wp_step.
  all: eapply HPost; simpl; rewrite ?Hs1, ?Hg1, ?Ht1; rewrite <- ?app_assoc;
    try done.
  all: try (repeat (apply (events_app (P := quiet)); try done)).
  all: unfold restoring in *; rewrite ?omap_app; simpl; rewrite ?app_nil_r;
    try done.
  all: try (intros _; by eauto).
  all: intros Hin; exfalso; revert Hin;
    rewrite !printed_app, !elem_of_app; simpl;
    rewrite ?elem_of_cons, ?elem_of_nil;
    intros Hin; decompose [or] Hin; try done; discriminate.
Qed.

Lemma restoring_outside l :
  forallb outside_phase2 l = true ->
  restoring l = [] /\ MsgFinalSave ∉ printed l.
Proof.
  induction l as [|e l IH]; simpl.
  - split; [done|apply not_elem_of_nil].
  - intros [He Hl]%andb_prop. destruct (IH Hl) as [Hr Hf].
    destruct e as [| | | |[]]; simpl in *; try done.
    all: split; [done|]; rewrite not_elem_of_cons; done.
Qed.

Lemma cleanup_phases_wp mm_ip controllers st (Post : outcome bool -> state -> Prop) :
  (forall l failed st',
      stored_md_switches st' = stored_md_switches st ->
      selected_cluster st' = selected_cluster st ->
      trace st' = (trace st ++ l)%list ->
      answered l ->
      (length (completed_names l) + length failed)%nat = length controllers ->
      completed_names l `sublist_of` map name controllers ->
      failed `sublist_of` map name controllers ->
      restoring l `prefix_of` targets_for db (prep_migration_target st) ->
      (MsgFinalSave ∈ printed l ->
       restoring l = targets_for db (prep_migration_target st)) ->
      (forall m, announcement db (prep_migration_target st) = Some m ->
                 m ∈ printed l) ->
      MsgSummaryTotal (length controllers) ∈ printed l ->
      MsgSummarySuccessful (length (completed_names l)) ∈ printed l ->
      MsgSummaryFailed (length failed) ∈ printed l ->
      (failed <> [] -> MsgFailedControllers failed ∈ printed l) ->
      (if bool_decide (0 < length (completed_names l))%nat
       then selected_ap_groups st' = [] /\ prep_migration_target st' = None
       else selected_ap_groups st' = selected_ap_groups st
            /\ prep_migration_target st' = prep_migration_target st) ->
      Post (Ret (bool_decide (0 < length (completed_names l))%nat)) st') ->
  wp (cleanup_phases db mm_ip controllers) Post st.
Proof.
  intros HPost. unfold cleanup_phases.
  wp_step. apply phase1_wp.
  intros s1 f1 l1 bad st1 Hs1 Hg1 Ht1 Ha1 Ho1 Es Ef Hlen Hsub Hbad. subst s1 f1.
  simpl in *. apply globals_inv in Hg1 as (Hc1 & Hgr1 & Htg1).
  apply restoring_outside in Ho1 as [Hr1 Hf1].
  wp_step. apply restoration_targets_wp.
  intros l2 st2 Hs2 Hg2 Ht2 [Ha2 Hn2] Hcmd2 Ho2 Hann.
  apply globals_inv in Hg2 as (Hc2 & Hgr2 & Htg2).
  apply restoring_outside in Ho2 as [Hr2 Hf2].
  wp_step. apply restore_lc_clusters_wp.
  intros l3 st3 Hs3 Hg3 Ht3 [Ha3 Hn3] Hr3 Hall3.
  apply globals_inv in Hg3 as (Hc3 & Hgr3 & Htg3).
  rewrite Htg1 in Hr3, Hall3.
  wp_step.
  assert (Hnames : completed_names (l1 ++ l2 ++ l3) = completed_names l1).
  { by rewrite !completed_names_app, Hn2, Hn3, !app_nil_r. }
  destruct (bool_decide (0 < length (completed_names l1))%nat) eqn:Hb.
  - repeat wp_step. apply cleanup_summary_wp.
    intros l4 st4 Hs4 Hg4 Ht4 [Ha4 Hn4] Hcmd4 Ho4 H1 H2 H3 H4.
    apply globals_inv in Hg4 as (Hc4 & Hgr4 & Htg4). simpl in *.
    apply restoring_outside in Ho4 as [Hr4 Hf4].
    wp_step.
    assert (Hn : completed_names
                   (l1 ++ l2 ++ l3 ++ [Print MsgSelectionsCleared] ++ l4)
                 = completed_names l1).
    { rewrite !completed_names_app, Hn2, Hn3, Hn4. simpl.
      by rewrite !app_nil_r. }
    assert (Hr : restoring (l1 ++ l2 ++ l3 ++ [Print MsgSelectionsCleared] ++ l4)
                 = restoring l3).
    { unfold restoring in *. rewrite !omap_app, Hr1, Hr2, Hr4. simpl.
      by rewrite !app_nil_r. }
    pose proof (HPost (l1 ++ l2 ++ l3 ++ [Print MsgSelectionsCleared] ++ l4)%list
                  bad st4) as HP.
    rewrite Hn, Hr, Hb in HP. apply HP; try done.
    + congruence.
    + congruence.
    + rewrite Ht4, Ht3, Ht2, Ht1. by rewrite <- !app_assoc.
    + repeat (apply (events_app (P := answered)); try done).
    + rewrite !printed_app, !elem_of_app. simpl.
      rewrite ?elem_of_cons, ?elem_of_nil.
      intros Hin. apply Hall3. decompose [or] Hin; done.
    + rewrite Htg1 in Hann. intros m Hm. specialize (Hann m Hm).
      rewrite !printed_app, !elem_of_app. tauto.
    + rewrite !printed_app, !elem_of_app. tauto.
    + rewrite !printed_app, !elem_of_app. tauto.
    + rewrite !printed_app, !elem_of_app. tauto.
    + intros Hne. specialize (H4 Hne). rewrite !printed_app, !elem_of_app. tauto.
  - repeat wp_step. apply cleanup_summary_wp.
    intros l4 st4 Hs4 Hg4 Ht4 [Ha4 Hn4] Hcmd4 Ho4 H1 H2 H3 H4.
    apply globals_inv in Hg4 as (Hc4 & Hgr4 & Htg4). simpl in *.
    apply restoring_outside in Ho4 as [Hr4 Hf4].
    wp_step.
    assert (Hn : completed_names (l1 ++ l2 ++ l3 ++ l4) = completed_names l1).
    { rewrite !completed_names_app, Hn2, Hn3, Hn4. by rewrite !app_nil_r. }
    assert (Hr : restoring (l1 ++ l2 ++ l3 ++ l4) = restoring l3).
    { unfold restoring in *. rewrite !omap_app, Hr1, Hr2, Hr4.
      by rewrite !app_nil_r. }
    pose proof (HPost (l1 ++ l2 ++ l3 ++ l4)%list bad st4) as HP.
    rewrite Hn, Hr, Hb in HP. apply HP; try done.
    + congruence.
    + congruence.
    + rewrite Ht4, Ht3, Ht2, Ht1. by rewrite <- !app_assoc.
    + repeat (apply (events_app (P := answered)); try done).
    + rewrite !printed_app, !elem_of_app.
      intros Hin. apply Hall3. decompose [or] Hin; done.
    + rewrite Htg1 in Hann. intros m Hm. specialize (Hann m Hm).
      rewrite !printed_app, !elem_of_app. tauto.
    + rewrite !printed_app, !elem_of_app. tauto.
    + rewrite !printed_app, !elem_of_app. tauto.
    + rewrite !printed_app, !elem_of_app. tauto.
    + intros Hne. specialize (H4 Hne). rewrite !printed_app, !elem_of_app. tauto.
    + split; congruence.
Qed.

Lemma cleanup_ap_convert_spec mm_ip st :
  let o := (cleanup_ap_convert db mm_ip st).1 in
  let st' := (cleanup_ap_convert db mm_ip st).2 in
  stored_md_switches st' = stored_md_switches st
  /\ selected_cluster st' = selected_cluster st
  /\ exists l,
       trace st' = (trace st ++ l)%list
       /\ answered l
       /\ (cleanup_declined db st o st' l
           \/ exists failed, cleanup_ran db st o st' l failed).
Proof.
  change (wp (cleanup_ap_convert db mm_ip)
            (fun o st' =>
               stored_md_switches st' = stored_md_switches st
               /\ selected_cluster st' = selected_cluster st
               /\ exists l,
                    trace st' = (trace st ++ l)%list
                    /\ answered l
                    /\ (cleanup_declined db st o st' l
                        \/ exists failed, cleanup_ran db st o st' l failed)) st).
  unfold cleanup_ap_convert.
  destruct (get_all_controllers db) as [|c0 cs] eqn:Ecs.
  { repeat wp_step. do 2 (split; [done|]). eexists. split; [done|].
    split; [done|]. left. split; auto. }
  rewrite <- Ecs.
  repeat wp_step.
  all: try (do 2 (split; [done|]); eexists;
            split; [simpl; rewrite <- ?app_assoc; done|];
            split; [done|]; left; simpl in *;
            split; auto;
            first [ by right; left
                  | right; right; do 2 eexists;
                    split; [eassumption | by apply negb_true_iff] ]).
  all: apply cleanup_phases_wp;
    intros lr failed st' Hs Hc Ht Ha Hlen Hsub Hbad Hr Hall Hann H1 H2 H3 H4 Hg;
    simpl in *;
    (split; [done|]); (split; [done|]);
    eexists; (split; [by rewrite Ht, <- ?app_assoc|]);
    (split; [by repeat (apply (events_app (P := answered)); try done)|]);
    right; exists failed.
  all: split; unfold completed_names, printed, restoring in *; simpl in *;
    rewrite ?elem_of_cons; eauto; try congruence.
  all: try (intros Hin; apply Hall; rewrite ?elem_of_cons in Hin;
            decompose [or] Hin; done).
  all: try (intros m Hm; rewrite ?elem_of_cons; eauto).
  all: try (intros Hne; rewrite ?elem_of_cons; eauto).
Qed.

End Cleanup.

Lemma activated_app l1 l2 : activated (l1 ++ l2) = (activated l1 ++ activated l2)%list.
Proof. apply omap_app. Qed.

Lemma added_on_app l1 l2 : added_on (l1 ++ l2) = (added_on l1 ++ added_on l2)%list.
Proof. apply omap_app. Qed.

Section HostLoops.

Lemma init_on_controller_wp command c s st (Post : outcome nat -> state -> Prop) :
  (forall s' l st',
      stored_md_switches st' = stored_md_switches st ->
      globals st' = globals st ->
      trace st' = (trace st ++ l)%list ->
      s' = (s + length (activated l))%nat ->
      (length (activated l) <= 1)%nat ->
      Post (Ret s') st') ->
  wp (init_on_controller command c s) Post st.
Proof.
  intros HPost. unfold init_on_controller.
  repeat wp_step.
  all: eapply HPost; [reflexivity|reflexivity
                     |simpl; rewrite <- ?app_assoc; reflexivity
                     |simpl; lia|simpl; lia].
Qed.

Lemma init_loop_wp command controllers s st (Post : outcome nat -> state -> Prop) :
  (forall s' l st',
      stored_md_switches st' = stored_md_switches st ->
      globals st' = globals st ->
      trace st' = (trace st ++ l)%list ->
      s' = (s + length (activated l))%nat ->
      (length (activated l) <= length controllers)%nat ->
      Post (Ret s') st') ->
  wp (for_each (init_on_controller command) controllers s) Post st.
Proof.
  revert s st Post.
  induction controllers as [|c controllers IH]; intros s st Post HPost; simpl.
  - apply wp_ret. apply (HPost s []); simpl; rewrite ?app_nil_r; try done; lia.
  - apply wp_bind. apply init_on_controller_wp.
    intros s1 l1 st1 Hs1 Hg1 Ht1 -> Hle1.
    apply IH. intros s2 l2 st2 Hs2 Hg2 Ht2 -> Hle2.
    apply (HPost _ (l1 ++ l2)%list).
    + congruence.
    + congruence.
    + by rewrite Ht2, Ht1, app_assoc.
    + rewrite activated_app, length_app. lia.
    + rewrite activated_app, length_app. simpl. lia.
Qed.

Lemma add_on_controller_wp command c s st (Post : outcome nat -> state -> Prop) :
  (forall s' l st',
      stored_md_switches st' = stored_md_switches st ->
      globals st' = globals st ->
      trace st' = (trace st ++ l)%list ->
      s' = (s + length (added_on l))%nat ->
      added_on l `sublist_of` [name c] ->
      Post (Ret s') st') ->
  wp (add_on_controller command c s) Post st.
Proof.
  intros HPost. unfold add_on_controller.
  repeat wp_step.
  all: eapply HPost; [reflexivity|reflexivity
                     |simpl; rewrite <- ?app_assoc; reflexivity
                     |simpl; lia|simpl].
  all: first [reflexivity | apply sublist_nil_l].
Qed.

Lemma add_loop_wp command controllers s st (Post : outcome nat -> state -> Prop) :
  (forall s' l st',
      stored_md_switches st' = stored_md_switches st ->
      globals st' = globals st ->
      trace st' = (trace st ++ l)%list ->
      s' = (s + length (added_on l))%nat ->
      added_on l `sublist_of` map name controllers ->
      Post (Ret s') st') ->
  wp (for_each (add_on_controller command) controllers s) Post st.
Proof.
  revert s st Post.
  induction controllers as [|c controllers IH]; intros s st Post HPost; simpl.
  - apply wp_ret. apply (HPost s []); simpl; rewrite ?app_nil_r; try done; lia.
  - apply wp_bind. apply add_on_controller_wp.
    intros s1 l1 st1 Hs1 Hg1 Ht1 -> Hsub1.
    apply IH. intros s2 l2 st2 Hs2 Hg2 Ht2 -> Hsub2.
    apply (HPost _ (l1 ++ l2)%list).
    + congruence.
    + congruence.
    + by rewrite Ht2, Ht1, app_assoc.
    + rewrite added_on_app, length_app. lia.
    + rewrite added_on_app. change (map name (c :: controllers))
        with ([name c] ++ map name controllers)%list. by apply sublist_app.
Qed.

End HostLoops.

Section WorkflowRuns.

Variable py_int : string -> option Z.
Variable db : database.

Lemma execute_ap_convert_init_spec st :
  let o := (execute_ap_convert_init db st).1 in
  let st' := (execute_ap_convert_init db st).2 in
  stored_md_switches st' = stored_md_switches st
  /\ globals st' = globals st
  /\ exists l,
       trace st' = (trace st ++ l)%list
       /\ (o = Ret false /\ commands l = [] \/ init_ran db st o l).
Proof.
  change (wp (execute_ap_convert_init db)
            (fun o st' =>
               stored_md_switches st' = stored_md_switches st
               /\ globals st' = globals st
               /\ exists l,
                    trace st' = (trace st ++ l)%list
                    /\ (o = Ret false /\ commands l = [] \/ init_ran db st o l))
            st).
  unfold execute_ap_convert_init.
  wp_step. wp_step.
  destruct (truthy (selected_cluster st)) as [cluster|] eqn:Ec.
  2:{ repeat wp_step. do 2 (split; [done|]). eexists. split; [done|]. by left. }
  destruct (get_controllers_by_cluster db cluster) as [|c0 cs] eqn:Ecs.
  { repeat wp_step. do 2 (split; [done|]). eexists. split; [done|]. by left. }
  rewrite <- Ecs. wp_step. apply init_loop_wp.
  intros s' l st' Hs Hg Ht -> Hle. repeat wp_step. simpl.
  do 2 (split; [done|]). eexists. split; [by rewrite Ht, <- app_assoc|].
  right.
  assert (Ha : activated (l ++ [Print (MsgInitSummary (length (activated l))
                 (length (get_controllers_by_cluster db cluster)))])
               = activated l).
  { by rewrite activated_app, app_nil_r. }
  split.
  - exists cluster. rewrite Ha, last_snoc. done.
  - by rewrite Ha.
Qed.

Lemma select_and_add_ap_group_spec st :
  let o := (select_and_add_ap_group py_int db st).1 in
  let st' := (select_and_add_ap_group py_int db st).2 in
  stored_md_switches st' = stored_md_switches st
  /\ selected_cluster st' = selected_cluster st
  /\ prep_migration_target st' = prep_migration_target st
  /\ exists l,
       trace st' = (trace st ++ l)%list
       /\ (o <> Ret true /\ commands l = []
           /\ selected_ap_groups st' = selected_ap_groups st
           \/ exists group, add_ran db st o st' l group).
Proof.
  change (wp (select_and_add_ap_group py_int db)
            (fun o st' =>
               stored_md_switches st' = stored_md_switches st
               /\ selected_cluster st' = selected_cluster st
               /\ prep_migration_target st' = prep_migration_target st
               /\ exists l,
                    trace st' = (trace st ++ l)%list
                    /\ (o <> Ret true /\ commands l = []
                        /\ selected_ap_groups st' = selected_ap_groups st
                        \/ exists group, add_ran db st o st' l group)) st).
  unfold select_and_add_ap_group.
  wp_step. wp_step.
  destruct (truthy (selected_cluster st)) as [cluster|] eqn:Ec.
  2:{ repeat wp_step. do 3 (split; [done|]). eexists. split; [done|]. by left. }
  destruct (get_controllers_by_cluster db cluster) as [|c0 cs] eqn:Ecs.
  { repeat wp_step. do 3 (split; [done|]). eexists. split; [done|]. by left. }
  rewrite <- Ecs. wp_step. wp_step.
  destruct (decide (all_ap_groups db (get_controllers_by_cluster db cluster) = ∅)).
  { repeat wp_step. do 3 (split; [done|]). eexists. split; [done|]. by left. }
  destruct (available_groups db (get_controllers_by_cluster db cluster)
              (selected_ap_groups st)) as [|g0 gs] eqn:Eav.
  { repeat wp_step. do 3 (split; [done|]). eexists. split; [done|]. by left. }
  rewrite <- Eav.
  do 4 wp_step.
  2:{ do 3 (split; [done|]). eexists. split; [done|]. by left. }
  destruct (py_int line) as [selection|].
  2:{ repeat wp_step. do 3 (split; [done|]). eexists.
      split; [simpl; by rewrite <- ?app_assoc|]. by left. }
  destruct (decide (selection = 0)).
  { repeat wp_step. do 3 (split; [done|]). eexists.
    split; [simpl; by rewrite <- ?app_assoc|]. by left. }
  destruct (decide (1 <= selection <= _)).
  2:{ repeat wp_step. do 3 (split; [done|]). eexists.
      split; [simpl; by rewrite <- ?app_assoc|]. by left. }
  destruct (_ !! Z.to_nat (selection - 1)) as [group|] eqn:Eg.
  2:{ repeat wp_step. do 3 (split; [done|]). eexists.
      split; [simpl; by rewrite <- ?app_assoc|]. by left. }
  do 2 wp_step.
  2:{ do 3 (split; [done|]). eexists.
      split; [simpl; by rewrite <- ?app_assoc|]. by left. }
  destruct (negb (Py.lower_is_y line0)).
  { repeat wp_step. do 3 (split; [done|]). eexists.
    split; [simpl; by rewrite <- ?app_assoc|]. by left. }
  wp_step. apply add_loop_wp.
  intros s' l st' Hs Hg Ht -> Hsub. simpl in *.
  apply globals_inv in Hg as (Hc & Hgr & Htg). simpl in *.
  assert (Hin : group ∈ available_groups db (get_controllers_by_cluster db cluster)
                         (selected_ap_groups st)).
  { eapply list_elem_of_lookup_2, Eg. }
  wp_step.
  destruct (bool_decide (0 < length (added_on l))%nat) eqn:Hb.
  - repeat wp_step. simpl.
    do 3 (split; [done|]). eexists.
    split; [rewrite Ht; simpl; by rewrite <- ?app_assoc|].
    right. exists group.
    match goal with
    | |- add_ran _ _ _ _ ?L _ =>
        assert (Ha : added_on L = added_on l);
        [unfold added_on; simpl; rewrite !omap_app; simpl;
         by rewrite app_nil_r|]
    end.
    split.
    + exists cluster. rewrite Ha. split; [done|]. split; [done|].
      split; [done|].
      rewrite !app_assoc. by rewrite last_snoc.
    + by rewrite Ha, Hb.
    + rewrite Ha, Hb. simpl. by rewrite Hgr.
  - repeat wp_step. simpl.
    do 3 (split; [done|]). eexists.
    split; [rewrite Ht; simpl; by rewrite <- ?app_assoc|].
    right. exists group.
    match goal with
    | |- add_ran _ _ _ _ ?L _ =>
        assert (Ha : added_on L = added_on l);
        [unfold added_on; simpl; rewrite !omap_app; simpl;
         by rewrite app_nil_r|]
    end.
    split.
    + exists cluster. rewrite Ha. split; [done|]. split; [done|].
      split; [done|].
      rewrite !app_assoc. by rewrite last_snoc.
    + by rewrite Ha, Hb.
    + rewrite Ha, Hb. simpl. by rewrite Hgr.
Qed.

Lemma select_cluster_spec st :
  let o := (select_cluster py_int db st).1 in
  let st' := (select_cluster py_int db st).2 in
  stored_md_switches st' = stored_md_switches st
  /\ prep_migration_target st' = prep_migration_target st
  /\ (exists l, trace st' = (trace st ++ l)%list /\ commands l = [])
  /\ (selected_cluster st' = selected_cluster st
      /\ selected_ap_groups st' = selected_ap_groups st
      \/ exists chosen,
           chosen ∈ get_available_clusters db
           /\ o = Ret true
           /\ selected_cluster st <> Some chosen
           /\ selected_cluster st' = Some chosen
           /\ selected_ap_groups st' = []).
Proof.
  change (wp (select_cluster py_int db)
            (fun o st' =>
               stored_md_switches st' = stored_md_switches st
               /\ prep_migration_target st' = prep_migration_target st
               /\ (exists l, trace st' = (trace st ++ l)%list /\ commands l = [])
               /\ (selected_cluster st' = selected_cluster st
                   /\ selected_ap_groups st' = selected_ap_groups st
                   \/ exists chosen,
                        chosen ∈ get_available_clusters db
                        /\ o = Ret true
                        /\ selected_cluster st <> Some chosen
                        /\ selected_cluster st' = Some chosen
                        /\ selected_ap_groups st' = [])) st).
  unfold select_cluster.
  destruct (get_available_clusters db) as [|c0 cs] eqn:Ecs.
  { repeat wp_step. do 2 (split; [done|]). split; [by eexists|]. by left. }
  rewrite <- Ecs.
  do 2 wp_step.
  2:{ do 2 (split; [done|]). split; [by exists []; rewrite app_nil_r|]. by left. }
  destruct (py_int line) as [selection|].
  2:{ repeat wp_step. do 2 (split; [done|]).
      split; [eexists; split; [simpl; by rewrite <- ?app_assoc|done]|]. by left. }
  destruct (decide (selection = 0)).
  { repeat wp_step. do 2 (split; [done|]).
    split; [eexists; split; [simpl; by rewrite <- ?app_assoc|done]|]. by left. }
  destruct (decide (1 <= selection <= _)).
  2:{ repeat wp_step. do 2 (split; [done|]).
      split; [eexists; split; [simpl; by rewrite <- ?app_assoc|done]|]. by left. }
  destruct (_ !! Z.to_nat (selection - 1)) as [chosen|] eqn:Eg.
  2:{ repeat wp_step. do 2 (split; [done|]).
      split; [eexists; split; [simpl; by rewrite <- ?app_assoc|done]|]. by left. }
  assert (Hin : chosen ∈ get_available_clusters db).
  { eapply list_elem_of_lookup_2, Eg. }
  do 3 wp_step. simpl.
  destruct (decide (selected_cluster st = Some chosen)) as [Hsame|Hdiff].
  - repeat wp_step. simpl. do 2 (split; [done|]).
    split; [eexists; split; [simpl; by rewrite <- ?app_assoc|done]|]. by left.
  - repeat wp_step. simpl. do 2 (split; [done|]).
    split; [eexists; split; [simpl; by rewrite <- ?app_assoc|done]|].
    right. exists chosen. done.
Qed.

End WorkflowRuns.

Lemma redundancy_follows_lb_weaken l :
  redundancy_follows_lb false l = true -> forall b, redundancy_follows_lb b l = true.
Proof.
  destruct l as [|[[ip c] o] l]; simpl; [done|].
  intros [H1 H2]%andb_prop b. rewrite H2, andb_true_r.
  destruct (String.eqb c "no redundancy"); [done|done].
Qed.

Lemma redundancy_follows_lb_app b l1 l2 :
  redundancy_follows_lb b l1 = true -> redundancy_follows_lb false l2 = true ->
  redundancy_follows_lb b (l1 ++ l2) = true.
Proof.
  revert b. induction l1 as [|[[ip c] o] l1 IH]; intros b; simpl.
  - intros _ H. by apply redundancy_follows_lb_weaken.
  - intros [-> H1]%andb_prop H2. simpl. auto.
Qed.

#[global] Instance lb_first_closed : ClosedEvents lb_first.
Proof.
  split; [done|]. intros l1 l2 H1 H2. unfold lb_first. rewrite commands_app.
  by apply redundancy_follows_lb_app.
Qed.

#[global] Instance prep_step_closed : Closed prep_step.
Proof.
  split.
  - intros g. by repeat split.
  - intros g1 g2 g3 l1 l2 (A1 & B1 & C1) (A2 & B2 & C2).
    repeat split; [congruence..|]. by apply lb_first_closed.
Qed.

Lemma redundancy_follows_lb_lookup l :
  redundancy_follows_lb false l = true ->
  forall i ip o,
    l !! i = Some (ip, "no redundancy", o) ->
    exists j ip' output,
      i = S j /\ l !! j = Some (ip', "no active-ap-lb", Some output).
Proof.
  assert (Hgen : forall b (prev : option (string * string * option string)),
    (b = true -> exists ip' output, prev = Some (ip', "no active-ap-lb", Some output)) ->
    redundancy_follows_lb b l = true ->
    forall i ip o,
      l !! i = Some (ip, "no redundancy", o) ->
      match i with
      | O => exists ip' output, prev = Some (ip', "no active-ap-lb", Some output)
      | S j => exists ip' output, l !! j = Some (ip', "no active-ap-lb", Some output)
      end).
  { induction l as [|[[ip0 c0] o0] l IH]; intros b prev Hprev Hrf i ip o Hi.
    - by rewrite lookup_nil in Hi.
    - simpl in Hrf. apply andb_prop in Hrf as [Hc Hrest].
      destruct i as [|i]; simpl in Hi.
      + injection Hi as -> -> ->. simpl in Hc. auto.
      + assert (Hp : (String.eqb c0 "no active-ap-lb"
                        && bool_decide (is_Some o0)) = true ->
                     exists ip' output,
                       Some (ip0, c0, o0)
                       = Some (ip', "no active-ap-lb", Some output)).
        { intros [Heq Ho]%andb_prop. apply String.eqb_eq in Heq as ->.
          apply bool_decide_eq_true in Ho as [output ->]. eauto. }
        specialize (IH _ _ Hp Hrest i ip o Hi).
        destruct i; simpl; done. }
  intros Hrf i ip o Hi.
  specialize (Hgen false None ltac:(done) Hrf i ip o Hi).
  destruct i as [|j].
  - by destruct Hgen as (? & ? & ?).
  - destruct Hgen as (ip' & output & Hj). eauto.
Qed.

Section Prep.

Variable py_int : string -> option Z.
Variable search_profile_name : string -> option string.
Variable db : database.

Lemma prep_disable_and_save_keeps ip np cluster :
  keeps (advances prep_step) (prep_disable_and_save ip np cluster).
Proof.
  intros st.
  change (wp (prep_disable_and_save ip np cluster)
            (fun _ st' => advances prep_step st st') st).
  unfold prep_disable_and_save. repeat wp_step.
  all: split; [done|]; eexists;
    split; [simpl; rewrite <- ?app_assoc; reflexivity|]; by repeat split.
Qed.

Lemma prep_migration_ssh_keeps ip :
  keeps (advances prep_step)
    (prep_migration_ssh py_int search_profile_name db ip).
Proof.
  unfold prep_migration_ssh, prep_select_nodepath, prep_select_cluster,
    prep_session, prep_steps, prep_enter_profile.
  keeps_auto.
  all: try apply prep_disable_and_save_keeps.
Qed.

End Prep.

Lemma new_events_app st st' l :
  trace st' = (trace st ++ l)%list -> new_events st st' = l.
Proof. intros H. unfold new_events. by rewrite H, drop_app_length. Qed.

Lemma available_groups_fresh db controllers selected group :
  group ∈ available_groups db controllers selected ->
  (group ∉ selected) /\ (group ∈ all_ap_groups db controllers).
Proof.
  unfold available_groups. rewrite list_elem_of_filter. intros [Hfresh Hin].
  split; [done|]. unfold Py.sorted in Hin.
  rewrite merge_sort_Permutation in Hin. by apply elem_of_elements in Hin.
Qed.

(** C1. A run of [prep_migration_ssh] in which the only marker of profile
    context is in the text captured for the original name DC-East, a text
    that also holds the word Invalid; the operator then types DC-West, whose
    text holds no marker. The run goes on through the save and records
    DC-West as the target. *)
Theorem prep_records_unconfirmed_fallback_name
    (py_int : string -> option Z) (search_profile_name : string -> option string) :
  let run := prep_migration_ssh py_int search_profile_name fleet conductor
               fallback_prep in
  prep_migration_target run.2 = Some ("/md/site-a", "DC-West")
  /\ commands (trace run.2)
     = [ (conductor, "change-config-node /md/site-a", Some "");
         (conductor, "configure terminal", Some "");
         (conductor, "lc-cluster group-profile DC-East",
          Some "Invalid license warning (mm) [site-a] (Classic Controller Cluster Profile) #");
         (conductor, "lc-cluster group-profile DC-West",
          Some "% Invalid input detected");
         (conductor, "no active-ap-lb", Some "");
         (conductor, "no redundancy", Some "");
         (conductor, "exit", Some "");
         (conductor, "exit", Some "");
         (conductor, "write memory", Some "") ]
  /\ Py.any_in profile_context_markers
       "Invalid license warning (mm) [site-a] (Classic Controller Cluster Profile) #"
     = true
  /\ Py.any_in profile_context_markers "% Invalid input detected" = false.
Proof. vm_compute. repeat split. Qed.

Section CleanupRun.

Variable db : database.

(** A run whose operator confirmed went past the confirmation. *)
Lemma confirmed_run_ran mm_ip st line rest :
  get_all_controllers db <> [] ->
  inputs st = line :: rest ->
  Py.lower_is_y line = true ->
  let r := cleanup_ap_convert db mm_ip st in
  exists failed, cleanup_ran db st r.1 r.2 (new_events st r.2) failed.
Proof.
  intros Hcs Hin Hy.
  destruct (cleanup_ap_convert_spec db mm_ip st)
    as (_ & _ & l & Ht & _ & [Hdecl|[failed Hran]]).
  - destruct Hdecl as [_ [?|[Hnil|(line' & rest' & Hin' & Hn)]] _ _ _ _].
    + done.
    + congruence.
    + rewrite Hin in Hin'. injection Hin' as <- <-. congruence.
  - exists failed. simpl. by rewrite (new_events_app _ _ _ Ht).
Qed.

Lemma restoration_targets_result st :
  (restoration_targets db st).1
  = Ret (targets_for db (prep_migration_target st)).
Proof.
  change (wp (restoration_targets db)
            (fun o _ => o = Ret (targets_for db (prep_migration_target st))) st).
  apply restoration_targets_wp. done.
Qed.

End CleanupRun.

(** C2. The list of restoration targets that Phase 2 computes is the one
    pair (cluster, node path) of the recorded target when there is one, and
    the whole result of [get_all_clusters_with_nodepaths] otherwise. In a
    run that the operator confirmed, the restorations started are, in
    order, a prefix of that list, and the whole list when Phase 2 reached
    its final save; the targeted case is announced as such, and without a
    target the run warns that all clusters will be restored and lists
    them. *)
Theorem restoration_targets_follow_prep_target db mm_ip st line rest :
  get_all_controllers db <> [] ->
  inputs st = line :: rest ->
  Py.lower_is_y line = true ->
  let l := new_events st (cleanup_ap_convert db mm_ip st).2 in
  (forall st0,
      (restoration_targets db st0).1
      = Ret match prep_migration_target st0 with
            | Some (target_nodepath, target_cluster) =>
                [(target_cluster, target_nodepath)]
            | None => get_all_clusters_with_nodepaths db
            end)
  /\ match prep_migration_target st with
     | Some (target_nodepath, target_cluster) =>
         restoring l `prefix_of` [(target_cluster, target_nodepath)]
         /\ (MsgFinalSave ∈ printed l ->
             restoring l = [(target_cluster, target_nodepath)])
         /\ MsgRestoringSpecific target_cluster target_nodepath ∈ printed l
     | None =>
         restoring l `prefix_of` get_all_clusters_with_nodepaths db
         /\ (MsgFinalSave ∈ printed l ->
             restoring l = get_all_clusters_with_nodepaths db)
         /\ MsgNoPrepTargetRestoreAll ∈ printed l
         /\ (get_all_clusters_with_nodepaths db <> [] ->
             MsgRestoringAll (get_all_clusters_with_nodepaths db) ∈ printed l)
     end.
Proof.
  intros Hcs Hin Hy l. split.
  { intros st0. rewrite restoration_targets_result.
    by destruct (prep_migration_target st0) as [[]|]. }
  destruct (confirmed_run_ran db mm_ip st line rest Hcs Hin Hy) as [failed Hran].
  fold l in Hran.
  destruct Hran as [_ _ _ _ Hpre Hall Hann Hwarn _ _ _ _ _].
  unfold targets_for, announcement in *.
  destruct (prep_migration_target st) as [[np cl]|].
  - repeat split; auto.
  - repeat split; auto.
    intros Hne. apply Hann.
    by destruct (get_all_clusters_with_nodepaths db).
Qed.

(** C3. After a run of [cleanup_ap_convert]: when the cleanup of Phase 1
    was reported complete for some controller, the AP-group list is empty
    and the target is unset, whatever Phase 2 did, and the run returns
    [True]; when it was reported for none, both are as before the run and
    the run does not return [True]. *)
Theorem selections_cleared_iff_phase1_succeeded db mm_ip st :
  let r := cleanup_ap_convert db mm_ip st in
  let l := new_events st r.2 in
  (completed_names l <> [] ->
   selected_ap_groups r.2 = [] /\ prep_migration_target r.2 = None
   /\ r.1 = Ret true)
  /\ (completed_names l = [] ->
      selected_ap_groups r.2 = selected_ap_groups st
      /\ prep_migration_target r.2 = prep_migration_target st
      /\ r.1 <> Ret true).
Proof.
  intros r l.
  destruct (cleanup_ap_convert_spec db mm_ip st)
    as (_ & _ & l' & Ht & _ & Hcase).
  apply new_events_app in Ht. fold r in Ht. fold l in Ht. subst l'.
  fold r in Hcase.
  destruct Hcase as [Hdecl|[failed Hran]].
  - destruct Hdecl as [Ho _ _ Hc Hg Ht]. split; [by rewrite Hc|].
    intros _. do 2 (split; [done|]). destruct Ho as [-> | ->]; done.
  - destruct Hran as [Ho _ _ _ _ _ _ _ _ _ _ _ Hg].
    destruct (completed_names l) as [|n names]; simpl in *.
    + split; [done|]. intros _. destruct Hg. rewrite Ho. done.
    + split; [|done]. intros _. destruct Hg. rewrite Ho. done.
Qed.





(** C9. A list of selected AP groups without a repeated name stays so
    through every workflow. [select_and_add_ap_group] offers groups that are
    not in the list; it leaves the list as it was, or appends the one group
    chosen among those offered, and this only when the add command was
    accepted on some controller. [select_cluster] empties the list when it
    changes the selected cluster and leaves it as it was otherwise. *)
Theorem selected_ap_groups_never_repeat py_int search_profile_name db ip st :
  NoDup (selected_ap_groups st) ->
  (forall controllers group,
      group ∈ available_groups db controllers (selected_ap_groups st) ->
      group ∉ selected_ap_groups st)
  /\ (let r := select_and_add_ap_group py_int db st in
      NoDup (selected_ap_groups r.2)
      /\ (selected_ap_groups r.2 = selected_ap_groups st
          \/ exists cluster group,
               truthy (selected_cluster st) = Some cluster
               /\ group ∈ available_groups db
                            (get_controllers_by_cluster db cluster)
                            (selected_ap_groups st)
               /\ added_on (new_events st r.2) <> []
               /\ selected_ap_groups r.2
                  = (selected_ap_groups st ++ [group])%list))
  /\ (let r := select_cluster py_int db st in
      NoDup (selected_ap_groups r.2)
      /\ (selected_cluster r.2 <> selected_cluster st ->
          selected_ap_groups r.2 = [])
      /\ (selected_cluster r.2 = selected_cluster st ->
          selected_ap_groups r.2 = selected_ap_groups st))
  /\ NoDup (selected_ap_groups (execute_ap_convert_init db st).2)
  /\ NoDup (selected_ap_groups
              (prep_migration_ssh py_int search_profile_name db ip st).2)
  /\ NoDup (selected_ap_groups (cleanup_ap_convert db ip st).2).
Proof.
  intros Hnd. repeat split.
  - intros controllers group Hin. by apply available_groups_fresh in Hin as [? _].
  - destruct (select_and_add_ap_group_spec py_int db st)
      as (_ & _ & _ & l & Ht & [(_ & _ & Hg)|[group Hran]]).
    + by rewrite Hg.
    + destruct Hran as [(cluster & _ & Hin & _) _ Hg]. rewrite Hg.
      destruct (bool_decide _); [|done].
      apply available_groups_fresh in Hin as [Hfresh _].
      apply NoDup_app. split; [done|]. split; [|apply NoDup_singleton].
      intros x Hx ->%list_elem_of_singleton. done.
  - destruct (select_and_add_ap_group_spec py_int db st)
      as (_ & _ & _ & l & Ht & [(_ & _ & Hg)|[group Hran]]).
    + by left.
    + destruct Hran as [(cluster & Hs & Hin & _) _ Hg].
      simpl. rewrite (new_events_app _ _ _ Ht), Hg.
      destruct (bool_decide _) eqn:Hb; [|by left].
      right. exists cluster, group. repeat split; try done.
      apply bool_decide_eq_true in Hb. destruct (added_on l); simpl in *; [lia|done].
  - destruct (select_cluster_spec py_int db st)
      as (_ & _ & _ & [[_ Hg]|(chosen & _ & _ & _ & _ & Hg)]); rewrite Hg;
      [done|apply NoDup_nil_2].
  - destruct (select_cluster_spec py_int db st)
      as (_ & _ & _ & [[Hc _]|(chosen & _ & _ & _ & _ & Hg)]); done.
  - destruct (select_cluster_spec py_int db st)
      as (_ & _ & _ & [[_ Hg]|(chosen & _ & _ & Hne & Hc & _)]); [done|].
    intros Heq. simpl in Heq. congruence.
  - destruct (execute_ap_convert_init_spec db st) as (_ & Hg & _).
    apply globals_inv in Hg as (_ & -> & _). done.
  - destruct (prep_migration_ssh_keeps py_int search_profile_name db ip st)
      as (_ & l & _ & _ & Hg & _).
    simpl in Hg. by rewrite Hg.
  - destruct (cleanup_ap_convert_spec db ip st)
      as (_ & _ & l & _ & _ & [Hdecl|[failed Hran]]).
    + destruct Hdecl as [_ _ _ _ Hg _]. by rewrite Hg.
    + destruct Hran as [_ _ _ _ _ _ _ _ _ _ _ _ Hg].
      destruct (bool_decide _); destruct Hg as [-> _]; [apply NoDup_nil_2|done].
Qed.

(** C6, as stated: in the run [plain_prep] the command that disables load
    balancing is sent right after the profile is entered, and the command
    that disables redundancy after it. *)
Lemma prep_disables_load_balancing_first :
  commands (trace (prep_migration_ssh int_of_digits no_profile_name fleet
                     conductor plain_prep).2)
  = [ (conductor, "change-config-node /md/site-a", Some "");
      (conductor, "configure terminal", Some "");
      (conductor, "lc-cluster group-profile DC-East",
       Some "(mm) [site-a] (Classic Controller Cluster Profile) #");
      (conductor, "no active-ap-lb", Some "");
      (conductor, "no redundancy", Some "");
      (conductor, "exit", Some "");
      (conductor, "exit", Some "");
      (conductor, "write memory", Some "") ].
Proof. vm_compute. reflexivity. Qed.

Lemma restoration_targets_follow_prep_target_witness :
  (get_all_controllers fleet <> []
   /\ inputs cleanup_targeted = ["y"]
   /\ Py.lower_is_y "y" = true)
  /\ forall st0,
       (restoration_targets fleet st0).1
       = Ret match prep_migration_target st0 with
             | Some (target_nodepath, target_cluster) =>
                 [(target_cluster, target_nodepath)]
             | None => get_all_clusters_with_nodepaths fleet
             end.
Proof.
  assert (H1 : get_all_controllers fleet <> []).
  { vm_compute. discriminate. }
  assert (H2 : inputs cleanup_targeted = ["y"]).
  { vm_compute. reflexivity. }
  assert (H3 : Py.lower_is_y "y" = true).
  { vm_compute. reflexivity. }
  exact (conj (conj H1 (conj H2 H3))
           (proj1 (restoration_targets_follow_prep_target fleet conductor
                     cleanup_targeted "y" [] H1 H2 H3))).
Defined.

Lemma selections_cleared_iff_phase1_succeeded_witness :
  completed_names
    (new_events cleanup_conductor_down
       (cleanup_ap_convert fleet conductor cleanup_conductor_down).2) <> []
  /\ selected_ap_groups
       (cleanup_ap_convert fleet conductor cleanup_conductor_down).2 = []
  /\ prep_migration_target
       (cleanup_ap_convert fleet conductor cleanup_conductor_down).2 = None
  /\ (cleanup_ap_convert fleet conductor cleanup_conductor_down).1 = Ret true.
Proof.
  assert (H : completed_names
                (new_events cleanup_conductor_down
                   (cleanup_ap_convert fleet conductor cleanup_conductor_down).2)
              <> []).
  { vm_compute. discriminate. }
  exact (conj H
           (proj1 (selections_cleared_iff_phase1_succeeded fleet conductor
                     cleanup_conductor_down) H)).
Defined.


Lemma selected_ap_groups_never_repeat_witness :
  NoDup (selected_ap_groups add_warehouse)
  /\ NoDup (selected_ap_groups
              (select_and_add_ap_group int_of_digits fleet add_warehouse).2).
Proof.
  assert (H : NoDup (selected_ap_groups add_warehouse)).
  { apply (NoDup_singleton "lobby"). }
  exact (conj H
           (proj1 (proj1 (proj2
              (selected_ap_groups_never_repeat int_of_digits no_profile_name
                 fleet conductor add_warehouse H))))).
Defined.

(** Restoring one cluster on a conductor that answers every command: the
    eight commands are sent in this order, redundancy before load
    balancing, whatever the texts captured: also when the profile text
    shows no context marker, and when the texts of the two enabling
    commands hold Error or Invalid. The cluster is then reported as
    processed with success. *)
Theorem restore_cluster_sends_its_commands_regardless
    mm_ip cluster_name nodepath flag st o1 o2 o3 o4 o5 o6 o7 o8 rest :
  responses st
  = Some o1 :: Some o2 :: Some o3 :: Some o4 :: Some o5 :: Some o6 :: Some o7
    :: Some o8 :: rest ->
  let r := restore_cluster mm_ip (cluster_name, nodepath) flag st in
  r.1 = Ret true
  /\ commands (new_events st r.2)
     = [ (mm_ip, "change-config-node " ++ nodepath, Some o1);
         (mm_ip, "configure terminal", Some o2);
         (mm_ip, "lc-cluster group-profile " ++ cluster_name, Some o3);
         (mm_ip, "redundancy", Some o4);
         (mm_ip, "active-ap-lb", Some o5);
         (mm_ip, "exit", Some o6);
         (mm_ip, "exit", Some o7);
         (mm_ip, "write memory", Some o8) ]
  /\ last (new_events st r.2) = Some (Print (MsgClusterProcessed cluster_name true))
  /\ responses r.2 = rest.
Proof.
  intros Hr. destruct st as [cs rs ins sw sc sg tg tr]. simpl in Hr. subst rs.
  unfold new_events.
  cbv -[Py.contains Py.any_in profile_context_markers app length drop
        String.append commands last].
  destruct (Py.any_in profile_context_markers o3),
    (Py.contains "Error" o4), (Py.contains "Invalid" o4),
    (Py.contains "Error" o5), (Py.contains "Invalid" o5); simpl.
  all: split; [reflexivity|].
  all: rewrite <- !app_assoc, drop_app_length; simpl.
  all: split; [reflexivity|]; split; reflexivity.
Qed.

(** A cleanup that the operator does not confirm with y or Y reaches no
    device: it connects to nothing, sends nothing, returns [False] and
    leaves the module's globals as they were. *)
Theorem unconfirmed_cleanup_reaches_no_device db mm_ip st line rest :
  inputs st = line :: rest ->
  Py.lower_is_y line = false ->
  let r := cleanup_ap_convert db mm_ip st in
  r.1 = Ret false
  /\ forallb is_local (new_events st r.2) = true
  /\ globals r.2 = globals st
  /\ inputs r.2 = (if decide (get_all_controllers db = []) then inputs st else rest).
Proof.
  intros Hin Hn.
  change (wp (cleanup_ap_convert db mm_ip)
            (fun o st' =>
               o = Ret false
               /\ forallb is_local (new_events st st') = true
               /\ globals st' = globals st
               /\ inputs st'
                  = (if decide (get_all_controllers db = [])
                     then inputs st else rest)) st).
  unfold cleanup_ap_convert.
  destruct (get_all_controllers db) as [|c0 cs] eqn:Ecs.
  { repeat wp_step. unfold new_events. simpl. by rewrite drop_app_length. }
  rewrite <- Ecs.
  repeat (lazymatch goal with
          | |- wp (cleanup_phases _ _ _) _ _ => fail
          | _ => wp_step
          end).
  all: simpl in *.
  all: try congruence.
  all: repeat match goal with
       | H : inputs _ = _ :: _ |- _ => rewrite Hin in H; injection H as <- <-
       end.
  all: try (rewrite Hn in *; discriminate).
  all: unfold new_events; simpl; rewrite <- ?app_assoc, drop_app_length;
    rewrite Ecs; done.
Qed.

(** Without a selected cluster ([None], or the empty string, which Python
    takes as false) the two cluster workflows print one line and return
    [False]; nothing else changes. *)
Theorem cluster_workflows_need_a_selection py_int db st :
  truthy (selected_cluster st) = None ->
  execute_ap_convert_init db st = (Ret false, log (Print MsgNoClusterSelected) st)
  /\ select_and_add_ap_group py_int db st
     = (Ret false, log (Print MsgNoClusterSelected) st).
Proof.
  intros H. unfold execute_ap_convert_init, select_and_add_ap_group.
  unfold mbind, M_bind, bind, get. simpl. by rewrite H.
Qed.

(** [select_cluster] reaches no device and leaves the migration target as
    it was. When it returns [True] the selected cluster is one of those
    offered, so never the name Unknown; otherwise (cancelled, invalid or
    missing input, no clusters) the globals are as before. *)
Theorem select_cluster_selects_an_offered_cluster py_int db st :
  let r := select_cluster py_int db st in
  forallb is_local (new_events st r.2) = true
  /\ prep_migration_target r.2 = prep_migration_target st
  /\ (r.1 = Ret true ->
      exists chosen,
        selected_cluster r.2 = Some chosen
        /\ chosen ∈ get_available_clusters db
        /\ chosen <> "Unknown")
  /\ (r.1 <> Ret true -> globals r.2 = globals st).
Proof.
  change (wp (select_cluster py_int db)
            (fun o st' =>
               forallb is_local (new_events st st') = true
               /\ prep_migration_target st' = prep_migration_target st
               /\ (o = Ret true ->
                   exists chosen,
                     selected_cluster st' = Some chosen
                     /\ chosen ∈ get_available_clusters db
                     /\ chosen <> "Unknown")
               /\ (o <> Ret true -> globals st' = globals st)) st).
  unfold select_cluster.
  destruct (get_available_clusters db) as [|c0 cs] eqn:Ecs.
  { repeat wp_step. unfold new_events. simpl. by rewrite drop_app_length. }
  rewrite <- Ecs.
  do 2 wp_step.
  2:{ unfold new_events. by rewrite drop_all. }
  destruct (py_int line) as [selection|].
  2:{ repeat wp_step. unfold new_events. simpl.
      by rewrite <- ?app_assoc, drop_app_length. }
  destruct (decide (selection = 0)).
  { repeat wp_step. unfold new_events. simpl.
    by rewrite <- ?app_assoc, drop_app_length. }
  destruct (decide (1 <= selection <= _)).
  2:{ repeat wp_step. unfold new_events. simpl.
      by rewrite <- ?app_assoc, drop_app_length. }
  destruct (_ !! Z.to_nat (selection - 1)) as [chosen|] eqn:Eg.
  2:{ repeat wp_step. unfold new_events. simpl.
      by rewrite <- ?app_assoc, drop_app_length. }
  assert (Hin : chosen ∈ get_available_clusters db).
  { eapply list_elem_of_lookup_2, Eg. }
  assert (Hne : chosen <> "Unknown").
  { apply elem_of_get_available_clusters in Hin. tauto. }
  repeat wp_step.
  all: unfold new_events; simpl; rewrite <- ?app_assoc, drop_app_length.
  all: repeat split; try done.
  all: intros _; exists chosen; done.
Qed.

Lemma marker_seen_mono l l' :
  marker_seen l -> (forall c, c ∈ commands l -> c ∈ commands l') ->
  marker_seen l'.
Proof.
  intros (shell & n & o & Hin & Hm) Hsub. exists shell, n, o. auto.
Qed.

Lemma saved_mono l l' :
  saved l -> (forall c, c ∈ commands l -> c ∈ commands l') -> saved l'.
Proof. intros (shell & o & Hin) Hsub. exists shell, o. auto. Qed.

Section PrepTarget.

Variable py_int : string -> option Z.
Variable search_profile_name : string -> option string.
Variable db : database.

Lemma prep_disable_and_save_wp ip np cluster st (Post : outcome unit -> state -> Prop) :
  (forall l st',
      stored_md_switches st' = stored_md_switches st ->
      globals st' = (selected_cluster st, selected_ap_groups st, Some (np, cluster)) ->
      trace st' = (trace st ++ l)%list ->
      saved l ->
      MsgPrepTargetSaved np cluster ∈ printed l ->
      Post (Ret tt) st') ->
  (forall e l st',
      stored_md_switches st' = stored_md_switches st ->
      globals st' = globals st ->
      trace st' = (trace st ++ l)%list ->
      Post (Exc e) st') ->
  wp (prep_disable_and_save ip np cluster) Post st.
Proof.
  intros Hret Hexc. unfold prep_disable_and_save. repeat wp_step.
  all: first
    [ eapply Hexc; [reflexivity|reflexivity
                   |simpl; rewrite <- ?app_assoc; reflexivity]
    | eapply Hret; [reflexivity|reflexivity
                   |simpl; rewrite <- ?app_assoc; reflexivity| |] ].
  - eexists _, _. simpl. rewrite !elem_of_cons. eauto 10.
  - simpl. rewrite !elem_of_cons. eauto 10.
Qed.

Lemma prep_enter_profile_wp ip cluster st (Post : outcome string -> state -> Prop) :
  (forall cluster' l st',
      stored_md_switches st' = stored_md_switches st ->
      globals st' = globals st ->
      trace st' = (trace st ++ l)%list ->
      marker_seen l ->
      Post (Ret cluster') st') ->
  (forall e l st',
      stored_md_switches st' = stored_md_switches st ->
      globals st' = globals st ->
      trace st' = (trace st ++ l)%list ->
      Post (Exc e) st') ->
  wp (prep_enter_profile search_profile_name ip cluster) Post st.
Proof.
  intros Hret Hexc. unfold prep_enter_profile. repeat wp_step.
  all: first
    [ eapply Hexc; [reflexivity|reflexivity
                   |simpl; rewrite <- ?app_assoc; reflexivity]
    | eapply Hret; [reflexivity|reflexivity
                   |simpl; rewrite <- ?app_assoc; reflexivity|] ].
  all: try match goal with
       | H : (_, _) = (_, _) |- _ => injection H as <- <-
       end.
  all: try discriminate.
  all: match goal with
       | H : Py.any_in profile_context_markers ?o = true |- marker_seen _ =>
           eexists ip, _, o; split; [|exact H];
           simpl; rewrite !elem_of_cons;
           solve [repeat first [left; reflexivity | right]]
       end.
Qed.

Lemma prep_select_nodepath_wp switches st
    (Post : outcome (option string) -> state -> Prop) :
  (forall o l st',
      stored_md_switches st' = stored_md_switches st ->
      globals st' = globals st ->
      trace st' = (trace st ++ l)%list ->
      forallb is_local l = true ->
      (forall np, o = Ret (Some np) -> np ∈ map md_nodepath switches) ->
      Post o st') ->
  wp (prep_select_nodepath py_int switches) Post st.
Proof.
  intros HPost. unfold prep_select_nodepath.
  assert (Hmem : forall np, np ∈ distinct (map md_nodepath switches) ->
                            np ∈ map md_nodepath switches).
  { intros np. by rewrite elem_of_distinct. }
  destruct (distinct (map md_nodepath switches)) as [|np1 [|np2 nps]] eqn:Ed.
  all: repeat wp_step.
  all: eapply HPost; [reflexivity|reflexivity
                     |simpl; rewrite <- ?app_assoc;
                      first [reflexivity | symmetry; apply app_nil_r]
                     |reflexivity|].
  all: intros np [= <-] || intros np [=].
  all: apply Hmem.
  all: first [ apply list_elem_of_here
             | eapply list_elem_of_lookup_2; eassumption ].
Qed.

Lemma prep_select_cluster_local np :
  keeps (advances (unchanged (fun l => forallb is_local l = true)))
    (prep_select_cluster py_int db np).
Proof. unfold prep_select_cluster. keeps_auto. Qed.

End PrepTarget.

Ltac prep_step :=
  lazymatch goal with
  | |- wp (prep_enter_profile _ _ _) _ _ =>
      apply prep_enter_profile_wp;
      [intros ?cluster' ?l ?st' ?Hs ?Hg ?Ht ?Hm|intros ?e ?l ?st' ?Hs ?Hg ?Ht]
  | |- wp (prep_disable_and_save _ _ _) _ _ =>
      apply prep_disable_and_save_wp;
      [intros ?l ?st' ?Hs ?Hg ?Ht ?Hsv ?Hp|intros ?e ?l ?st' ?Hs ?Hg ?Ht]
  | |- wp (prep_select_nodepath _ _) _ _ =>
      apply prep_select_nodepath_wp; intros ?o ?l ?st' ?Hs ?Hg ?Ht ?Hl ?Hnp
  | |- wp (prep_select_cluster _ _ _) _ _ =>
      eapply wp_of_keeps; [apply prep_select_cluster_local|];
      intros ?o ?st' ?l ?Hs ?Ht [?Hg ?Hl]
  | |- match ?o with Ret _ => _ | Exc _ => _ end => destruct o
  | _ => wp_step
  end.

(** [prep_migration_ssh] leaves the selected cluster and the AP-group list
    as they were. It changes the migration target only in a run that
    opened the session, captured a context marker for some profile name,
    and got the configuration saved; the node path recorded is one of the
    discovered controllers'. A run that is cancelled, fails to connect,
    never sees a marker or raises before the save returns leaves the
    target as it was, which is the target of an earlier run if there was
    one. *)
Theorem prep_target_recorded_only_after_save
    py_int search_profile_name db ip st :
  let r := prep_migration_ssh py_int search_profile_name db ip st in
  let l := new_events st r.2 in
  stored_md_switches r.2 = stored_md_switches st
  /\ selected_cluster r.2 = selected_cluster st
  /\ selected_ap_groups r.2 = selected_ap_groups st
  /\ (prep_migration_target r.2 = prep_migration_target st
      \/ exists nodepath cluster,
           prep_migration_target r.2 = Some (nodepath, cluster)
           /\ nodepath ∈ map md_nodepath (stored_md_switches st)
           /\ r.1 = Ret tt
           /\ Connect ip true ∈ l
           /\ marker_seen l
           /\ saved l
           /\ MsgPrepTargetSaved nodepath cluster ∈ printed l).
Proof.
  assert (H : wp (prep_migration_ssh py_int search_profile_name db ip)
                (fun o st' =>
                   stored_md_switches st' = stored_md_switches st
                   /\ selected_cluster st' = selected_cluster st
                   /\ selected_ap_groups st' = selected_ap_groups st
                   /\ exists l,
                        trace st' = (trace st ++ l)%list
                        /\ (prep_migration_target st' = prep_migration_target st
                            \/ exists nodepath cluster,
                                 prep_migration_target st' = Some (nodepath, cluster)
                                 /\ nodepath ∈ map md_nodepath (stored_md_switches st)
                                 /\ o = Ret tt
                                 /\ Connect ip true ∈ l
                                 /\ marker_seen l
                                 /\ saved l
                                 /\ MsgPrepTargetSaved nodepath cluster ∈ printed l))
                st).
  { unfold prep_migration_ssh, prep_session, prep_steps.
    repeat prep_step.
    all: simpl in *.
    all: unfold globals in *.
    all: repeat match goal with
         | H : (_, _, _) = (_, _, _) |- _ => injection H as ? ? ?
         end.
    all: repeat match goal with
         | H : negb ?b = false |- _ => destruct b; [clear H|discriminate H]
         end.
    all: split; [congruence|]; split; [congruence|]; split; [congruence|].
    all: eexists; split;
      [ repeat match goal with
               | H : trace _ = _ |- _ => rewrite H; clear H
               end;
        rewrite <- ?app_assoc;
        first [reflexivity | symmetry; apply app_nil_r] |].
    all: try (left; congruence).
    all: right.
    all: match goal with
         | Hnp : forall np, Ret (Some ?n) = Ret (Some np) -> _,
           Hsv : saved _, Hm : marker_seen _,
           Hp : MsgPrepTargetSaved ?n ?c ∈ printed _ |- _ =>
             exists n, c; split; [congruence|];
             split; [by apply Hnp|]; split; [done|];
             split; [rewrite !elem_of_app, !elem_of_cons; tauto|];
             split; [|split]
         end.
    - eapply marker_seen_mono; [exact Hm|].
      intros c. rewrite !commands_app, !elem_of_app. tauto.
    - eapply saved_mono; [exact Hsv|].
      intros c. rewrite !commands_app, !elem_of_app. tauto.
    - rewrite !printed_app, !elem_of_app. tauto. }
  unfold wp in H. destruct H as (Hs & Hc & Hg & l & Ht & Hcase).
  simpl. rewrite (new_events_app _ _ _ Ht). done.
Qed.

Section SummaryLine.

Variable db : database.

Lemma cleanup_summary_line_wp total success_count failed clusters_info st
    (Post : outcome unit -> state -> Prop) :
  (forall l st',
      trace st' = (trace st ++ l)%list ->
      completed_names l = [] ->
      (clusters_info <> [] ->
       match prep_migration_target st with
       | Some (_, target_cluster) => MsgRestoredTargeted target_cluster ∈ printed l
       | None => MsgProcessedFull (map fst clusters_info) ∈ printed l
       end) ->
      Post (Ret tt) st') ->
  wp (cleanup_summary total success_count failed clusters_info) Post st.
Proof.
  intros HPost. unfold cleanup_summary.
  repeat wp_step.
  all: eapply HPost; [simpl; rewrite <- ?app_assoc; reflexivity|reflexivity|].
  all: intros Hne; try done.
  all: repeat match goal with
       | H : prep_migration_target _ = _ |- _ => simpl in H; rewrite H
       end.
  all: simpl; rewrite !elem_of_cons; tauto.
Qed.

Lemma cleanup_phases_line_wp mm_ip controllers st np cl
    (Post : outcome bool -> state -> Prop) :
  prep_migration_target st = Some (np, cl) ->
  (forall l st',
      trace st' = (trace st ++ l)%list ->
      (if bool_decide (0 < length (completed_names l))%nat
       then MsgProcessedFull [cl] ∈ printed l
       else MsgRestoredTargeted cl ∈ printed l) ->
      Post (Ret (bool_decide (0 < length (completed_names l))%nat)) st') ->
  wp (cleanup_phases db mm_ip controllers) Post st.
Proof.
  intros Htarget HPost. unfold cleanup_phases.
  wp_step. apply phase1_wp.
  intros s1 f1 l1 bad st1 Hs1 Hg1 Ht1 Ha1 Ho1 Es Ef Hlen Hsub Hbad. subst s1 f1.
  simpl in *. apply globals_inv in Hg1 as (Hc1 & Hgr1 & Htg1).
  wp_step. apply restoration_targets_wp.
  intros l2 st2 Hs2 Hg2 Ht2 [Ha2 Hn2] Hcmd2 Ho2 Hann.
  apply globals_inv in Hg2 as (Hc2 & Hgr2 & Htg2).
  rewrite Htg1, Htarget. simpl targets_for.
  wp_step. apply restore_lc_clusters_wp.
  intros l3 st3 Hs3 Hg3 Ht3 [Ha3 Hn3] Hr3 Hall3.
  apply globals_inv in Hg3 as (Hc3 & Hgr3 & Htg3).
  wp_step.
  destruct (bool_decide (0 < length (completed_names l1))%nat) eqn:Hb.
  - repeat wp_step. apply cleanup_summary_line_wp.
    intros l4 st4 Ht4 Hn4 Hline. simpl in *. wp_step.
    assert (Hn : completed_names
                   (l1 ++ l2 ++ l3 ++ [Print MsgSelectionsCleared] ++ l4)
                 = completed_names l1).
    { rewrite !completed_names_app, Hn2, Hn3, Hn4. simpl.
      by rewrite !app_nil_r. }
    pose proof (HPost (l1 ++ l2 ++ l3 ++ [Print MsgSelectionsCleared] ++ l4)%list
                  st4) as HP.
    rewrite Hn, Hb in HP. apply HP.
    + rewrite Ht4, Ht3, Ht2, Ht1. simpl. by rewrite <- !app_assoc.
    + specialize (Hline ltac:(done)).
      rewrite !printed_app, !elem_of_app. tauto.
  - repeat wp_step. apply cleanup_summary_line_wp.
    intros l4 st4 Ht4 Hn4 Hline. simpl in *. wp_step.
    assert (Hn : completed_names (l1 ++ l2 ++ l3 ++ l4) = completed_names l1).
    { rewrite !completed_names_app, Hn2, Hn3, Hn4. by rewrite !app_nil_r. }
    pose proof (HPost (l1 ++ l2 ++ l3 ++ l4)%list st4) as HP.
    rewrite Hn, Hb in HP. apply HP.
    + rewrite Ht4, Ht3, Ht2, Ht1. by rewrite <- !app_assoc.
    + specialize (Hline ltac:(done)).
      rewrite Htg3, Htg2, Htg1, Htarget in Hline.
      rewrite !printed_app, !elem_of_app. tauto.
Qed.

End SummaryLine.

(** The summary of a cleanup reads the migration target after the clearing
    step. In a confirmed run with a recorded target, when the cleanup of
    Phase 1 was reported complete for some controller the target has been
    cleared by then, and the summary reports the restoration of that one
    cluster as a full restoration; it reports a targeted restoration only
    when Phase 1 succeeded on no controller. *)
Theorem cleanup_summary_reads_the_cleared_target
    db mm_ip st line rest nodepath cluster :
  get_all_controllers db <> [] ->
  inputs st = line :: rest ->
  Py.lower_is_y line = true ->
  prep_migration_target st = Some (nodepath, cluster) ->
  let l := new_events st (cleanup_ap_convert db mm_ip st).2 in
  (completed_names l <> [] -> MsgProcessedFull [cluster] ∈ printed l)
  /\ (completed_names l = [] -> MsgRestoredTargeted cluster ∈ printed l).
Proof.
  intros Hcs Hin Hy Htarget.
  assert (H : wp (cleanup_ap_convert db mm_ip)
                (fun _ st' => exists l,
                   trace st' = (trace st ++ l)%list
                   /\ if bool_decide (0 < length (completed_names l))%nat
                      then MsgProcessedFull [cluster] ∈ printed l
                      else MsgRestoredTargeted cluster ∈ printed l) st).
  { unfold cleanup_ap_convert.
    destruct (get_all_controllers db) as [|c0 cs] eqn:Ecs; [done|].
    rewrite <- Ecs.
    repeat (lazymatch goal with
            | |- wp (cleanup_phases _ _ _) _ _ => fail
            | _ => wp_step
            end).
    all: simpl in *.
    all: try congruence.
    all: repeat match goal with
         | H : inputs _ = _ :: _ |- _ => rewrite Hin in H; injection H as <- <-
         end.
    all: try (rewrite Hy in *; discriminate).
    all: eapply cleanup_phases_line_wp; [simpl; eassumption|].
    all: intros lr str Ht Hline; eexists;
      (split; [rewrite Ht; simpl; rewrite <- ?app_assoc; reflexivity|]).
    all: injection Htarget as -> ->.
    all: unfold completed_names, printed in *; simpl.
    all: destruct (bool_decide _); rewrite ?elem_of_cons; auto. }
  unfold wp in H. destruct H as (l & Ht & Hline).
  simpl. rewrite (new_events_app _ _ _ Ht).
  destruct (completed_names l) as [|n names]; simpl in Hline.
  - split; [done|]. intros _. exact Hline.
  - split; [|done]. intros _. exact Hline.
Qed.

Lemma sessions_in_session host l l' :
  forallb (in_session host) l = true ->
  sessions (Some host) (l ++ l') = sessions (Some host) l'.
Proof.
  induction l as [|e l IH]; [done|]. simpl.
  intros [He Hl]%andb_prop. destruct e; simpl in *; try done; auto.
  by rewrite He, IH.
Qed.

Lemma sessions_app open l1 l2 :
  sessions open l1 = true -> sessions open (l1 ++ l2) = sessions None l2.
Proof.
  revert open. induction l1 as [|e l1 IH]; intros open; simpl.
  - by destruct open.
  - destruct e, open; simpl; try done; auto.
    + intros [-> H]%andb_prop. simpl. auto.
    + intros [-> H]%andb_prop. simpl. auto.
Qed.

#[global] Instance well_sessioned_closed : Closed well_sessioned.
Proof.
  split; [done|]. unfold well_sessioned.
  intros _ _ _ l1 l2 H1 H2. by rewrite (sessions_app _ _ _ H1).
Qed.

#[global] Instance within_session_closed host : Closed (within_session host).
Proof.
  split; [done|]. unfold within_session.
  intros _ _ _ l1 l2 H1 H2. by rewrite forallb_app, H1, H2.
Qed.

(** Close the side condition of a step inside or outside a session. *)
Ltac session_event :=
  solve [ unfold well_sessioned, within_session; simpl;
          rewrite ?String.eqb_refl; repeat split; reflexivity ].

Ltac keeps_session :=
  repeat (first [ keeps_step
                | match goal with
                  | |- keeps _ (match ?x with _ => _ end _) => destruct x
                  end ];
          try session_event).

(** Finish a leaf of a host body: the events listed keep the sessions well
    formed. *)
Ltac session_leaf :=
  repeat match goal with
         | H : negb ?b = true |- _ => destruct b; [discriminate H|clear H]
         | H : negb ?b = false |- _ => destruct b; [clear H|discriminate H]
         end;
  split; [reflexivity|]; eexists;
  split; [simpl; rewrite <- ?app_assoc; reflexivity|];
  unfold well_sessioned; simpl; rewrite ?String.eqb_refl; reflexivity.

Section Sessions.

Variable py_int : string -> option Z.
Variable search_profile_name : string -> option string.
Variable db : database.

Lemma init_on_controller_sessions command c s :
  keeps (advances well_sessioned) (init_on_controller command c s).
Proof.
  intros st.
  change (wp (init_on_controller command c s)
            (fun _ st' => advances well_sessioned st st') st).
  unfold init_on_controller. repeat wp_step. all: session_leaf.
Qed.

Lemma add_on_controller_sessions command c s :
  keeps (advances well_sessioned) (add_on_controller command c s).
Proof.
  intros st.
  change (wp (add_on_controller command c s)
            (fun _ st' => advances well_sessioned st st') st).
  unfold add_on_controller. repeat wp_step. all: session_leaf.
Qed.

Lemma cleanup_on_controller_sessions c acc :
  keeps (advances well_sessioned) (cleanup_on_controller c acc).
Proof.
  intros st. destruct acc as [s f].
  change (wp (cleanup_on_controller c (s, f))
            (fun _ st' => advances well_sessioned st st') st).
  unfold cleanup_on_controller, answer_prompt. repeat wp_step.
  all: session_leaf.
Qed.

Lemma restore_cluster_within mm_ip target flag :
  keeps (advances (within_session mm_ip)) (restore_cluster mm_ip target flag).
Proof. unfold restore_cluster. keeps_session. Qed.

Lemma prep_steps_within ip np cluster :
  keeps (advances (within_session ip))
    (prep_steps search_profile_name ip np cluster).
Proof.
  unfold prep_steps, prep_enter_profile, prep_disable_and_save.
  keeps_session.
Qed.

(** Finish a leaf of a session wrapper: [l1] are the events inside the
    session. *)
Ltac wrapper_leaf Hs1 Ht1 Hl1 :=
  repeat match goal with
         | H : negb ?b = true |- _ => destruct b; [discriminate H|clear H]
         | H : negb ?b = false |- _ => destruct b; [clear H|discriminate H]
         end;
  split; [simpl in *; congruence|]; eexists;
  split; [simpl; rewrite ?Ht1; simpl; rewrite <- ?app_assoc; reflexivity|];
  unfold well_sessioned; simpl;
  rewrite ?(sessions_in_session _ _ _ Hl1); simpl;
  rewrite ?String.eqb_refl; reflexivity.

Lemma restore_lc_clusters_sessions mm_ip clusters_info :
  keeps (advances well_sessioned) (restore_lc_clusters mm_ip clusters_info).
Proof.
  intros st.
  change (wp (restore_lc_clusters mm_ip clusters_info)
            (fun _ st' => advances well_sessioned st st') st).
  unfold restore_lc_clusters.
  destruct clusters_info as [|target rest].
  { wp_step. session_leaf. }
  do 3 wp_step.
  { wp_step. session_leaf. }
  wp_step. wp_step.
  eapply wp_of_keeps.
  { apply keeps_for_each; [apply _|]. intros x b. apply restore_cluster_within. }
  intros o st1 l1 Hs1 Ht1 Hl1. unfold within_session in Hl1.
  destruct o; repeat wp_step.
  all: wrapper_leaf Hs1 Ht1 Hl1.
Qed.

Lemma prep_session_sessions ip np cluster :
  keeps (advances well_sessioned)
    (prep_session search_profile_name ip np cluster).
Proof.
  intros st.
  change (wp (prep_session search_profile_name ip np cluster)
            (fun _ st' => advances well_sessioned st st') st).
  unfold prep_session.
  do 2 wp_step.
  2:{ split; [done|]. exists []. by rewrite app_nil_r. }
  wp_step.
  { wp_step. session_leaf. }
  do 3 wp_step.
  { wp_step. session_leaf. }
  wp_step.
  eapply wp_of_keeps; [apply prep_steps_within|].
  intros o st1 l1 Hs1 Ht1 Hl1. unfold within_session in Hl1.
  destruct o; repeat wp_step.
  all: wrapper_leaf Hs1 Ht1 Hl1.
Qed.

Lemma execute_ap_convert_init_sessions :
  keeps (advances well_sessioned) (execute_ap_convert_init db).
Proof.
  unfold execute_ap_convert_init. keeps_session.
  all: apply init_on_controller_sessions.
Qed.

Lemma select_and_add_ap_group_sessions :
  keeps (advances well_sessioned) (select_and_add_ap_group py_int db).
Proof.
  unfold select_and_add_ap_group. keeps_session.
  all: apply add_on_controller_sessions.
Qed.

Lemma prep_migration_ssh_sessions ip :
  keeps (advances well_sessioned)
    (prep_migration_ssh py_int search_profile_name db ip).
Proof.
  unfold prep_migration_ssh, prep_select_nodepath, prep_select_cluster.
  keeps_session.
  all: apply prep_session_sessions.
Qed.

Lemma cleanup_ap_convert_sessions mm_ip :
  keeps (advances well_sessioned) (cleanup_ap_convert db mm_ip).
Proof.
  unfold cleanup_ap_convert, cleanup_phases, restoration_targets,
    cleanup_summary.
  keeps_session.
  all: first [ apply cleanup_on_controller_sessions
             | apply restore_lc_clusters_sessions ].
Qed.

End Sessions.

(** In every workflow the SSH sessions are well formed: a session is
    opened by a connection that succeeds, while it is open no other
    connection is attempted and every command goes to its host, and it is
    closed before the workflow goes on to the next host and before it
    ends, also when a command or the operator's input raises inside it. No
    command is ever sent outside a session. *)
Theorem sessions_are_opened_and_closed
    py_int search_profile_name db ip st :
  sessions None (new_events st (execute_ap_convert_init db st).2) = true
  /\ sessions None (new_events st (select_and_add_ap_group py_int db st).2) = true
  /\ sessions None
       (new_events st (prep_migration_ssh py_int search_profile_name db ip st).2)
     = true
  /\ sessions None (new_events st (cleanup_ap_convert db ip st).2) = true.
Proof.
  repeat split.
  - destruct (execute_ap_convert_init_sessions db st) as (_ & l & Ht & Hl).
    by rewrite (new_events_app _ _ _ Ht).
  - destruct (select_and_add_ap_group_sessions py_int db st) as (_ & l & Ht & Hl).
    by rewrite (new_events_app _ _ _ Ht).
  - destruct (prep_migration_ssh_sessions py_int search_profile_name db ip st)
      as (_ & l & Ht & Hl).
    by rewrite (new_events_app _ _ _ Ht).
  - destruct (cleanup_ap_convert_sessions db ip st) as (_ & l & Ht & Hl).
    by rewrite (new_events_app _ _ _ Ht).
Qed.

Lemma restore_cluster_sends_its_commands_regardless_witness :
  responses rejecting_conductor
  = [Some ""; Some ""; Some "% Invalid input detected";
     Some "% Invalid input detected"; Some "% Invalid input detected";
     Some ""; Some ""; Some "Configuration Saved."]
  /\ (restore_cluster conductor ("DC-East", "/md/site-a") false
        rejecting_conductor).1 = Ret true.
Proof.
  assert (H : responses rejecting_conductor
              = [Some ""; Some ""; Some "% Invalid input detected";
                 Some "% Invalid input detected"; Some "% Invalid input detected";
                 Some ""; Some ""; Some "Configuration Saved."]).
  { vm_compute. reflexivity. }
  exact (conj H
           (proj1 (restore_cluster_sends_its_commands_regardless conductor
                     "DC-East" "/md/site-a" false rejecting_conductor
                     "" "" "% Invalid input detected" "% Invalid input detected"
                     "% Invalid input detected" "" "" "Configuration Saved."
                     [] H))).
Defined.

Lemma unconfirmed_cleanup_reaches_no_device_witness :
  (inputs cleanup_refused = ["n"] /\ Py.lower_is_y "n" = false)
  /\ (cleanup_ap_convert fleet conductor cleanup_refused).1 = Ret false.
Proof.
  assert (H1 : inputs cleanup_refused = ["n"]).
  { vm_compute. reflexivity. }
  assert (H2 : Py.lower_is_y "n" = false).
  { vm_compute. reflexivity. }
  exact (conj (conj H1 H2)
           (proj1 (unconfirmed_cleanup_reaches_no_device fleet conductor
                     cleanup_refused "n" [] H1 H2))).
Defined.

Lemma cluster_workflows_need_a_selection_witness :
  truthy (selected_cluster plain_prep) = None
  /\ execute_ap_convert_init fleet plain_prep
     = (Ret false, log (Print MsgNoClusterSelected) plain_prep).
Proof.
  assert (H : truthy (selected_cluster plain_prep) = None).
  { vm_compute. reflexivity. }
  exact (conj H
           (proj1 (cluster_workflows_need_a_selection int_of_digits fleet
                     plain_prep H))).
Defined.

Lemma cleanup_summary_reads_the_cleared_target_witness :
  (get_all_controllers fleet <> []
   /\ inputs cleanup_targeted = ["y"]
   /\ Py.lower_is_y "y" = true
   /\ prep_migration_target cleanup_targeted = Some ("/md/site-a", "DC-East")
   /\ completed_names
        (new_events cleanup_targeted
           (cleanup_ap_convert fleet conductor cleanup_targeted).2) <> [])
  /\ MsgProcessedFull ["DC-East"]
     ∈ printed (new_events cleanup_targeted
                  (cleanup_ap_convert fleet conductor cleanup_targeted).2).
Proof.
  assert (H1 : get_all_controllers fleet <> []).
  { vm_compute. discriminate. }
  assert (H2 : inputs cleanup_targeted = ["y"]).
  { vm_compute. reflexivity. }
  assert (H3 : Py.lower_is_y "y" = true).
  { vm_compute. reflexivity. }
  assert (H4 : prep_migration_target cleanup_targeted
               = Some ("/md/site-a", "DC-East")).
  { vm_compute. reflexivity. }
  assert (H5 : completed_names
                 (new_events cleanup_targeted
                    (cleanup_ap_convert fleet conductor cleanup_targeted).2)
               <> []).
  { vm_compute. discriminate. }
  exact (conj (conj H1 (conj H2 (conj H3 (conj H4 H5))))
           (proj1 (cleanup_summary_reads_the_cleared_target fleet conductor
                     cleanup_targeted "y" [] "/md/site-a" "DC-East"
                     H1 H2 H3 H4) H5)).
Defined.

Lemma lb_follows_marker_true l : lb_follows_marker true l = true.
Proof.
  induction l as [|c l IH]; simpl; [done|].
  rewrite IH. by destruct (String.eqb _ _).
Qed.

Lemma lb_follows_marker_weaken l :
  lb_follows_marker false l = true -> forall b, lb_follows_marker b l = true.
Proof.
  intros H [|]; [apply lb_follows_marker_true|done].
Qed.

Lemma lb_follows_marker_app b l1 l2 :
  lb_follows_marker b l1 = true -> lb_follows_marker false l2 = true ->
  lb_follows_marker b (l1 ++ l2) = true.
Proof.
  revert b. induction l1 as [|c l1 IH]; intros b; simpl.
  - intros _ H. by apply lb_follows_marker_weaken.
  - intros [-> H1]%andb_prop H2. simpl. auto.
Qed.

#[global] Instance lb_guarded_closed : ClosedEvents lb_guarded.
Proof.
  split; [done|]. intros l1 l2 H1 H2. unfold lb_guarded. rewrite commands_app.
  by apply lb_follows_marker_app.
Qed.

#[global] Instance guarded_step_closed : Closed guarded_step.
Proof.
  split.
  - intros g. done.
  - intros g1 g2 g3 l1 l2 H1 H2. by apply lb_guarded_closed.
Qed.

Lemma prefix_app (p r : string) : String.prefix p (p ++ r) = true.
Proof.
  induction p as [|a p IH]; simpl; [by destruct r|].
  destruct (Ascii.ascii_dec a a); [done|done].
Qed.

Lemma prefix_app_inv (p s : string) :
  String.prefix p s = true -> exists r, s = p ++ r.
Proof.
  revert s. induction p as [|a p IH]; intros s.
  - intros _. by exists s.
  - destruct s as [|b s]; simpl; [done|].
    destruct (Ascii.ascii_dec a b) as [->|]; [|done].
    intros H. destruct (IH s H) as (r & ->). by exists r.
Qed.

(** Events that do not disable load balancing keep the order, whatever was
    seen before them. *)
Lemma quiet_guarded b l :
  forallb not_lb l = true -> lb_follows_marker b (commands l) = true.
Proof.
  revert b. induction l as [|e l IH]; intros b; simpl; [done|].
  intros [He Hl]%andb_prop. destruct e; simpl; auto.
  simpl in He. apply negb_true_iff in He. rewrite He. simpl. auto.
Qed.

(** Once a marker was captured, anything may follow. *)
Lemma lb_follows_marker_seen b l1 l2 :
  lb_follows_marker b l1 = true ->
  existsb confirms_profile l1 = true ->
  lb_follows_marker b (l1 ++ l2) = true.
Proof.
  revert b. induction l1 as [|c l1 IH]; intros b; simpl; [done|].
  intros [-> H1]%andb_prop Hex. simpl.
  destruct (confirms_profile c) eqn:Ec.
  - rewrite orb_true_r. apply lb_follows_marker_true.
  - simpl in Hex. rewrite orb_false_r in *. auto.
Qed.

Lemma marker_seen_confirms l :
  marker_seen l -> existsb confirms_profile (commands l) = true.
Proof.
  intros (shell & cluster_name & text & Hin & Hm).
  apply existsb_exists. eexists. split; [apply list_elem_of_In, Hin|].
  change (String.prefix "lc-cluster group-profile "
            ("lc-cluster group-profile " ++ cluster_name)
          && Py.any_in profile_context_markers text = true).
  by rewrite prefix_app, Hm.
Qed.

Lemma guarded_after l1 l2 :
  forallb not_lb l1 = true -> marker_seen l1 -> lb_guarded (l1 ++ l2).
Proof.
  intros Hq Hm. unfold lb_guarded. rewrite commands_app.
  apply lb_follows_marker_seen; [by apply quiet_guarded|].
  by apply marker_seen_confirms.
Qed.

(** What the order says about positions. *)
Lemma lb_follows_marker_lookup l :
  lb_follows_marker false l = true ->
  forall j shell output,
    l !! j = Some (shell, "no active-ap-lb", output) ->
    exists k shell' cluster_name text,
      (k < j)%nat
      /\ l !! k = Some (shell', "lc-cluster group-profile " ++ cluster_name, Some text)
      /\ Py.any_in profile_context_markers text = true.
Proof.
  assert (Hgen : forall b,
    lb_follows_marker b l = true ->
    forall j shell output,
      l !! j = Some (shell, "no active-ap-lb", output) ->
      b = true
      \/ exists k shell' cluster_name text,
           (k < j)%nat
           /\ l !! k = Some (shell', "lc-cluster group-profile " ++ cluster_name,
                             Some text)
           /\ Py.any_in profile_context_markers text = true).
  { induction l as [|c l IH]; intros b Hb j shell output Hj.
    - by rewrite lookup_nil in Hj.
    - simpl in Hb. apply andb_prop in Hb as [Hc Hrest].
      destruct j as [|j]; simpl in Hj.
      + injection Hj as ->. simpl in Hc. by left.
      + destruct (IH _ Hrest j shell output Hj) as [Hor|(k & s & n & t & Hk & Hl & Hm)].
        * apply orb_true_iff in Hor as [->|Hconf]; [by left|]. right.
          destruct c as [[s command] [text|]]; [|done]. simpl in Hconf.
          apply andb_prop in Hconf as [Hp Hm].
          apply prefix_app_inv in Hp as (n & ->).
          exists 0%nat, s, n, text. repeat split; [lia|done].
        * right. exists (S k), s, n, t. repeat split; [lia|done..]. }
  intros H j shell output Hj.
  by destruct (Hgen false H j shell output Hj) as [?|?].
Qed.

Section PrepGuard.

Variable py_int : string -> option Z.
Variable search_profile_name : string -> option string.
Variable db : database.

(** Entering the profile disables nothing. *)
Lemma prep_enter_profile_quiet ip cluster :
  keeps (advances (unchanged (fun l => forallb not_lb l = true)))
    (prep_enter_profile search_profile_name ip cluster).
Proof. unfold prep_enter_profile. keeps_auto. Qed.

(** [prep_enter_profile] returns only after a marker was captured, and
    sends no command that disables load balancing. *)
Lemma prep_enter_profile_guard_wp ip cluster st
    (Post : outcome string -> state -> Prop) :
  (forall cluster' l st',
      stored_md_switches st' = stored_md_switches st ->
      trace st' = (trace st ++ l)%list ->
      marker_seen l ->
      forallb not_lb l = true ->
      Post (Ret cluster') st') ->
  (forall e l st',
      stored_md_switches st' = stored_md_switches st ->
      trace st' = (trace st ++ l)%list ->
      forallb not_lb l = true ->
      Post (Exc e) st') ->
  wp (prep_enter_profile search_profile_name ip cluster) Post st.
Proof.
  intros Hret Hexc.
  destruct (prep_enter_profile_quiet ip cluster st) as (_ & lq & Htq & _ & Hq).
  pose proof (prep_enter_profile_wp search_profile_name ip cluster st
    (fun o st' =>
       trace st' = (trace st ++ lq)%list -> Post o st')) as H.
  unfold wp in *. apply H; [| |exact Htq].
  - intros cluster' l st' Hs _ Ht Hm Ht'. rewrite Ht in Ht'.
    apply app_inv_head in Ht' as ->. eauto.
  - intros e l st' Hs _ Ht Ht'. rewrite Ht in Ht'.
    apply app_inv_head in Ht' as ->. eauto.
Qed.

(** The [try] block disables load balancing only after the profile
    context was confirmed. *)
Lemma prep_steps_guarded ip np cluster :
  keeps (advances guarded_step) (prep_steps search_profile_name ip np cluster).
Proof.
  intros st.
  change (wp (prep_steps search_profile_name ip np cluster)
            (fun _ st' => advances guarded_step st st') st).
  unfold prep_steps.
  repeat lazymatch goal with
    | |- wp (prep_enter_profile _ _ _) _ _ =>
        apply prep_enter_profile_guard_wp;
        [intros ?cluster' ?l ?st' ?Hs ?Ht ?Hm ?Hq|intros ?e ?l ?st' ?Hs ?Ht ?Hq]
    | |- wp (prep_disable_and_save _ _ _) _ _ =>
        apply prep_disable_and_save_wp;
        [intros ?l ?st' ?Hs ?Hg ?Ht ?Hsv ?Hp|intros ?e ?l ?st' ?Hs ?Hg ?Ht]
    | _ => wp_step
    end.
  all: simpl in *.
  all: lazymatch goal with
       | Ht : trace ?s1 = ((((_ ++ [?a]) ++ [?b]) ++ [?c]) ++ ?l)%list,
         Ht0 : trace ?s2 = (trace ?s1 ++ ?l0)%list,
         Hm : marker_seen ?l |- advances _ _ ?s2 =>
           split; [congruence|];
           exists (([a; b; c] ++ l) ++ l0)%list;
           split; [rewrite Ht0, Ht; rewrite <- ?app_assoc; reflexivity|];
           apply guarded_after;
           [ rewrite forallb_app, Hq; reflexivity
           | eapply marker_seen_mono; [exact Hm|];
             intros ? ?; rewrite commands_app; apply elem_of_app; by right ]
       | Ht : trace ?s1 = ((((_ ++ [?a]) ++ [?b]) ++ [?c]) ++ ?l)%list
         |- advances _ _ ?s1 =>
           split; [congruence|];
           exists ([a; b; c] ++ l)%list;
           split; [rewrite Ht; rewrite <- ?app_assoc; reflexivity|];
           apply quiet_guarded; rewrite forallb_app, Hq; reflexivity
       | |- _ =>
           split; [reflexivity|]; eexists;
           split; [simpl; rewrite <- ?app_assoc; reflexivity|reflexivity]
       end.
Qed.

Lemma prep_migration_ssh_guarded ip :
  keeps (advances guarded_step)
    (prep_migration_ssh py_int search_profile_name db ip).
Proof.
  unfold prep_migration_ssh, prep_select_nodepath, prep_select_cluster,
    prep_session.
  keeps_auto.
  all: try apply prep_steps_guarded.
Qed.

End PrepGuard.

(** C6, amended. In every run of [prep_migration_ssh], a command that
    disables redundancy is the command right after one that disables load
    balancing and that returned: load balancing is disabled first
    (step 4 of 6), redundancy second (step 5 of 6). And a command that
    disables load balancing is sent only after the profile context was
    confirmed: an earlier command of the run entered a cluster profile and
    captured a text that holds a context marker. *)
Theorem redundancy_disabled_right_after_load_balancing
    py_int search_profile_name db ip st :
  (forall i shell output,
      commands (new_events st
                  (prep_migration_ssh py_int search_profile_name db ip st).2)
        !! i = Some (shell, "no redundancy", output) ->
      exists j shell' output',
        i = S j
        /\ commands (new_events st
                       (prep_migration_ssh py_int search_profile_name db ip st).2)
             !! j = Some (shell', "no active-ap-lb", Some output'))
  /\ (forall j shell output,
        commands (new_events st
                    (prep_migration_ssh py_int search_profile_name db ip st).2)
          !! j = Some (shell, "no active-ap-lb", output) ->
        exists k shell' cluster_name text,
          (k < j)%nat
          /\ commands (new_events st
                         (prep_migration_ssh py_int search_profile_name db ip st).2)
               !! k = Some (shell', "lc-cluster group-profile " ++ cluster_name,
                            Some text)
          /\ Py.any_in profile_context_markers text = true).
Proof.
  split.
  - destruct (prep_migration_ssh_keeps py_int search_profile_name db ip st)
      as (_ & l & Ht & _ & _ & Hlb).
    rewrite (new_events_app _ _ _ Ht). apply redundancy_follows_lb_lookup, Hlb.
  - destruct (prep_migration_ssh_guarded py_int search_profile_name db ip st)
      as (_ & l & Ht & Hg).
    rewrite (new_events_app _ _ _ Ht). apply lb_follows_marker_lookup, Hg.
Qed.

Lemma redundancy_disabled_right_after_load_balancing_witness :
  (commands (new_events plain_prep
               (prep_migration_ssh int_of_digits no_profile_name fleet
                  conductor plain_prep).2)
     !! 4%nat = Some (conductor, "no redundancy", Some "")
   /\ commands (new_events plain_prep
                  (prep_migration_ssh int_of_digits no_profile_name fleet
                     conductor plain_prep).2)
        !! 3%nat = Some (conductor, "no active-ap-lb", Some ""))
  /\ (exists j shell' output',
        4%nat = S j
        /\ commands (new_events plain_prep
                       (prep_migration_ssh int_of_digits no_profile_name fleet
                          conductor plain_prep).2)
             !! j = Some (shell', "no active-ap-lb", Some output'))
  /\ exists k shell' cluster_name text,
       (k < 3)%nat
       /\ commands (new_events plain_prep
                      (prep_migration_ssh int_of_digits no_profile_name fleet
                         conductor plain_prep).2)
            !! k = Some (shell', "lc-cluster group-profile " ++ cluster_name,
                         Some text)
       /\ Py.any_in profile_context_markers text = true.
Proof.
  assert (H1 : commands (new_events plain_prep
                 (prep_migration_ssh int_of_digits no_profile_name fleet
                    conductor plain_prep).2)
               !! 4%nat = Some (conductor, "no redundancy", Some "")).
  { vm_compute. reflexivity. }
  assert (H2 : commands (new_events plain_prep
                 (prep_migration_ssh int_of_digits no_profile_name fleet
                    conductor plain_prep).2)
               !! 3%nat = Some (conductor, "no active-ap-lb", Some "")).
  { vm_compute. reflexivity. }
  exact (conj (conj H1 H2)
           (conj (proj1 (redundancy_disabled_right_after_load_balancing
                           int_of_digits no_profile_name fleet conductor
                           plain_prep) 4%nat conductor (Some "") H1)
                 (proj2 (redundancy_disabled_right_after_load_balancing
                           int_of_digits no_profile_name fleet conductor
                           plain_prep) 3%nat conductor (Some "") H2))).
Defined.

End OrchestrationProperties.
